(** * IntentFlow workflow validator (tools/validator/validate.py)

    A shallow embedding of [WorkflowValidator] and of the parts of Python's
    [str], [int] and [re] it relies on, followed by the properties of the
    validator that its specification states.

    Python strings are sequences of Unicode code points; they are modelled
    as lists of [N].  The patterns of the program are transcribed into a
    small regular-expression syntax and run by a backtracking matcher that
    follows the priority order of Python's [re] (alternatives left to
    right, greedy repetitions longest first, lazy ones shortest first). *)

From Stdlib Require Import String Ascii DecimalString.
From Stdlib Require Import List NArith ZArith Bool Arith Lia.
From Stdlib Require Import Permutation Sorted.
From Stdlib Require DecimalPos DecimalZ.
Import ListNotations.
Local Open Scope list_scope.

(** ** Strings *)

Definition str := list N.

(** An ASCII literal as a Python string. *)
Definition py (s : string) : str := map N_of_ascii (list_ascii_of_string s).

Definition NL : N := 10%N.
(** U+2192 RIGHTWARDS ARROW, the non-ASCII character of the source. *)
Definition RARROW : N := 8594%N.

Definition str_eqb (a b : str) : bool :=
  if list_eq_dec N.eq_dec a b then true else false.

Fixpoint dropwhile (f : N -> bool) (s : str) : str :=
  match s with
  | c :: t => if f c then dropwhile f t else s
  | [] => []
  end.

Definition member (chars : str) (c : N) : bool := existsb (N.eqb c) chars.

(** [str.isspace] on one code point; it is also the class [\s] of [re]. *)
Definition isspace (c : N) : bool :=
  ((9 <=? c) && (c <=? 13) || (28 <=? c) && (c <=? 32)
   || (c =? 133) || (c =? 160) || (c =? 5760)
   || (8192 <=? c) && (c <=? 8202)
   || (c =? 8232) || (c =? 8233) || (c =? 8239) || (c =? 8287)
   || (c =? 12288))%N.

(** [s.lstrip()], [s.rstrip()], [s.strip()] *)
Definition lstrip (s : str) : str := dropwhile isspace s.
Definition rstrip (s : str) : str := rev (dropwhile isspace (rev s)).
Definition strip (s : str) : str := rstrip (lstrip s).

(** [s.lstrip(chars)], [s.strip(chars)] *)
Definition lstrip_chars (chars s : str) : str := dropwhile (member chars) s.
Definition strip_chars (chars s : str) : str :=
  rev (dropwhile (member chars) (rev (dropwhile (member chars) s))).

(** [s.startswith(p)] *)
Fixpoint startswith (p s : str) : bool :=
  match p, s with
  | [], _ => true
  | a :: p', c :: s' => (a =? c)%N && startswith p' s'
  | _ :: _, [] => false
  end.

(** [p in s] *)
Fixpoint contains (p s : str) : bool :=
  startswith p s || match s with [] => false | _ :: t => contains p t end.

(** [s.split(sep)] for a one-character separator. *)
Fixpoint split_on (sep : N) (s : str) : list str :=
  match s with
  | [] => [[]]
  | c :: t =>
      if (c =? sep)%N then [] :: split_on sep t
      else match split_on sep t with
           | w :: ws => (c :: w) :: ws
           | [] => [[c]]
           end
  end.

(** [s.split(sep, 1)] for a one-character separator. *)
Fixpoint split_once (sep : N) (s : str) : list str :=
  match s with
  | [] => [[]]
  | c :: t =>
      if (c =? sep)%N then [[]; t]
      else match split_once sep t with
           | w :: ws => (c :: w) :: ws
           | [] => [[c]]
           end
  end.

(** [sep.join(parts)] *)
Fixpoint join (sep : str) (parts : list str) : str :=
  match parts with
  | [] => []
  | [p] => p
  | p :: ps => p ++ sep ++ join sep ps
  end.

(** [bool(s)] for a string and for an [Optional[str]]. *)
Definition nonempty (s : str) : bool :=
  match s with [] => false | _ => true end.
Definition truthy (o : option str) : bool :=
  match o with Some s => nonempty s | None => false end.

(** ** Exceptions *)

Inductive exn := ValueError | IndexError | AttributeError.

Definition M (A : Type) : Type := (exn + A)%type.
Definition ret {A} (a : A) : M A := inr a.
Definition raise {A} (e : exn) : M A := inl e.
Definition bind {A B} (m : M A) (k : A -> M B) : M B :=
  match m with inl e => inl e | inr a => k a end.

Notation "x <- m ;; k" := (bind m (fun x => k))
  (at level 61, m at next level, right associativity).

Fixpoint mapM {A B} (f : A -> M B) (l : list A) : M (list B) :=
  match l with
  | [] => ret []
  | a :: t => b <- f a ;; bs <- mapM f t ;; ret (b :: bs)
  end.

(** [l[i]] *)
Definition index {A} (l : list A) (i : nat) : M A :=
  match nth_error l i with Some a => ret a | None => raise IndexError end.

(** [a, b = l] *)
Definition unpack2 {A} (l : list A) : M (A * A) :=
  match l with [a; b] => ret (a, b) | _ => raise ValueError end.

(** ** The interpreter

    What the program takes from the Python runtime and cannot be read off
    its source: the limit on the number of digits [int] converts
    ([sys.get_int_max_str_digits()], which is 0 or at least 640; 0
    switches the limit off, as do the interpreters that predate it) and
    the Unicode character database beyond Basic Latin. *)

Class Interpreter := {
  int_max_str_digits : nat;
  (** decimal value of a code point above 127, for those of category Nd *)
  unicode_decimal : N -> option N;
  (** [str.isalnum] on a code point above 127 *)
  unicode_alnum : N -> bool;
  (** [str.lower] on a string that is not pure ASCII *)
  unicode_lower : str -> str
}.

Section Runtime.
Context {I : Interpreter}.

Definition isascii (c : N) : bool := (c <? 128)%N.

(** Decimal value of a code point, if it is a decimal digit. *)
Definition decimal (c : N) : option N :=
  if isascii c then
    if ((48 <=? c) && (c <=? 57))%N then Some (c - 48)%N else None
  else unicode_decimal c.

(** The class [\d]. *)
Definition isdecimal (c : N) : bool :=
  match decimal c with Some _ => true | None => false end.

(** The class [\w]. *)
Definition isword (c : N) : bool :=
  if isascii c then
    ((48 <=? c) && (c <=? 57) || (65 <=? c) && (c <=? 90)
     || (97 <=? c) && (c <=? 122) || (c =? 95))%N
  else unicode_alnum c.

Definition ascii_lower (c : N) : N :=
  if ((65 <=? c) && (c <=? 90))%N then (c + 32)%N else c.

(** [s.lower()] *)
Definition lower (s : str) : str :=
  if forallb isascii s then map ascii_lower s else unicode_lower s.

Fixpoint digits_value (acc : Z) (s : str) : M Z :=
  match s with
  | [] => ret acc
  | c :: t =>
      match decimal c with
      | Some d => digits_value (10 * acc + Z.of_N d)%Z t
      | None => raise ValueError
      end
  end.

(** [int(s)] for a string without sign, blanks or underscores. *)
Definition int (s : str) : M Z :=
  match s with
  | [] => raise ValueError
  | _ =>
      if (0 <? int_max_str_digits) && (int_max_str_digits <? length s)
      then raise ValueError
      else digits_value 0%Z s
  end.

End Runtime.

(** [str(n)] for an integer. *)
Definition str_of_int (z : Z) : str := py (NilZero.string_of_int (Z.to_int z)).

(** [str(l)] for a list of integers, as an f-string prints it. *)
Definition str_of_list (l : list Z) : str :=
  py "[" ++ join (py ", ") (map str_of_int l) ++ py "]".

(** [sorted(l)] *)
Fixpoint insert_sorted (x : Z) (l : list Z) : list Z :=
  match l with
  | [] => [x]
  | y :: t => if (x <? y)%Z then x :: l else y :: insert_sorted x t
  end.

Fixpoint sorted (l : list Z) : list Z :=
  match l with
  | [] => []
  | x :: t => insert_sorted x (sorted t)
  end.

(** [list(range(a, a + n))] *)
Fixpoint range_from (a : Z) (n : nat) : list Z :=
  match n with
  | O => []
  | S n' => a :: range_from (a + 1)%Z n'
  end.

(** [set(l)], of which the program takes the size only. *)
Definition set_of (l : list Z) : list Z := nodup Z.eq_dec l.

(** ** Regular expressions

    The syntax covers what the patterns of the program use.  Every
    repetition in them ranges over a single character class, so [Rep]
    takes a class and not a sub-expression. *)

Module Re.

Inductive regex :=
| Eps
| Chr (f : N -> bool)                       (* one character of a class *)
| Seq (r1 r2 : regex)
| Alt (r1 r2 : regex)                       (* r1|r2 *)
| Opt (r : regex)                           (* (?:r)? *)
| Rep (lazy : bool) (lo : nat) (f : N -> bool)  (* f{lo,} or f{lo,}? *)
| Grp (n : nat) (r : regex)                 (* capturing group number n *)
| Ahead (r : regex)                         (* (?=r) *)
| Bol                                       (* ^ under re.MULTILINE *)
| Eol (multiline : bool)                    (* $ *)
| EndZ.                                     (* \Z *)

(** Groups that took part in the match, latest binding first. *)
Definition caps := list (nat * str).

Fixpoint lookup (n : nat) (cs : caps) : option str :=
  match cs with
  | [] => None
  | (m, s) :: t => if Nat.eqb n m then Some s else lookup n t
  end.

(** The matcher walks a zipper: the characters before the cursor, nearest
    first, and the characters from the cursor on. *)
Definition res : Type := str * str * caps.
Definition cont : Type := str -> str -> caps -> option res.

Notation "a <|> b" := (match a with Some x => Some x | None => b end)
  (at level 60, right associativity).

Fixpoint rep (lazy : bool) (f : N -> bool) (lo : nat)
         (b rest : str) (cs : caps) (k : cont) {struct rest} : option res :=
  match lo with
  | S lo' =>
      match rest with
      | c :: t => if f c then rep lazy f lo' (c :: b) t cs k else None
      | [] => None
      end
  | O =>
      if lazy then
        k b rest cs <|>
        match rest with
        | c :: t => if f c then rep lazy f O (c :: b) t cs k else None
        | [] => None
        end
      else
        match rest with
        | c :: t => if f c then rep lazy f O (c :: b) t cs k else None
        | [] => None
        end <|> k b rest cs
  end.

Fixpoint run (r : regex) (b rest : str) (cs : caps) (k : cont)
  : option res :=
  match r with
  | Eps => k b rest cs
  | Chr f =>
      match rest with
      | c :: t => if f c then k (c :: b) t cs else None
      | [] => None
      end
  | Seq r1 r2 => run r1 b rest cs (fun b' rest' cs' => run r2 b' rest' cs' k)
  | Alt r1 r2 => run r1 b rest cs k <|> run r2 b rest cs k
  | Opt r1 => run r1 b rest cs k <|> k b rest cs
  | Rep lazy lo f => rep lazy f lo b rest cs k
  | Grp n r1 =>
      run r1 b rest cs (fun b' rest' cs' =>
        k b' rest' ((n, firstn (length b' - length b) rest) :: cs'))
  | Ahead r1 =>
      match run r1 b rest cs (fun b' rest' cs' => Some (b', rest', cs')) with
      | Some (_, _, cs') => k b rest cs'
      | None => None
      end
  | Bol =>
      match b with
      | [] => k b rest cs
      | c :: _ => if (c =? NL)%N then k b rest cs else None
      end
  | Eol multiline =>
      match rest with
      | [] => k b rest cs
      | c :: t =>
          if (c =? NL)%N && (multiline || match t with [] => true | _ => false end)
          then k b rest cs else None
      end
  | EndZ =>
      match rest with
      | [] => k b rest cs
      | _ :: _ => None
      end
  end.

Definition accept : cont := fun b rest cs => Some (b, rest, cs).

(** A match object: span and groups. *)
Record match_object := {
  m_start : nat;
  m_end : nat;
  m_caps : caps
}.

(** [m.group(n)] *)
Definition group (m : match_object) (n : nat) : option str :=
  lookup n (m_caps m).

(** One attempt with the cursor between [b] and [rest]. *)
Definition match_here (r : regex) (b rest : str) : option match_object :=
  match run r b rest [] accept with
  | Some (b', _, cs) =>
      Some {| m_start := length b; m_end := length b'; m_caps := cs |}
  | None => None
  end.

Fixpoint search_from (r : regex) (b rest : str) : option match_object :=
  match_here r b rest <|>
  match rest with
  | c :: t => search_from r (c :: b) t
  | [] => None
  end.

(** [re.search(r, s)] *)
Definition search (r : regex) (s : str) : option match_object :=
  search_from r [] s.

(** Scan for successive matches; no attempt is made before [resume], the
    end of the previous match.  No pattern of the program matches the
    empty string, so the rule of [re] for empty matches plays no part. *)
Fixpoint finditer_from (r : regex) (resume : nat) (b rest : str)
  : list match_object :=
  match (if resume <=? length b then match_here r b rest else None) with
  | Some m =>
      m :: match rest with
           | c :: t => finditer_from r (Nat.max (m_end m) (S (length b))) (c :: b) t
           | [] => []
           end
  | None =>
      match rest with
      | c :: t => finditer_from r resume (c :: b) t
      | [] => []
      end
  end.

(** [re.finditer(r, s)] *)
Definition finditer (r : regex) (s : str) : list match_object :=
  finditer_from r 0 [] s.

(** [re.findall(r, s)] for a pattern with exactly one group. *)
Definition findall1 (r : regex) (s : str) : list str :=
  map (fun m => match group m 1 with Some g => g | None => [] end)
      (finditer r s).

(** [re.split(r, s)] for a pattern without groups: the pieces of [s]
    between successive matches. *)
Fixpoint pieces (s : str) (from : nat) (ms : list match_object) : list str :=
  match ms with
  | [] => [skipn from s]
  | m :: ms' => firstn (m_start m - from) (skipn from s) :: pieces s (m_end m) ms'
  end.

Definition split (r : regex) (s : str) : list str :=
  pieces s 0 (finditer r s).

(** *** Building patterns *)

Definition chr (c : N) : N -> bool := N.eqb c.
Definition any : N -> bool := fun _ => true.
Definition notnl : N -> bool := fun c => negb (c =? NL)%N.
Definition dot (dotall : bool) : N -> bool := if dotall then any else notnl.
Definition oneof (chars : str) : N -> bool := member chars.
Definition noneof (chars : str) : N -> bool := fun c => negb (member chars c).
Definition either (f g : N -> bool) : N -> bool := fun c => f c || g c.

Definition ascii_upper (c : N) : N :=
  if ((97 <=? c) && (c <=? 122))%N then (c - 32)%N else c.

(** The code points that a letter of a pattern matches under
    re.IGNORECASE: both cases of the letter, and for i, k and s the code
    points that fold to them (U+0130, U+0131, U+212A, U+017F). *)
Definition folds (c : N) : N -> bool := fun x =>
  ((x =? c) || (x =? ascii_upper c)
   || (c =? 105) && ((x =? 304) || (x =? 305))
   || (c =? 107) && (x =? 8490)
   || (c =? 115) && (x =? 383))%N.

Fixpoint cat (rs : list regex) : regex :=
  match rs with
  | [] => Eps
  | [r] => r
  | r :: rs' => Seq r (cat rs')
  end.

(** A literal; with [icase] it is matched as under re.IGNORECASE. *)
Definition lit (icase : bool) (s : string) : regex :=
  cat (map (fun c => Chr (if icase then folds (ascii_lower c) else chr c)) (py s)).

End Re.

(** ** Data model *)

(** One entry of [Step.error_handling]: the dict with keys
    ['condition'] and ['action']. *)
Record handler := { condition : str; action : str }.

Module Step.
Record t := {
  number : Z;
  title : str;
  task : option str;
  dependencies : list str;
  save_as : option str;
  success_criteria : list str;
  flexibility : option str;
  flexibility_level : str;
  constraints : list str;
  error_handling : list handler
}.
End Step.

Module ValidationResult.
(** The dict [info], whose keys are fixed. *)
Record Info := {
  title : option str;
  step_count : nat;
  has_meta : bool;
  has_context : bool;
  has_finalization : bool
}.
Record t := {
  valid : bool;
  errors : list str;
  warnings : list str;
  info : Info
}.
End ValidationResult.

(** A [dict] with string keys, in insertion order; assigning to a key that
    is present replaces its value in place. *)
Definition dict := list (str * str).

Fixpoint dict_set (k v : str) (d : dict) : dict :=
  match d with
  | [] => [(k, v)]
  | (k', v') :: t =>
      if str_eqb k k' then (k, v) :: t else (k', v') :: dict_set k v t
  end.

Definition nonempty_dict (d : dict) : bool :=
  match d with [] => false | _ => true end.

Definition ord (a : ascii) : N := N_of_ascii a.
Definition BACKTICK : N := 96%N.
Definition DQUOTE : N := 34%N.

(** ** The validator *)

Module WorkflowValidator.
Import Re.

Definition VALID_FLEXIBILITY_LEVELS : list str :=
  [py "strict"; py "guided"; py "autonomous"].

(** The attributes of the instance. *)
Record self := {
  content : str;
  lines : list str;
  errors : list str;
  warnings : list str;
  title : option str;
  meta : dict;
  context : option str;
  steps : list Step.t;
  finalization : option str
}.

(** [__init__] *)
Definition new (content : str) : self := {|
  content := content;
  lines := split_on NL content;
  errors := [];
  warnings := [];
  title := None;
  meta := [];
  context := None;
  steps := [];
  finalization := None
|}.

(** [self.errors.append(msg)], [self.warnings.append(msg)] *)
Definition add_error (v : self) (msg : str) : self := {|
  content := content v; lines := lines v;
  errors := errors v ++ [msg]; warnings := warnings v;
  title := title v; meta := meta v; context := context v;
  steps := steps v; finalization := finalization v |}.

Definition add_warning (v : self) (msg : str) : self := {|
  content := content v; lines := lines v;
  errors := errors v; warnings := warnings v ++ [msg];
  title := title v; meta := meta v; context := context v;
  steps := steps v; finalization := finalization v |}.

(** [m.group(n)] where the program goes on to use the group as a string:
    a group that took no part is [None], and the use raises. *)
Definition group_str (m : match_object) (n : nat) : M str :=
  match group m n with Some s => ret s | None => raise AttributeError end.

Definition nl : regex := Chr (chr NL).
Definition ws0 : regex := Rep false 0 isspace.   (* \s* *)
Definition ws1 : regex := Rep false 1 isspace.   (* \s+ *)

(** *** Patterns of [_parse_document] *)

(** [^#\s+(?:Workflow:\s* )?(.+)$] with re.MULTILINE (the blank after the
    star is not in the source; it keeps this comment open) *)
Definition title_pattern : regex :=
  cat [Bol; lit false "#"; ws1; Opt (Seq (lit false "Workflow:") ws0);
       Grp 1 (Rep false 1 (dot false)); Eol true].

(** [##\s+Meta\s*\n(.*?)(?=\n##|\n---|\Z)] with re.DOTALL | re.IGNORECASE *)
Definition meta_pattern : regex :=
  cat [lit true "##"; ws1; lit true "Meta"; ws0; nl;
       Grp 1 (Rep true 0 (dot true));
       Ahead (Alt (Seq nl (lit true "##")) (Alt (Seq nl (lit true "---")) EndZ))].

(** [##\s+Context\s*\n(.*?)(?=\n##|\n---|\Z)] with re.DOTALL | re.IGNORECASE *)
Definition context_pattern : regex :=
  cat [lit true "##"; ws1; lit true "Context"; ws0; nl;
       Grp 1 (Rep true 0 (dot true));
       Ahead (Alt (Seq nl (lit true "##")) (Alt (Seq nl (lit true "---")) EndZ))].

Section Methods.
Context {I : Interpreter}.

(** [##\s+Step\s+(\d+)[:\s]+(.+?)\n(.*?)(?=\n##\s+Step|\n##\s+Finalization|\Z)]
    with re.DOTALL | re.IGNORECASE *)
Definition step_pattern : regex :=
  cat [lit true "##"; ws1; lit true "Step"; ws1;
       Grp 1 (Rep false 1 isdecimal);
       Rep false 1 (either (chr (ord ":")) isspace);
       Grp 2 (Rep true 1 (dot true)); nl;
       Grp 3 (Rep true 0 (dot true));
       Ahead (Alt (cat [nl; lit true "##"; ws1; lit true "Step"])
             (Alt (cat [nl; lit true "##"; ws1; lit true "Finalization"])
                  EndZ))].

(** [##\s+Finalization\s*\n(.* )$] with re.DOTALL | re.IGNORECASE (again
    without the blank after the star) *)
Definition finalization_pattern : regex :=
  cat [lit true "##"; ws1; lit true "Finalization"; ws0; nl;
       Grp 1 (Rep false 0 (dot true)); Eol false].

(** *** Patterns of [_parse_step] *)

(** [###\s+<heading>\s*\n(.*?)(?=\n###|\Z)] with re.DOTALL | re.IGNORECASE,
    where [heading] is the pattern of the heading's words. *)
Definition subsection (heading : regex) : regex :=
  cat [lit true "###"; ws1; heading; ws0; nl;
       Grp 1 (Rep true 0 (dot true));
       Ahead (Alt (Seq nl (lit true "###")) EndZ)].

Definition task_pattern : regex := subsection (lit true "Task").
Definition deps_pattern : regex := subsection (lit true "Dependencies").
Definition criteria_pattern : regex :=
  subsection (cat [lit true "Success"; ws1; lit true "criteria"]).
Definition const_pattern : regex := subsection (lit true "Constraints").
Definition error_pattern : regex :=
  subsection (cat [lit true "If"; ws1; lit true "something"; ws1;
                   lit true "goes"; ws1; lit true "wrong"]).

(** [```(?:bash|sh)?\n(.*?)```] with re.DOTALL *)
Definition code_block_pattern : regex :=
  cat [lit false "```"; Opt (Alt (lit false "bash") (lit false "sh")); nl;
       Grp 1 (Rep true 0 (dot true)); lit false "```"].

(** [###\s+Save\s+as\s*\n[`Q]?([^`Q\n]+)[`Q]?] with re.IGNORECASE, where Q
    stands for the double quote character *)
Definition save_pattern : regex :=
  cat [lit true "###"; ws1; lit true "Save"; ws1; lit true "as"; ws0; nl;
       Opt (Chr (oneof [BACKTICK; DQUOTE]));
       Grp 1 (Rep false 1 (noneof [BACKTICK; DQUOTE; NL]));
       Opt (Chr (oneof [BACKTICK; DQUOTE]))].

(** [###\s+Flexibility\s*(?:\[(\w+)\])?\s*\n(.*?)(?=\n###|\Z)]
    with re.DOTALL | re.IGNORECASE *)
Definition flex_pattern : regex :=
  cat [lit true "###"; ws1; lit true "Flexibility"; ws0;
       Opt (cat [lit true "["; Grp 1 (Rep false 1 isword); lit true "]"]);
       ws0; nl;
       Grp 2 (Rep true 0 (dot true));
       Ahead (Alt (Seq nl (lit true "###")) EndZ)].

(** [U+2192|->]: the arrow character or a hyphen and a greater-than sign *)
Definition arrow_pattern : regex := Alt (Chr (chr RARROW)) (lit false "->").

(** *** [_parse_meta] *)

Fixpoint meta_loop (lines : list str) (meta : dict) : M dict :=
  match lines with
  | [] => ret meta
  | line :: rest =>
      if contains (py ":") line then
        kv <- unpack2 (split_once (ord ":") line) ;;
        meta_loop rest (dict_set (lower (strip (fst kv))) (strip (snd kv)) meta)
      else meta_loop rest meta
  end.

Definition _parse_meta (content : str) : M dict :=
  meta_loop (split_on NL (strip content)) [].

(** *** [_parse_step] *)

(** Extract Task *)
Definition extract_task (content : str) : M (option str) :=
  match search task_pattern content with
  | Some m => g <- group_str m 1 ;; ret (Some (strip g))
  | None => ret None
  end.

(** The commands of the code blocks of a Dependencies subsection. *)
Definition commands (text : str) : list str :=
  flat_map (fun block =>
              map strip
                  (filter (fun cmd => nonempty (strip cmd))
                          (split_on NL (strip block))))
           (findall1 code_block_pattern text).

(** Extract Dependencies *)
Definition extract_dependencies (content : str) : M (list str) :=
  match search deps_pattern content with
  | Some m => g <- group_str m 1 ;; ret (commands g)
  | None => ret []
  end.

(** Extract Save as *)
Definition extract_save_as (content : str) : M (option str) :=
  match search save_pattern content with
  | Some m =>
      g <- group_str m 1 ;;
      ret (Some (strip_chars [BACKTICK; DQUOTE] (strip g)))
  | None => ret None
  end.

(** The comprehension shared by Success criteria and Constraints: the
    lines that start with a bullet, without their bullet. *)
Definition bullets (text : str) : list str :=
  map (fun line => lstrip_chars (py "* ") (lstrip_chars (py "- ") (strip line)))
      (filter (fun line =>
                 nonempty (strip line)
                 && (startswith (py "-") (strip line)
                     || startswith (py "*") (strip line)))
              (split_on NL text)).

(** Extract Success criteria *)
Definition extract_success_criteria (content : str) : M (list str) :=
  match search criteria_pattern content with
  | Some m => g <- group_str m 1 ;; ret (bullets g)
  | None => ret []
  end.

(** Extract Flexibility: the level and the text. *)
Definition extract_flexibility (content : str) : M (str * option str) :=
  match search flex_pattern content with
  | Some m =>
      let level := if truthy (group m 1)
                   then match group m 1 with
                        | Some g => lower g
                        | None => py "guided"
                        end
                   else py "guided" in
      g <- group_str m 2 ;;
      ret (level, Some (strip g))
  | None => ret (py "guided", None)
  end.

(** Extract Constraints *)
Definition extract_constraints (content : str) : M (list str) :=
  match search const_pattern content with
  | Some m => g <- group_str m 1 ;; ret (bullets g)
  | None => ret []
  end.

(** What one line of the error-handling subsection appends, if anything. *)
Definition error_entry (line : str) : option handler :=
  if contains [RARROW] line || contains (py "->") line then
    match split arrow_pattern (lstrip_chars (py "- ") (strip line)) with
    | [a; b] => Some {| condition := strip a; action := strip b |}
    | _ => None
    end
  else None.

Fixpoint error_loop (lines : list str) (acc : list handler) : list handler :=
  match lines with
  | [] => acc
  | line :: rest =>
      match error_entry line with
      | Some h => error_loop rest (acc ++ [h])
      | None => error_loop rest acc
      end
  end.

(** Extract Error handling *)
Definition extract_error_handling (content : str) : M (list handler) :=
  match search error_pattern content with
  | Some m => g <- group_str m 1 ;; ret (error_loop (split_on NL g) [])
  | None => ret []
  end.

Definition _parse_step (number : Z) (title content : str) : M Step.t :=
  task <- extract_task content ;;
  dependencies <- extract_dependencies content ;;
  save_as <- extract_save_as content ;;
  success_criteria <- extract_success_criteria content ;;
  flex <- extract_flexibility content ;;
  constraints <- extract_constraints content ;;
  error_handling <- extract_error_handling content ;;
  ret {| Step.number := number;
         Step.title := title;
         Step.task := task;
         Step.dependencies := dependencies;
         Step.save_as := save_as;
         Step.success_criteria := success_criteria;
         Step.flexibility := snd flex;
         Step.flexibility_level := fst flex;
         Step.constraints := constraints;
         Step.error_handling := error_handling |}.

(** *** [_parse_document] *)

(** Extract title (first H1) *)
Definition extract_title (content : str) : M (option str) :=
  match search title_pattern content with
  | Some m => g <- group_str m 1 ;; ret (Some (strip g))
  | None => ret None
  end.

(** Extract meta section *)
Definition extract_meta (content : str) : M (option dict) :=
  match search meta_pattern content with
  | Some m => g <- group_str m 1 ;; d <- _parse_meta g ;; ret (Some d)
  | None => ret None
  end.

(** Extract context section *)
Definition extract_context (content : str) : M (option str) :=
  match search context_pattern content with
  | Some m => g <- group_str m 1 ;; ret (Some (strip g))
  | None => ret None
  end.

(** The body of the loop over the step headings. *)
Definition step_of_match (m : match_object) : M Step.t :=
  number <- (g <- group_str m 1 ;; int g) ;;
  title <- group_str m 2 ;;
  body <- group_str m 3 ;;
  _parse_step number (strip title) body.

(** Extract steps *)
Definition extract_steps (content : str) : M (list Step.t) :=
  mapM step_of_match (finditer step_pattern content).

(** Extract finalization *)
Definition extract_finalization (content : str) : M (option str) :=
  match search finalization_pattern content with
  | Some m => g <- group_str m 1 ;; ret (Some (strip g))
  | None => ret None
  end.

(** An attribute is assigned only when its pattern matched; the steps are
    appended to the list. *)
Definition assigned {A} (new : option A) (old : A) : A :=
  match new with Some a => a | None => old end.

Definition _parse_document (v : self) : M self :=
  title <- extract_title (content v) ;;
  meta <- extract_meta (content v) ;;
  context <- extract_context (content v) ;;
  steps <- extract_steps (content v) ;;
  finalization <- extract_finalization (content v) ;;
  ret {| content := content v; lines := lines v;
         errors := errors v; warnings := warnings v;
         title := assigned (option_map Some title) (WorkflowValidator.title v);
         meta := assigned meta (WorkflowValidator.meta v);
         context := assigned (option_map Some context)
                             (WorkflowValidator.context v);
         steps := WorkflowValidator.steps v ++ steps;
         finalization := assigned (option_map Some finalization)
                                  (WorkflowValidator.finalization v) |}.

(** *** [_validate_structure] *)

Definition MISSING_TITLE : str := py "Missing workflow title (first H1 heading)".
Definition NO_STEPS : str := py "Workflow must contain at least one step".
Definition NO_META : str :=
  py "Consider adding a Meta section with version and author".
Definition NO_FINALIZATION : str := py "Consider adding a Finalization section".

Definition _validate_structure (v : self) : self :=
  let v := if negb (truthy (title v)) then add_error v MISSING_TITLE else v in
  let v := match steps v with [] => add_error v NO_STEPS | _ => v end in
  let v := match meta v with [] => add_warning v NO_META | _ => v end in
  let v := if negb (truthy (finalization v))
           then add_warning v NO_FINALIZATION else v in
  v.

(** *** [_validate_steps] *)

Definition prefix_of (step : Step.t) : str :=
  py "Step " ++ str_of_int (Step.number step).

Definition MISSING_TASK (prefix : str) : str :=
  prefix ++ py ": Missing required 'Task' section".
Definition BRIEF_TASK (prefix : str) : str :=
  prefix ++ py ": Task description seems too brief".
Definition INVALID_LEVEL (prefix level : str) : str :=
  prefix ++ py ": Invalid flexibility level '" ++ level ++ py "'. "
  ++ py "Must be one of: " ++ join (py ", ") VALID_FLEXIBILITY_LEVELS.
Definition NO_SAVE_AS (prefix : str) : str :=
  prefix ++ py ": Consider adding 'Save as' to create contract for next step".
Definition NO_CRITERIA (prefix : str) : str :=
  prefix ++ py ": Consider adding 'Success criteria' for verification".
Definition RELATIVE_PATH (prefix : str) : str :=
  prefix ++ py ": 'Save as' path should be absolute (start with /)".

Definition len_of (o : option str) : nat :=
  match o with Some s => length s | None => 0 end.

(** The body of the loop, for one step. *)
Definition check_step (v : self) (step : Step.t) : self :=
  let prefix := prefix_of step in
  let v := if negb (truthy (Step.task step))
           then add_error v (MISSING_TASK prefix)
           else if len_of (Step.task step) <? 10
                then add_warning v (BRIEF_TASK prefix)
                else v in
  let v := if negb (existsb (str_eqb (Step.flexibility_level step))
                            VALID_FLEXIBILITY_LEVELS)
           then add_error v (INVALID_LEVEL prefix (Step.flexibility_level step))
           else v in
  let v := if negb (truthy (Step.save_as step))
              && (Step.number step <? Z.of_nat (length (steps v)))%Z
           then add_warning v (NO_SAVE_AS prefix) else v in
  let v := match Step.success_criteria step with
           | [] => add_warning v (NO_CRITERIA prefix)
           | _ => v
           end in
  let v := if truthy (Step.save_as step)
           then match Step.save_as step with
                | Some p => if negb (startswith (py "/") p)
                            then add_warning v (RELATIVE_PATH prefix) else v
                | None => v
                end
           else v in
  v.

Definition _validate_steps (v : self) : self :=
  fold_left check_step (steps v) v.

(** *** [_validate_step_flow] *)

Definition DUPLICATES : str := py "Duplicate step numbers found".
Definition GAP : str := py "Gap in step numbering detected".
Definition NOT_SEQUENTIAL (found expected : list Z) : str :=
  py "Step numbers are not sequential. Found: " ++ str_of_list found
  ++ py ", " ++ py "Expected: " ++ str_of_list expected.

Definition list_eqb (a b : list Z) : bool :=
  if list_eq_dec Z.eq_dec a b then true else false.

(** The loop that looks for a gap; it stops at the first one. *)
Fixpoint gap_loop (numbers : list Z) (range : list nat) (v : self) : M self :=
  match range with
  | [] => ret v
  | i :: range' =>
      hi <- index (sorted numbers) (i + 1) ;;
      lo <- index (sorted numbers) i ;;
      if (hi - lo >? 1)%Z then ret (add_warning v GAP)
      else gap_loop numbers range' v
  end.

Definition _validate_step_flow (v : self) : M self :=
  match steps v with
  | [] => ret v
  | _ =>
      let numbers := map Step.number (steps v) in
      let v := if negb (length numbers =? length (set_of numbers))
               then add_error v DUPLICATES else v in
      let expected := range_from 1 (length (steps v)) in
      let v := if negb (list_eqb (sorted numbers) expected)
               then add_warning v (NOT_SEQUENTIAL (sorted numbers) expected)
               else v in
      gap_loop numbers (seq 0 (length numbers - 1)) v
  end.

(** *** [validate] *)

Definition validate (v : self) : M ValidationResult.t :=
  v <- _parse_document v ;;
  let v := _validate_structure v in
  let v := _validate_steps v in
  v <- _validate_step_flow v ;;
  ret {| ValidationResult.valid := length (errors v) =? 0;
         ValidationResult.errors := errors v;
         ValidationResult.warnings := warnings v;
         ValidationResult.info :=
           {| ValidationResult.title := title v;
              ValidationResult.step_count := length (steps v);
              ValidationResult.has_meta := nonempty_dict (meta v);
              ValidationResult.has_context := truthy (context v);
              ValidationResult.has_finalization := truthy (finalization v) |} |}.

End Methods.
End WorkflowValidator.

(** CPython as it ships: at most 4300 digits in [int]; of the Unicode
    database, Basic Latin only. *)
Definition cpython : Interpreter := {|
  int_max_str_digits := 4300;
  unicode_decimal := fun _ => None;
  unicode_alnum := fun _ => false;
  unicode_lower := fun s => s
|}.

(** * Notions for the statements *)

Import Re WorkflowValidator.

Definition str_dec : forall a b : str, {a = b} + {a <> b} :=
  list_eq_dec N.eq_dec.

(** A message that starts with the word Step. *)
Definition step_message (m : str) : Prop := exists x, m = py "Step " ++ x.

(** What a rule pass leaves alone: everything that parsing produced. *)
Definition same_document (v v' : self) : Prop :=
  content v' = content v /\ title v' = title v /\ meta v' = meta v
  /\ context v' = context v /\ steps v' = steps v
  /\ finalization v' = finalization v.

(** The messages a pass over [v] added to reach [v']. *)
Definition extends (v v' : self) (es ws : list str) : Prop :=
  same_document v v' /\ errors v' = errors v ++ es
  /\ warnings v' = warnings v ++ ws.

Definition structure_errors (v : self) : list str :=
  (if truthy (title v) then [] else [MISSING_TITLE])
  ++ (match steps v with [] => [NO_STEPS] | _ => [] end).

Definition structure_warnings (v : self) : list str :=
  (match meta v with [] => [NO_META] | _ => [] end)
  ++ (if truthy (finalization v) then [] else [NO_FINALIZATION]).

Definition step_errors (step : Step.t) : list str :=
  (if truthy (Step.task step) then [] else [MISSING_TASK (prefix_of step)])
  ++ (if existsb (str_eqb (Step.flexibility_level step)) VALID_FLEXIBILITY_LEVELS
      then []
      else [INVALID_LEVEL (prefix_of step) (Step.flexibility_level step)]).

Definition step_warnings (total : nat) (step : Step.t) : list str :=
  (if truthy (Step.task step) && (len_of (Step.task step) <? 10)
   then [BRIEF_TASK (prefix_of step)] else [])
  ++ (if negb (truthy (Step.save_as step))
         && (Step.number step <? Z.of_nat total)%Z
      then [NO_SAVE_AS (prefix_of step)] else [])
  ++ (match Step.success_criteria step with
      | [] => [NO_CRITERIA (prefix_of step)]
      | _ => []
      end)
  ++ (match Step.save_as step with
      | Some p => if nonempty p && negb (startswith (py "/") p)
                  then [RELATIVE_PATH (prefix_of step)] else []
      | None => []
      end).

(** Two neighbours of a list are more than 1 apart. *)
Fixpoint gap_found (l : list Z) : bool :=
  match l with
  | a :: (b :: _) as t => (b - a >? 1)%Z || gap_found t
  | _ => false
  end.

Definition flow_errors (numbers : list Z) : list str :=
  match numbers with
  | [] => []
  | _ => if length numbers =? length (set_of numbers) then [] else [DUPLICATES]
  end.

Definition flow_warnings (numbers : list Z) : list str :=
  match numbers with
  | [] => []
  | _ =>
      (if list_eqb (sorted numbers) (range_from 1 (length numbers)) then []
       else [NOT_SEQUENTIAL (sorted numbers) (range_from 1 (length numbers))])
      ++ (if gap_found (sorted numbers) then [GAP] else [])
  end.

Definition all_errors (v : self) : list str :=
  structure_errors v ++ flat_map step_errors (steps v)
  ++ flow_errors (map Step.number (steps v)).

Definition all_warnings (v : self) : list str :=
  structure_warnings v
  ++ flat_map (step_warnings (length (steps v))) (steps v)
  ++ flow_warnings (map Step.number (steps v)).

(** The result that [validate] builds from the parsed document. *)
Definition report (v : self) : ValidationResult.t :=
  {| ValidationResult.valid := length (errors v ++ all_errors v) =? 0;
     ValidationResult.errors := errors v ++ all_errors v;
     ValidationResult.warnings := warnings v ++ all_warnings v;
     ValidationResult.info :=
       {| ValidationResult.title := title v;
          ValidationResult.step_count := length (steps v);
          ValidationResult.has_meta := nonempty_dict (meta v);
          ValidationResult.has_context := truthy (context v);
          ValidationResult.has_finalization := truthy (finalization v) |} |}.

(** The warnings that the loop body of [_validate_steps] appends for one
    step, when it starts in state [v]. *)
Definition added_warnings (v : self) (step : Step.t) : list str :=
  skipn (length (warnings v)) (warnings (check_step v step)).

(** Group [n] is bound on every path through [r] that succeeds. *)
Fixpoint binds (r : regex) (n : nat) : bool :=
  match r with
  | Seq r1 r2 => binds r1 n || binds r2 n
  | Alt r1 r2 => binds r1 n && binds r2 n
  | Grp m r1 => Nat.eqb n m || binds r1 n
  | Ahead r1 => binds r1 n
  | _ => false
  end.

(** Group [n] occurs in [r]. *)
Fixpoint mentions (r : regex) (n : nat) : bool :=
  match r with
  | Seq r1 r2 | Alt r1 r2 => mentions r1 n || mentions r2 n
  | Opt r1 | Ahead r1 => mentions r1 n
  | Grp m r1 => Nat.eqb n m || mentions r1 n
  | _ => false
  end.

(** A word that a literal matches under re.IGNORECASE: the literal up to
    the case of its letters. *)
Definition same_letters (s : string) (w : str) : Prop :=
  Forall2 (fun a c => folds (ascii_lower a) c = true) (py s) w.

(** [r] cannot match when the next character is [c]. *)
Fixpoint rejects (r : regex) (c : N) : bool :=
  match r with
  | Chr f => negb (f c)
  | Seq r1 _ => rejects r1 c
  | Alt r1 r2 => rejects r1 c && rejects r2 c
  | Rep _ (S _) f => negb (f c)
  | Grp _ r1 => rejects r1 c
  | Ahead r1 => rejects r1 c
  | EndZ => true
  | _ => false
  end.

(** [r] consumes nothing. *)
Definition zero_width (r : regex) : bool :=
  match r with
  | Eps | Ahead _ | Bol | Eol _ | EndZ => true
  | _ => false
  end.

(** [r] cannot match when the next character is [c], also when [r] opens
    with an assertion. *)
Definition rejects_after (r : regex) (c : N) : bool :=
  match r with
  | Seq r1 r2 => rejects r1 c || zero_width r1 && rejects r2 c
  | _ => rejects r c
  end.

(** The cursor is at the start of a line. *)
Definition at_bol (b : str) : bool :=
  match b with [] => true | c :: _ => (c =? NL)%N end.

(** What follows is the end of the text or a line break. *)
Definition at_eol (rest : str) : bool :=
  match rest with [] => true | c :: _ => (c =? NL)%N end.

(** A text without an arrow token. *)
Definition arrow_free (s : str) : Prop :=
  contains [RARROW] s = false /\ contains (py "->") s = false.

(** One of the two arrow tokens. *)
Definition is_arrow (tok : str) : Prop := tok = [RARROW] \/ tok = py "->".

Definition backtick_free (s : str) : Prop :=
  forallb (fun c => negb (c =? BACKTICK)%N) s = true.

(** The fence tags that the pattern lists: none, bash, sh. *)
Definition listed_tag (tag : str) : Prop :=
  tag = [] \/ tag = py "bash" \/ tag = py "sh".

(** A fenced block as it stands in the text. *)
Definition fence (tag inner : str) : str :=
  py "```" ++ tag ++ NL :: inner ++ py "```".

(** The entries that the text inside one block contributes. *)
Definition entries (inner : str) : list str :=
  map strip (filter (fun cmd => nonempty (strip cmd))
                    (split_on NL (strip inner))).

(** Prose, then a block. *)
Record block := { prose : str; tag : str; inner : str }.

Definition well_fenced (blk : block) : Prop :=
  backtick_free (prose blk) /\ listed_tag (tag blk)
  /\ backtick_free (inner blk).

(** A subsection text: blocks, each after some prose, and prose at the
    end. *)
Fixpoint subsection_text (blocks : list block) (closing : str) : str :=
  match blocks with
  | [] => closing
  | blk :: blocks' =>
      prose blk ++ fence (tag blk) (inner blk)
      ++ subsection_text blocks' closing
  end.

(** A text without a number sign. *)
Definition no_hash (s : str) : Prop :=
  forallb (fun c => negb (c =? ord "#")%N) s = true.

(** The numbers are the numbers from 1 to their count, in some order. *)
Definition numbered_from_one (numbers : list Z) : Prop :=
  Permutation numbers (range_from 1 (length numbers)).

(** [d.get(k)] *)
Fixpoint dict_get (k : str) (d : dict) : option str :=
  match d with
  | [] => None
  | (k', v) :: t => if str_eqb k k' then Some v else dict_get k t
  end.

(** The key and the value that one line of the Meta body assigns, if it
    assigns any. *)
Definition meta_entry {I : Interpreter} (line : str) : option (str * str) :=
  if contains (py ":") line then
    match split_once (ord ":") line with
    | [key; value] => Some (lower (strip key), strip value)
    | _ => None
    end
  else None.

(** An optional text without white space at either end. *)
Definition trimmed (o : option str) : Prop :=
  forall t, o = Some t -> strip t = t.

(** The errors that the loop body of [_validate_steps] appends for one
    step, when it starts in state [v]. *)
Definition added_errors (v : self) (step : Step.t) : list str :=
  skipn (length (errors v)) (errors (check_step v step)).

(** Every number sign of the text is followed, in the text, by a character
    other than a number sign: the text holds no heading of the second level
    or deeper. *)
Fixpoint no_second_level (pre : str) : bool :=
  match pre with
  | [] => true
  | c :: t =>
      (negb (c =? ord "#")%N
       || match t with d :: _ => negb (d =? ord "#")%N | [] => false end)
      && no_second_level t
  end.

(** No line of the body after its first opens with one of the markers. *)
Fixpoint no_line_opens (markers : list str) (body : str) : bool :=
  match body with
  | [] => true
  | c :: t =>
      (negb (c =? NL)%N || forallb (fun p => negb (startswith p t)) markers)
      && no_line_opens markers t
  end.

(** What follows the body: nothing, or a line break and one of the
    markers. *)
Definition closed_by (markers : list str) (tail : str) : Prop :=
  tail = [] \/ exists p rest, In p markers /\ tail = NL :: p ++ rest.

(** What opens the line after a section: a heading or a rule. *)
Definition section_markers : list str := [py "##"; py "---"].

(** What opens the line after a subsection: a heading. *)
Definition subsection_markers : list str := [py "###"].

(** The headings of the subsections of a step, as the patterns of
    [_parse_step] spell them. *)
Definition headings : list string :=
  ["Task"; "Dependencies"; "Save as"; "Success criteria"; "Flexibility";
   "Constraints"; "If something goes wrong"]%string.

(** The heading of a subsection, as far as its words. *)
Definition heading_line (name : string) : str := py "### " ++ py name.

(** Subsections under other headings, each with the rest of its heading
    line and its text. *)
Definition other_subsections (name : string) (before : list (string * str))
  : Prop :=
  Forall (fun s => In (fst s) headings /\ fst s <> name /\ no_hash (snd s))
         before.

(** The text of a step: some prose, subsections, the heading of the
    subsection [name], blank lines, its body, and what follows. *)
Definition step_text (prose : str) (before : list (string * str))
           (name : string) (blank body tail : str) : str :=
  prose ++ flat_map (fun s => heading_line (fst s) ++ snd s) before
        ++ heading_line name ++ blank ++ NL :: body ++ tail.

(** The assertion that ends the body of a Meta or Context section. *)
Definition section_stop : regex :=
  Ahead (Alt (Seq nl (lit true "##")) (Alt (Seq nl (lit true "---")) EndZ)).

(** The assertion that ends the body of a subsection. *)
Definition subsection_stop : regex :=
  Ahead (Alt (Seq nl (lit true "###")) EndZ).

(** The pattern [heading] reads the words [name], and the words of no
    other heading. *)
Definition reads (heading : regex) (name : string) : Prop :=
  (forall b rest cs k,
     run heading b (py name ++ rest) cs k = k (rev (py name) ++ b) rest cs)
  /\ (forall other, In other headings -> other <> name ->
      forall b t cs k, run heading b (py other ++ t) cs k = None).

(** Two number signs, white space and a character of [initial] open the
    text: a heading of the second level whose first word starts so. *)
Definition opens_section (initial : N -> bool) (w : str) : bool :=
  startswith (py "##") w
  && match skipn 2 w with
     | c :: t => isspace c
                 && match dropwhile isspace t with
                    | d :: _ => initial d
                    | [] => false
                    end
     | [] => false
     end.

(** Nowhere in the text does such a heading open. *)
Fixpoint no_section_of (initial : N -> bool) (s : str) : bool :=
  match s with
  | [] => true
  | _ :: t => negb (opens_section initial s) && no_section_of initial t
  end.

(** No line of the text after its first opens with such a heading. *)
Fixpoint no_section_line (initial : N -> bool) (s : str) : bool :=
  match s with
  | [] => true
  | c :: t => (negb (c =? NL)%N || negb (opens_section initial t))
              && no_section_line initial t
  end.

(** The letter s, and the letters s and f, in either case: the initials of
    Step and of Finalization. *)
Definition step_initial : N -> bool := folds 115.
Definition step_or_final : N -> bool := either (folds 115) (folds 102).

(** The same for a text that is followed by another. *)
Definition not_opened (initial : N -> bool) (z : str) : Prop :=
  startswith (py "##") z = false
  \/ match skipn 2 z with
     | [] => True
     | c :: t =>
         isspace c = false
         \/ match dropwhile isspace t with
            | d :: _ => initial d = false
            | [] => True
            end
     end.

(** A step as it stands in the text: the digits of its number, the text
    of its heading after the colon, and what follows the heading line. *)
Record step_section := { numeral : str; caption : str; step_body : str }.

Definition step_heading (s : step_section) : str :=
  py "## Step " ++ numeral s ++ py ": " ++ caption s.

(** Steps one after the other, each on a new line, and a closing text. *)
Fixpoint sections_text (sections : list step_section) (closing : str) : str :=
  match sections with
  | [] => closing
  | s :: rest =>
      NL :: step_heading s ++ NL :: step_body s ++ sections_text rest closing
  end.

Definition ascii_digit (c : N) : bool := ((48 <=? c) && (c <=? 57))%N.

(** The number is written in ASCII digits; the heading text is not empty,
    stays on its line and does not start with a colon or white space; no
    line of the body opens a Step or Finalization heading. *)
Definition well_formed_section (s : step_section) : Prop :=
  numeral s <> [] /\ forallb ascii_digit (numeral s) = true
  /\ match caption s with
     | c :: _ => negb (c =? ord ":")%N && negb (isspace c)
     | [] => false
     end = true
  /\ forallb notnl (caption s) = true
  /\ no_section_line step_or_final (step_body s) = true.

(** What opens the line after a step: the heading of the next step or of
    the Finalization section. *)
Definition step_markers : list str := [py "## Step"; py "## Finalization"].

(** The step that [_parse_document] builds from one section. *)
Definition section_step {I : Interpreter} (s : step_section) : M Step.t :=
  n <- int (numeral s) ;;
  _parse_step n (strip (caption s)) (step_body s).

(** The assertion that ends the body of a step. *)
Definition step_stop : regex :=
  Ahead (Alt (cat [nl; lit true "##"; ws1; lit true "Step"])
             (Alt (cat [nl; lit true "##"; ws1; lit true "Finalization"])
                  EndZ)).

(** A pattern for a heading of the third level: three number signs, white
    space, the words of the heading, and what the pattern asks after
    them. *)
Definition third_level (heading tail : regex) : regex :=
  cat [lit true "###"; ws1; heading; tail].

(** What a subsection pattern asks after the words of its heading. *)
Definition subsection_tail : regex :=
  cat [ws0; nl; cat [Grp 1 (Rep true 0 (dot true)); subsection_stop]].

(** The words of the Save-as heading, and what its pattern asks after
    them. *)
Definition save_heading : regex := cat [lit true "Save"; ws1; lit true "as"].

Definition save_tail : regex :=
  cat [ws0; nl; Opt (Chr (oneof [BACKTICK; DQUOTE]));
       Grp 1 (Rep false 1 (noneof [BACKTICK; DQUOTE; NL]));
       Opt (Chr (oneof [BACKTICK; DQUOTE]))].

(** What the Flexibility pattern asks after the word of its heading. *)
Definition flex_tail {I : Interpreter} : regex :=
  cat [ws0;
       Opt (cat [lit true "["; Grp 1 (Rep false 1 isword); lit true "]"]);
       ws0; nl;
       cat [Grp 2 (Rep true 0 (dot true)); subsection_stop]].

(** Nothing, a backtick or a double quote. *)
Definition quotation_mark (opening : str) : Prop :=
  opening = [] \/ opening = [BACKTICK] \/ opening = [DQUOTE].

(** A message about the step [step]: its prefix, a colon, and a text. *)
Definition step_says (step : Step.t) (m : str) : Prop :=
  exists rest, m = prefix_of step ++ ord ":" :: rest.

(** A character of a printed integer: a digit or the minus sign. *)
Definition numeral_char (c : N) : bool :=
  ((c =? 45) || (48 <=? c) && (c <=? 57))%N.

(** A line that, trimmed, starts with a hyphen or a star. *)
Definition bullet_line (line : str) : bool :=
  startswith (py "-") (strip line) || startswith (py "*") (strip line).

(** *** The fences of a Dependencies text, read by position

    The definitions that follow do not come from the source.  They say in
    words of their own what a stretch of retained text is, for comparison
    with what the pattern of the source finds. *)

(** The text after a line break that opens [r]. *)
Definition body_after (r : str) : option str :=
  match r with
  | c :: t => if (c =? NL)%N then Some t else None
  | [] => None
  end.

(** An opening fence: three backticks, then nothing, bash or sh, then a
    line break.  The result is the text after the line break. *)
Definition open_fence (s : str) : option str :=
  if startswith (py "```") s then
    if startswith (py "bash") (skipn 3 s) then body_after (skipn 7 s)
    else if startswith (py "sh") (skipn 3 s) then body_after (skipn 5 s)
    else body_after (skipn 3 s)
  else None.

(** The text up to the next three backticks, and the text after them. *)
Fixpoint find_fence (body : str) : option (str * str) :=
  match body with
  | [] => None
  | c :: t =>
      if startswith (py "```") body then Some ([], skipn 3 body)
      else match find_fence t with
           | Some (inner, after) => Some (c :: inner, after)
           | None => None
           end
  end.

(** The stretch that opens at the start of [s], and the text after its
    closing fence. *)
Definition stretch_at (s : str) : option (str * str) :=
  match open_fence s with
  | Some body => find_fence body
  | None => None
  end.

(** The stretches of a text, from left to right: after a stretch the
    reading goes on behind its closing fence.  The fuel bounds the number
    of characters read. *)
Fixpoint stretches_fuel (fuel : nat) (s : str) : list str :=
  match fuel with
  | O => []
  | S fuel' =>
      match s with
      | [] => []
      | _ :: t =>
          match stretch_at s with
          | Some (inner, after) => inner :: stretches_fuel fuel' after
          | None => stretches_fuel fuel' t
          end
      end
  end.

Definition fenced_stretches (s : str) : list str :=
  stretches_fuel (length s) s.

(** The number that a run of digits declares. *)
Definition value_of {I : Interpreter} (digits : str) : Z :=
  match digits_value 0%Z digits with inr z => z | inl _ => 0%Z end.

(** The numbers that the headings of the sections declare. *)
Definition declared {I : Interpreter} (sections : list step_section)
  : list Z :=
  map (fun s => value_of (numeral s)) sections.

(** * Documents *)

Definition deploy_doc : str := py "# Deploy Service

## Meta
version: 1.0

## Step 1: Build the image
### Task
Build the container image
### Save as
`/tmp/out.json`
### Success criteria
- image exists

## Finalization
Report the result
".

(** Two headings numbered 1. *)
Definition twice_one_doc : str := py "# Twice
## Meta
version: 1.0
## Step 1: Fetch the sources
### Task
Fetch the sources from the mirror
### Save as
/tmp/src.tar
### Success criteria
- archive exists
## Step 1: Unpack the sources
### Task
Unpack the archive into the tree
### Save as
/tmp/src
### Success criteria
- tree exists
## Finalization
Done
".

(** Steps numbered 1 and 3. *)
Definition one_three_doc : str := py "# Gap
## Meta
version: 1.0
## Step 1: Fetch the sources
### Task
Fetch the sources from the mirror
### Save as
/tmp/src.tar
### Success criteria
- archive exists
## Step 3: Unpack the sources
### Task
Unpack the archive into the tree
### Save as
/tmp/src
### Success criteria
- tree exists
## Finalization
Done
".


(** A step heading whose number has 4301 digits. *)
Definition long_number_doc : str :=
  py "## Step " ++ repeat (ord "1") 4301 ++ py ": Count" ++ NL :: py "body".

(** A section after the Finalization section. *)
Definition appendix_doc : str := py "notes
## Finalization
Done
## Appendix
extra".

(** A Dependencies subsection with a block tagged python. *)
Definition python_block_step : str := py "### Task
Install the package
### Dependencies
```python
pip install x
```
".

(** A Dependencies text with a block tagged python, then prose, then a
    block without a tag. *)
Definition shifted_fences : str := py "```python
A
```
B
```
C
```".

(** The same text in a step. *)
Definition shifted_fences_step : str := py "### Task
Install the package
### Dependencies
```python
A
```
B
```
C
```
".

(** Two blocks with prose before, between and after them. *)
Definition two_blocks : list block :=
  [ {| prose := py "Install first:" ++ [NL]; tag := py "bash";
       inner := py "pip install x" ++ NL :: NL :: py "  npm ci" ++ [NL] |};
    {| prose := NL :: py "then" ++ [NL]; tag := [];
       inner := py "make" ++ [NL] |} ].

(** A step whose Dependencies subsection holds the two blocks. *)
Definition two_blocks_step : str :=
  py "### Task
Install the tools
### Dependencies
" ++ subsection_text two_blocks (NL :: py "and wait.") ++ py "
### Save as
/tmp/out.txt
".

(** An error-handling line without an action. *)
Definition no_action_step : str := py "### Task
Call the service
### If something goes wrong
- timeout ->
".

(** A Meta body that assigns the key version twice, in different letter
    cases. *)
Definition versions_meta : str := py "Version: 1.0
author: me
VERSION : 2.0:beta
note".

(** A block with a blank line and an indented command. *)
Definition one_block_text : str := py "```bash
pip install x

  npm ci
```".

(** A Save-as path between backticks. *)
Definition quoted_path_step : str := py "### Save as
`/tmp/out.json`
".

(** A flexibility tag in capitals. *)
Definition strict_step : str := py "### Flexibility [STRICT]
No changes
".



(** The state and the result of a run, for the documents above. *)
Definition parsed (content : str) : self :=
  match _parse_document (I := cpython) (new content) with
  | inr v => v
  | inl _ => new content
  end.

Definition outcome (content : str) : ValidationResult.t :=
  match validate (I := cpython) (new content) with
  | inr r => r
  | inl _ => report (new content)
  end.

(** * Properties *)

(** ** The rule engine appends *)

Section Rules.
Context {I : Interpreter}.

Lemma same_document_refl v : same_document v v.
Proof. repeat split. Qed.

Lemma same_document_trans a b c :
  same_document a b -> same_document b c -> same_document a c.
Proof.
  unfold same_document. intros (?&?&?&?&?&?) (?&?&?&?&?&?).
  repeat split; congruence.
Qed.

Lemma extends_refl v : extends v v [] [].
Proof.
  split; [apply same_document_refl|]. now rewrite !app_nil_r.
Qed.

Lemma extends_trans a b c es ws es' ws' :
  extends a b es ws -> extends b c es' ws' ->
  extends a c (es ++ es') (ws ++ ws').
Proof.
  intros (D1 & E1 & W1) (D2 & E2 & W2). split; [|split].
  - eapply same_document_trans; eauto.
  - now rewrite E2, E1, app_assoc.
  - now rewrite W2, W1, app_assoc.
Qed.

Lemma extends_add_error v m : extends v (add_error v m) [m] [].
Proof.
  split; [repeat split|]. simpl. now rewrite app_nil_r.
Qed.

Lemma extends_add_warning v m : extends v (add_warning v m) [] [m].
Proof.
  split; [repeat split|]. simpl. now rewrite app_nil_r.
Qed.

Ltac simp_self :=
  cbn [errors warnings content title meta context steps finalization lines
       add_error add_warning truthy negb andb orb app].

(** *** [_validate_structure] *)

Lemma structure_extends v :
  extends v (_validate_structure v) (structure_errors v) (structure_warnings v).
Proof.
  unfold _validate_structure, structure_errors, structure_warnings, extends,
    same_document.
  destruct (truthy (title v)); cbn;
    destruct (steps v) eqn:S; cbn;
    destruct (meta v) eqn:Me; cbn;
    destruct (truthy (finalization v)); cbn;
    rewrite <- ?app_assoc, ?app_nil_r; repeat split; assumption.
Qed.

(** *** [_validate_steps] *)

Lemma check_step_extends v step :
  extends v (check_step v step)
          (step_errors step) (step_warnings (length (steps v)) step).
Proof.
  unfold check_step, step_errors, step_warnings, extends, same_document.
  destruct (truthy (Step.task step)); simp_self;
    [destruct (len_of (Step.task step) <? 10); simp_self|];
    (destruct (existsb (str_eqb (Step.flexibility_level step))
                       VALID_FLEXIBILITY_LEVELS); simp_self);
    (destruct (Step.save_as step) as [p|]; simp_self;
     [destruct (nonempty p); simp_self;
      [destruct (startswith (py "/") p); simp_self|]|]);
    (destruct (Step.number step <? Z.of_nat (length (steps v)))%Z; simp_self);
    (destruct (Step.success_criteria step); simp_self);
    rewrite <- ?app_assoc; simp_self; rewrite ?app_nil_r; repeat split.
Qed.

Lemma fold_check_step_extends l : forall v,
  extends v (fold_left check_step l v)
          (flat_map step_errors l)
          (flat_map (step_warnings (length (steps v))) l).
Proof.
  induction l as [|s l IH]; intros v; simpl.
  - apply extends_refl.
  - pose proof (check_step_extends v s) as H.
    specialize (IH (check_step v s)).
    assert (E : steps (check_step v s) = steps v) by apply H.
    rewrite E in IH. eapply extends_trans; eauto.
Qed.

Lemma steps_extends v :
  extends v (_validate_steps v)
          (flat_map step_errors (steps v))
          (flat_map (step_warnings (length (steps v))) (steps v)).
Proof. apply fold_check_step_extends. Qed.

(** *** [_validate_step_flow] *)

Lemma length_insert_sorted x l :
  length (insert_sorted x l) = S (length l).
Proof.
  induction l as [|y t IH]; simpl; [reflexivity|].
  destruct (x <? y)%Z; simpl; [reflexivity|]. now rewrite IH.
Qed.

Lemma length_sorted l : length (sorted l) = length l.
Proof.
  induction l as [|x t IH]; simpl; [reflexivity|].
  now rewrite length_insert_sorted, IH.
Qed.

Lemma gap_loop_spec numbers : forall l pre v,
  sorted numbers = pre ++ l ->
  gap_loop numbers (seq (length pre) (length l - 1)) v
  = inr (if gap_found l then add_warning v GAP else v).
Proof.
  induction l as [|a l IH]; intros pre v E; [reflexivity|].
  destruct l as [|b t]; [reflexivity|].
  replace (length (a :: b :: t) - 1) with (S (length t)) by (simpl; lia).
  cbn [seq gap_loop]. unfold index.
  rewrite E.
  rewrite (nth_error_app2 pre) by lia.
  replace (length pre + 1 - length pre) with 1 by lia.
  rewrite (nth_error_app2 pre) by lia.
  rewrite Nat.sub_diag. cbn [nth_error bind ret].
  change (gap_found (a :: b :: t))
    with ((b - a >? 1)%Z || gap_found (b :: t)).
  destruct (b - a >? 1)%Z; [reflexivity|]. cbn [orb].
  specialize (IH (pre ++ [a]) v).
  rewrite length_app in IH. cbn [length] in IH.
  replace (length pre + 1) with (S (length pre)) in IH by lia.
  replace (S (length t) - 1) with (length t) in IH by lia.
  apply IH. now rewrite <- app_assoc.
Qed.

Lemma flow_extends v :
  exists v', _validate_step_flow v = inr v'
    /\ extends v v' (flow_errors (map Step.number (steps v)))
                    (flow_warnings (map Step.number (steps v))).
Proof.
  unfold _validate_step_flow.
  destruct (steps v) as [|s0 l] eqn:S.
  - exists v. split; [reflexivity|]. apply extends_refl.
  - set (numbers := map Step.number (s0 :: l)).
    rewrite <- (length_sorted numbers).
    change 0 with (length (@nil Z)).
    rewrite (gap_loop_spec numbers (sorted numbers) []) by reflexivity.
    rewrite (length_sorted numbers).
    eexists. split; [reflexivity|].
    unfold flow_errors, flow_warnings. fold numbers.
    assert (L : length (s0 :: l) = length numbers)
      by (unfold numbers; now rewrite length_map).
    destruct numbers as [|n0 ns] eqn:N; [discriminate|]. rewrite <- N in *.
    unfold extends, same_document.
    destruct (length numbers =? length (set_of numbers)); simp_self;
      rewrite ?S, ?L;
      (destruct (list_eqb (sorted numbers) (range_from 1 (length numbers)));
       simp_self);
      (destruct (gap_found (sorted numbers)); simp_self);
      rewrite <- ?app_assoc; simp_self; rewrite ?app_nil_r; repeat split;
      assumption.
Qed.

(** *** The three passes together *)

Lemma rules_extend v :
  exists v',
    _validate_step_flow (_validate_steps (_validate_structure v)) = inr v'
    /\ extends v v' (all_errors v) (all_warnings v).
Proof.
  pose proof (structure_extends v) as H1.
  pose proof (steps_extends (_validate_structure v)) as H2.
  destruct (flow_extends (_validate_steps (_validate_structure v)))
    as (v' & E & H3).
  exists v'. split; [exact E|].
  assert (S1 : steps (_validate_structure v) = steps v) by apply H1.
  assert (S2 : steps (_validate_steps (_validate_structure v)) = steps v).
  { etransitivity; [apply H2|exact S1]. }
  rewrite S1 in H2. rewrite S2 in H3.
  unfold all_errors, all_warnings.
  eapply extends_trans; [exact H1|].
  eapply extends_trans; eauto.
Qed.

Lemma validate_parsed v0 v :
  _parse_document v0 = inr v -> validate v0 = inr (report v).
Proof.
  intros P. unfold validate. rewrite P. cbn [bind].
  destruct (rules_extend v) as (v' & E & (D & He & Hw)).
  rewrite E. cbn [bind ret]. unfold report.
  destruct D as (_ & Dt & Dm & Dc & Ds & Df).
  now rewrite He, Hw, Dt, Dm, Dc, Ds, Df.
Qed.

Lemma validate_inv v0 r :
  validate v0 = inr r ->
  exists v, _parse_document v0 = inr v /\ r = report v.
Proof.
  intros H. destruct (_parse_document v0) as [e|v] eqn:P.
  - unfold validate in H. rewrite P in H. discriminate.
  - exists v. split; [reflexivity|].
    rewrite (validate_parsed _ _ P) in H. congruence.
Qed.

End Rules.

(** ** Telling the messages apart *)

Lemma step_message_neq m x :
  step_message m -> hd_error x <> Some 83%N -> m <> x.
Proof. intros [y ->] H E. subst x. apply H. reflexivity. Qed.

Ltac differ := intros E; apply app_inv_head in E; vm_compute in E; discriminate E.

Lemma NO_SAVE_AS_BRIEF_TASK p : BRIEF_TASK p <> NO_SAVE_AS p.
Proof. unfold BRIEF_TASK, NO_SAVE_AS. differ. Qed.

Lemma NO_SAVE_AS_NO_CRITERIA p : NO_CRITERIA p <> NO_SAVE_AS p.
Proof. unfold NO_CRITERIA, NO_SAVE_AS. differ. Qed.

Lemma NO_SAVE_AS_RELATIVE_PATH p : RELATIVE_PATH p <> NO_SAVE_AS p.
Proof. unfold RELATIVE_PATH, NO_SAVE_AS. differ. Qed.

Lemma step_errors_are_step_messages step :
  Forall step_message (step_errors step).
Proof.
  unfold step_errors.
  destruct (truthy (Step.task step));
    destruct (existsb (str_eqb (Step.flexibility_level step))
                      VALID_FLEXIBILITY_LEVELS); cbn [app];
    repeat constructor;
    unfold MISSING_TASK, INVALID_LEVEL, prefix_of, step_message;
    rewrite <- app_assoc; eexists; reflexivity.
Qed.

Lemma step_warnings_are_step_messages total step :
  Forall step_message (step_warnings total step).
Proof.
  unfold step_warnings.
  repeat (apply Forall_app; split);
    repeat match goal with
           | |- Forall _ (if ?c then _ else _) => destruct c
           | |- Forall _ (match ?c with _ => _ end) => destruct c
           end;
    repeat constructor;
    unfold BRIEF_TASK, NO_SAVE_AS, NO_CRITERIA, RELATIVE_PATH, prefix_of,
      step_message;
    rewrite <- app_assoc; eexists; reflexivity.
Qed.

Lemma Forall_flat_map {A B} (P : B -> Prop) (f : A -> list B) l :
  (forall a, Forall P (f a)) -> Forall P (flat_map f l).
Proof.
  intros H. induction l as [|a l IH]; simpl; [constructor|].
  apply Forall_app. split; [apply H|exact IH].
Qed.

Lemma count_occ_none (l : list str) (x : str) :
  Forall (fun m => m <> x) l -> count_occ str_dec l x = 0.
Proof.
  intros H. apply count_occ_not_In. intros HI.
  rewrite Forall_forall in H. exact (H x HI eq_refl).
Qed.

Lemma count_occ_step_messages (l : list str) (x : str) :
  Forall step_message l -> hd_error x <> Some 83%N ->
  count_occ str_dec l x = 0.
Proof.
  intros H Hx. apply count_occ_none.
  eapply Forall_impl; [|exact H].
  intros m Hm. now apply step_message_neq.
Qed.

(** ** Parsing leaves the message lists alone *)

Section Parsing.
Context {I : Interpreter}.

Lemma bind_inr {A B} (m : M A) (k : A -> M B) b :
  bind m k = inr b -> exists a, m = inr a /\ k a = inr b.
Proof. destruct m as [e|a]; simpl; [discriminate|]. eauto. Qed.

Lemma parse_keeps v0 v :
  _parse_document v0 = inr v ->
  content v = content v0 /\ errors v = errors v0 /\ warnings v = warnings v0.
Proof.
  unfold _parse_document. intros H.
  repeat (apply bind_inr in H; destruct H as (? & _ & H)).
  injection H as <-. repeat split.
Qed.

(** On a fresh instance the attributes of the parsed state are what the
    five extractions returned. *)
Lemma parse_new_fields content v :
  _parse_document (new content) = inr v ->
  extract_title content = inr (title v)
  /\ (exists m, extract_meta content = inr m
                /\ meta v = match m with Some d => d | None => [] end)
  /\ extract_context content = inr (context v)
  /\ extract_steps content = inr (steps v)
  /\ extract_finalization content = inr (finalization v).
Proof.
  unfold _parse_document. cbn [WorkflowValidator.content new]. intros H.
  apply bind_inr in H. destruct H as (t & Ht & H).
  apply bind_inr in H. destruct H as (m & Hm & H).
  apply bind_inr in H. destruct H as (c & Hc & H).
  apply bind_inr in H. destruct H as (ss & Hs & H).
  apply bind_inr in H. destruct H as (f & Hf & H).
  injection H as <-. cbn.
  rewrite Ht, Hm, Hc, Hs, Hf.
  destruct t, c, f; repeat split; eauto.
Qed.

Lemma validate_new content r :
  validate (new content) = inr r ->
  exists v, _parse_document (new content) = inr v
    /\ ValidationResult.errors r = all_errors v
    /\ ValidationResult.warnings r = all_warnings v
    /\ ValidationResult.valid r = (length (all_errors v) =? 0)
    /\ ValidationResult.info r =
         {| ValidationResult.title := title v;
            ValidationResult.step_count := length (steps v);
            ValidationResult.has_meta := nonempty_dict (meta v);
            ValidationResult.has_context := truthy (context v);
            ValidationResult.has_finalization := truthy (finalization v) |}.
Proof.
  intros H. apply validate_inv in H. destruct H as (v & P & ->).
  exists v. split; [exact P|].
  apply parse_keeps in P. destruct P as (_ & E & W).
  unfold report. simpl. rewrite E, W. simpl. repeat split.
Qed.

End Parsing.

(** ** Claims about the rule engine *)

Section RuleClaims.
Context {I : Interpreter}.

Lemma added_warnings_eq v step :
  added_warnings v step = step_warnings (length (steps v)) step.
Proof.
  unfold added_warnings.
  destruct (check_step_extends v step) as (_ & _ & W). rewrite W.
  rewrite skipn_app, skipn_all, Nat.sub_diag. reflexivity.
Qed.

(** C7: the loop of [_validate_steps] appends, step by step, what its body
    adds for that step; and for every step the body adds the missing
    Save-as warning if and only if the step has no [save_as] and the
    number declared in its heading is strictly less than the number of
    steps of the document.  The position of the step plays no part. *)
Theorem missing_save_as_warning (v : self) :
  warnings (_validate_steps v)
  = warnings v ++ flat_map (added_warnings v) (steps v)
  /\ forall step : Step.t,
       In (NO_SAVE_AS (prefix_of step)) (added_warnings v step)
       <-> truthy (Step.save_as step) = false
           /\ (Step.number step < Z.of_nat (length (steps v)))%Z.
Proof.
  split.
  - destruct (steps_extends v) as (_ & _ & W). rewrite W. f_equal.
    apply flat_map_ext. intros s. symmetry. apply added_warnings_eq.
  - intros step. rewrite added_warnings_eq. unfold step_warnings.
    rewrite !in_app_iff.
    destruct (truthy (Step.save_as step)) eqn:T; cbn [negb andb].
    + split; [|intros [? _]; discriminate].
      intros [H|[H|[H|H]]].
      * destruct (_ && _); [|contradiction].
        destruct H as [H|[]]. now apply NO_SAVE_AS_BRIEF_TASK in H.
      * contradiction.
      * destruct (Step.success_criteria step); [|contradiction].
        destruct H as [H|[]]. now apply NO_SAVE_AS_NO_CRITERIA in H.
      * destruct (Step.save_as step) as [p|]; [|contradiction].
        destruct (_ && _); [|contradiction].
        destruct H as [H|[]]. now apply NO_SAVE_AS_RELATIVE_PATH in H.
    + destruct (Z.ltb_spec (Step.number step) (Z.of_nat (length (steps v))))
        as [L|L].
      * split; [intros _; split; [reflexivity|exact L]|].
        intros _. right. left. left. reflexivity.
      * split; [|intros [_ ?]; lia].
        intros [H|[H|[H|H]]].
        -- destruct (_ && _); [|contradiction].
           destruct H as [H|[]]. now apply NO_SAVE_AS_BRIEF_TASK in H.
        -- contradiction.
        -- destruct (Step.success_criteria step); [|contradiction].
           destruct H as [H|[]]. now apply NO_SAVE_AS_NO_CRITERIA in H.
        -- destruct (Step.save_as step) as [p|]; [|contradiction].
           destruct (_ && _); [|contradiction].
           destruct H as [H|[]]. now apply NO_SAVE_AS_RELATIVE_PATH in H.
Qed.

Lemma length_nodup_le (l : list Z) : length (nodup Z.eq_dec l) <= length l.
Proof.
  induction l as [|a l IH]; simpl; [lia|].
  destruct (in_dec Z.eq_dec a l); simpl; lia.
Qed.

Lemma length_set_of_iff (l : list Z) :
  length l = length (set_of l) <-> NoDup l.
Proof.
  unfold set_of. split.
  - induction l as [|a l IH]; simpl; [constructor|].
    pose proof (length_nodup_le l).
    destruct (in_dec Z.eq_dec a l); simpl; intros E; [lia|].
    constructor; [assumption|]. apply IH. lia.
  - intros H. now rewrite nodup_fixed_point.
Qed.

Lemma count_occ_structure_errors v x :
  x <> MISSING_TITLE -> x <> NO_STEPS ->
  count_occ str_dec (structure_errors v) x = 0.
Proof.
  intros H1 H2. apply count_occ_none. unfold structure_errors.
  apply Forall_app. split.
  - destruct (truthy (title v)); repeat constructor; congruence.
  - destruct (steps v); repeat constructor; congruence.
Qed.

Lemma count_occ_step_errors l x :
  hd_error x <> Some 83%N ->
  count_occ str_dec (flat_map step_errors l) x = 0.
Proof.
  intros H. apply count_occ_step_messages; [|exact H].
  apply Forall_flat_map. apply step_errors_are_step_messages.
Qed.

Lemma count_occ_flow_errors numbers :
  count_occ str_dec (flow_errors numbers) DUPLICATES
  = if length numbers =? length (set_of numbers) then 0 else 1.
Proof.
  unfold flow_errors. destruct numbers as [|n ns]; [reflexivity|].
  destruct (_ =? _); [reflexivity|].
  cbn [count_occ]. now destruct (str_dec DUPLICATES DUPLICATES).
Qed.

(** The errors of a validation run contain the duplicate-numbers message
    exactly once when some number occurs more than once among the parsed
    steps, and not at all when the numbers are pairwise distinct. *)
Lemma duplicates_counted (content : str) (r : ValidationResult.t) :
  validate (new content) = inr r ->
  exists v, _parse_document (new content) = inr v
    /\ (NoDup (map Step.number (steps v)) ->
        count_occ str_dec (ValidationResult.errors r) DUPLICATES = 0)
    /\ (~ NoDup (map Step.number (steps v)) ->
        count_occ str_dec (ValidationResult.errors r) DUPLICATES = 1).
Proof.
  intros H. apply validate_new in H. destruct H as (v & P & E & _).
  exists v. split; [exact P|].
  assert (C : count_occ str_dec (ValidationResult.errors r) DUPLICATES
              = if length (map Step.number (steps v))
                   =? length (set_of (map Step.number (steps v)))
                then 0 else 1).
  { rewrite E. unfold all_errors. rewrite !count_occ_app.
    rewrite count_occ_structure_errors by (vm_compute; discriminate).
    rewrite count_occ_step_errors by (vm_compute; discriminate).
    apply count_occ_flow_errors. }
  rewrite C. split; intros N.
  - apply length_set_of_iff in N. rewrite <- N. now rewrite Nat.eqb_refl.
  - destruct (Nat.eqb_spec (length (map Step.number (steps v)))
                (length (set_of (map Step.number (steps v))))) as [L|L];
      [|reflexivity].
    apply length_set_of_iff in L. contradiction.
Qed.

Lemma count_occ_one (x y : str) :
  count_occ str_dec [x] y = if str_dec x y then 1 else 0.
Proof. reflexivity. Qed.

Lemma count_occ_structure_warnings v x :
  x <> NO_META -> x <> NO_FINALIZATION ->
  count_occ str_dec (structure_warnings v) x = 0.
Proof.
  intros H1 H2. apply count_occ_none. unfold structure_warnings.
  apply Forall_app. split.
  - destruct (meta v); repeat constructor; congruence.
  - destruct (truthy (finalization v)); repeat constructor; congruence.
Qed.

Lemma count_occ_step_warnings total l x :
  hd_error x <> Some 83%N ->
  count_occ str_dec (flat_map (step_warnings total) l) x = 0.
Proof.
  intros H. apply count_occ_step_messages; [|exact H].
  apply Forall_flat_map. apply step_warnings_are_step_messages.
Qed.

Lemma NOT_SEQUENTIAL_step_message found expected :
  step_message (NOT_SEQUENTIAL found expected).
Proof. unfold NOT_SEQUENTIAL, step_message. eexists. reflexivity. Qed.

Lemma count_occ_flow_warnings numbers :
  count_occ str_dec (flow_warnings numbers) GAP <= 1.
Proof.
  unfold flow_warnings. destruct numbers as [|n ns]; [simpl; lia|].
  rewrite count_occ_app.
  destruct (list_eqb _ _); destruct (gap_found _); cbn [count_occ];
    repeat match goal with
           | |- context [str_dec ?a ?b] => destruct (str_dec a b)
           end; try lia.
  all: exfalso;
    match goal with
    | E : NOT_SEQUENTIAL _ _ = GAP |- _ =>
        refine (step_message_neq _ _ (NOT_SEQUENTIAL_step_message _ _) _ E)
    end; vm_compute; discriminate.
Qed.

Lemma sorted_pair (l : list Z) (a b : Z) :
  sorted l = [a; b] -> l = [a; b] \/ l = [b; a].
Proof.
  intros H. pose proof (length_sorted l) as L. rewrite H in L.
  destruct l as [|x [|y [|z t]]]; try discriminate L.
  simpl in H. destruct (x <? y)%Z; injection H as -> ->; auto.
Qed.

(** Over a whole validation run the gap warning occurs at most once; and
    when the numbers of the parsed steps are 1 and 3, the flow pass adds
    no error and adds exactly the not-sequential warning followed by the
    gap warning to what the earlier passes reported. *)
Lemma flow_of_one_and_three (content : str) (v : self) (r : ValidationResult.t) :
  _parse_document (new content) = inr v ->
  validate (new content) = inr r ->
  count_occ str_dec (ValidationResult.warnings r) GAP <= 1
  /\ (sorted (map Step.number (steps v)) = [1; 3]%Z ->
      ValidationResult.errors r
      = errors (_validate_steps (_validate_structure v))
      /\ ValidationResult.warnings r
         = warnings (_validate_steps (_validate_structure v))
           ++ [NOT_SEQUENTIAL [1; 3]%Z [1; 2]%Z; GAP]).
Proof.
  intros P H. apply validate_new in H. destruct H as (v' & P' & E & W & _).
  rewrite P in P'. injection P' as <-.
  split.
  - rewrite W. unfold all_warnings. rewrite !count_occ_app.
    rewrite count_occ_structure_warnings by (vm_compute; discriminate).
    rewrite count_occ_step_warnings by (vm_compute; discriminate).
    apply count_occ_flow_warnings.
  - intros N.
    destruct (structure_extends v) as ((_ & _ & _ & _ & S1 & _) & E1 & W1).
    destruct (steps_extends (_validate_structure v)) as (_ & E2 & W2).
    rewrite S1 in E2, W2. rewrite E2, W2, E1, W1.
    apply parse_keeps in P. destruct P as (_ & E0 & W0).
    rewrite E, W, E0, W0. unfold all_errors, all_warnings. simpl.
    rewrite <- !app_assoc.
    apply sorted_pair in N. destruct N as [N|N]; rewrite N.
    + split; [now rewrite app_nil_r|]. reflexivity.
    + split; [now rewrite app_nil_r|]. reflexivity.
Qed.

(** *** The Meta section *)

Lemma contains_one (c : N) (s : str) : contains [c] s = true <-> In c s.
Proof.
  induction s as [|x t IH]; simpl.
  - split; [discriminate|contradiction].
  - rewrite orb_true_iff, andb_true_r, N.eqb_eq, IH.
    split; intros [?|?]; auto.
Qed.

Lemma In_dropwhile f (c : N) (s : str) : In c (dropwhile f s) -> In c s.
Proof.
  induction s as [|x t IH]; simpl; [auto|].
  destruct (f x); simpl; auto.
Qed.

Lemma In_strip (c : N) (s : str) : In c (strip s) -> In c s.
Proof.
  unfold strip, rstrip, lstrip. intros H.
  apply in_rev, In_dropwhile, in_rev, In_dropwhile in H. exact H.
Qed.

Lemma In_split_on sep (c : N) (s line : str) :
  In line (split_on sep s) -> In c line -> In c s.
Proof.
  revert line. induction s as [|x t IH]; simpl; intros line.
  - intros [<-|[]]. auto.
  - destruct (x =? sep)%N.
    + intros [<-|H]; [contradiction|]. right. eauto.
    + destruct (split_on sep t) as [|w ws] eqn:E.
      * intros [<-|[]]. simpl. intros [->|[]]. auto.
      * intros [<-|H]; simpl.
        -- intros [->|Hc]; [auto|]. right. apply (IH w); simpl; auto.
        -- intros Hc. right. apply (IH line); simpl; auto.
Qed.

Lemma meta_loop_no_colon lines d :
  Forall (fun line => ~ In (ord ":") line) lines ->
  meta_loop lines d = inr d.
Proof.
  induction 1 as [|line lines H _ IH]; simpl; [reflexivity|].
  destruct (contains (py ":") line) eqn:C; [|exact IH].
  apply (contains_one (ord ":")) in C. contradiction.
Qed.

Lemma parse_meta_no_colon body :
  ~ In (ord ":") body -> _parse_meta body = inr [].
Proof.
  intros H. apply meta_loop_no_colon. rewrite Forall_forall.
  intros line Hl Hc. apply H. apply In_strip.
  eapply In_split_on; eauto.
Qed.

Lemma not_In_step_messages (l : list str) (x : str) :
  Forall step_message l -> hd_error x <> Some 83%N -> ~ In x l.
Proof.
  intros H Hx HI. rewrite Forall_forall in H.
  apply (step_message_neq _ x (H x HI) Hx). reflexivity.
Qed.


End RuleClaims.

(** ** Facts about the matcher *)

Lemma orelse_Some {A} (a b : option A) x :
  (a <|> b) = Some x -> a = Some x \/ (a = None /\ b = Some x).
Proof. destruct a; auto. Qed.

(** A repetition that succeeds has consumed a word of its class, of at
    least the minimal length, and handed over to its continuation. *)
Lemma rep_inv lazy f : forall rest lo b cs k x,
  rep lazy f lo b rest cs k = Some x ->
  exists w rest',
    rest = w ++ rest' /\ forallb f w = true /\ lo <= length w
    /\ k (rev w ++ b) rest' cs = Some x.
Proof.
  induction rest as [|c t IH]; intros lo b cs k x H.
  - destruct lo; simpl in H; [|discriminate].
    exists [], []. simpl. repeat split; [lia|].
    destruct lazy; [destruct (k b [] cs)|]; congruence.
  - assert (More : forall lo',
               (if f c then rep lazy f lo' (c :: b) t cs k else None) = Some x ->
               exists w rest', c :: t = w ++ rest' /\ forallb f w = true
                 /\ S lo' <= length w /\ k (rev w ++ b) rest' cs = Some x).
    { intros lo' H'. destruct (f c) eqn:F; [|discriminate].
      apply IH in H'. destruct H' as (w & rest' & -> & Fw & L & K).
      exists (c :: w), rest'. simpl. rewrite F, Fw.
      repeat split; [lia|]. now rewrite <- app_assoc. }
    destruct lo as [|lo]; simpl in H.
    + destruct lazy; apply orelse_Some in H.
      * destruct H as [H|[_ H]].
        -- exists [], (c :: t). repeat split; [simpl; lia|exact H].
        -- apply More in H. destruct H as (w & rest' & ? & ? & ? & ?).
           exists w, rest'. repeat split; auto; lia.
      * destruct H as [H|[_ H]].
        -- apply More in H. destruct H as (w & rest' & ? & ? & ? & ?).
           exists w, rest'. repeat split; auto; lia.
        -- exists [], (c :: t). repeat split; [simpl; lia|exact H].
    + apply More in H. exact H.
Qed.

(** A match that succeeds has consumed a word and handed over to its
    continuation, with the groups that [r] binds bound and the groups
    that [r] does not mention left as they were. *)
Lemma run_inv r : forall b rest cs k x,
  run r b rest cs k = Some x ->
  exists w rest' cs',
    k (rev w ++ b) rest' cs' = Some x /\ rest = w ++ rest'
    /\ (forall n, lookup n cs <> None -> lookup n cs' <> None)
    /\ (forall n, binds r n = true -> lookup n cs' <> None)
    /\ (forall n, mentions r n = false -> lookup n cs' = lookup n cs).
Proof.
  induction r; intros b rest cs k x H; simpl in H.
  - exists [], rest, cs. repeat split; auto; discriminate.
  - destruct rest as [|c t]; [discriminate|].
    destruct (f c); [|discriminate].
    exists [c], t, cs. repeat split; auto; discriminate.
  - apply IHr1 in H. destruct H as (w1 & rest1 & cs1 & H & -> & P1 & B1 & M1).
    apply IHr2 in H. destruct H as (w2 & rest2 & cs2 & H & -> & P2 & B2 & M2).
    exists (w1 ++ w2), rest2, cs2.
    rewrite rev_app_distr, <- !app_assoc. repeat split; auto.
    + simpl. intros n Hn. apply orb_true_iff in Hn. destruct Hn; auto.
    + simpl. intros n Hn. apply orb_false_iff in Hn. destruct Hn.
      rewrite M2, M1; auto.
  - apply orelse_Some in H. destruct H as [H|[_ H]].
    + apply IHr1 in H. destruct H as (w & rest' & cs' & H & -> & P & B & Mn).
      exists w, rest', cs'. repeat split; auto.
      * simpl. intros n Hn. apply andb_true_iff in Hn. destruct Hn; auto.
      * simpl. intros n Hn. apply orb_false_iff in Hn. destruct Hn; auto.
    + apply IHr2 in H. destruct H as (w & rest' & cs' & H & -> & P & B & Mn).
      exists w, rest', cs'. repeat split; auto.
      * simpl. intros n Hn. apply andb_true_iff in Hn. destruct Hn; auto.
      * simpl. intros n Hn. apply orb_false_iff in Hn. destruct Hn; auto.
  - apply orelse_Some in H. destruct H as [H|[_ H]].
    + apply IHr in H. destruct H as (w & rest' & cs' & H & -> & P & B & Mn).
      exists w, rest', cs'. repeat split; auto. discriminate.
    + exists [], rest, cs. repeat split; auto; discriminate.
  - apply rep_inv in H. destruct H as (w & rest' & -> & _ & _ & H).
    exists w, rest', cs. repeat split; auto; discriminate.
  - apply IHr in H. destruct H as (w & rest' & cs' & H & -> & P & B & Mn).
    eexists w, rest', _. split; [exact H|]. repeat split.
    + intros m Hm. simpl. destruct (Nat.eqb m n); [discriminate|]. auto.
    + simpl. intros m Hm. destruct (Nat.eqb m n); [discriminate|].
      simpl in Hm. auto.
    + simpl. intros m Hm. apply orb_false_iff in Hm. destruct Hm as [E Hm].
      rewrite E. auto.
  - destruct (run r b rest cs (fun b' rest' cs' => Some (b', rest', cs')))
      as [[[b1 rest1] cs1]|] eqn:A; [|discriminate].
    apply IHr in A. destruct A as (w & rest' & cs' & A & _ & P & B & Mn).
    injection A as _ _ <-.
    exists [], rest, cs'. repeat split; auto.
  - exists [], rest, cs. repeat split; auto; try discriminate.
    destruct b as [|c ?]; [exact H|]. destruct (c =? NL)%N; [exact H|discriminate].
  - exists [], rest, cs. repeat split; auto; try discriminate.
    destruct rest as [|c t]; [exact H|].
    destruct (_ && _); [exact H|discriminate].
  - exists [], rest, cs. repeat split; auto; try discriminate.
    destruct rest; [exact H|discriminate].
Qed.

(** [cat] runs its factors in turn. *)
Lemma run_cat_cons r rs b rest cs k :
  run (cat (r :: rs)) b rest cs k
  = run r b rest cs (fun b' rest' cs' => run (cat rs) b' rest' cs' k).
Proof. destruct rs; reflexivity. Qed.

(** A group around [r] records the word that [r] consumed. *)
Lemma run_grp_inv n r b rest cs k x :
  run (Grp n r) b rest cs k = Some x ->
  exists w rest' cs',
    k (rev w ++ b) rest' ((n, w) :: cs') = Some x /\ rest = w ++ rest'
    /\ (forall m, lookup m cs <> None -> lookup m cs' <> None)
    /\ (forall m, mentions r m = false -> lookup m cs' = lookup m cs).
Proof.
  simpl. intros H. apply run_inv in H.
  destruct H as (w & rest' & cs' & H & -> & P & _ & Mn).
  exists w, rest', cs'. repeat split; auto.
  rewrite length_app, length_rev, Nat.add_sub in H.
  rewrite firstn_app, firstn_all, Nat.sub_diag in H. simpl in H.
  now rewrite app_nil_r in H.
Qed.

Lemma folds_symbol (c x : N) :
  ascii_upper c = c -> c <> 105%N -> c <> 107%N -> c <> 115%N ->
  folds c x = (x =? c)%N.
Proof.
  intros U H1 H2 H3. unfold folds. rewrite U.
  apply N.eqb_neq in H1, H2, H3. rewrite H1, H2, H3. simpl.
  now rewrite !orb_false_r, orb_diag.
Qed.

Lemma classes_inv (g : N -> N -> bool) (p : str) : forall b rest cs k x,
  run (cat (map (fun a => Chr (g a)) p)) b rest cs k = Some x ->
  exists w rest',
    rest = w ++ rest' /\ Forall2 (fun a c => g a c = true) p w
    /\ k (rev w ++ b) rest' cs = Some x.
Proof.
  induction p as [|a p IH]; intros b rest cs k x H.
  - exists [], rest. repeat split; [constructor|exact H].
  - cbn [map] in H. rewrite run_cat_cons in H. cbn [run] in H.
    destruct rest as [|c t]; [discriminate|].
    destruct (g a c) eqn:G; [|discriminate].
    apply IH in H. destruct H as (w & rest' & -> & F & H).
    exists (c :: w), rest'. repeat split.
    + now constructor.
    + simpl. now rewrite <- app_assoc.
Qed.

Lemma lit_icase_inv s b rest cs k x :
  run (lit true s) b rest cs k = Some x ->
  exists w rest',
    rest = w ++ rest' /\ same_letters s w
    /\ k (rev w ++ b) rest' cs = Some x.
Proof. apply (classes_inv (fun a => folds (ascii_lower a))). Qed.

Lemma same_letters_hashes w : same_letters "##" w -> w = py "##".
Proof.
  unfold same_letters. change (py "##") with [35%N; 35%N].
  intros H. inversion H as [|a c p w' H1 H']; subst.
  inversion H' as [|a' c' p' w'' H2 H'']; subst. inversion H''; subst.
  change (ascii_lower 35) with 35%N in *.
  rewrite folds_symbol in H1, H2 by (try reflexivity; discriminate).
  apply N.eqb_eq in H1, H2. now subst.
Qed.

(** Every result of a search or a scan is the result of one attempt, at a
    cursor of the string. *)
Lemma search_from_inv r : forall rest b m,
  search_from r b rest = Some m ->
  exists w rest', rest = w ++ rest' /\ match_here r (rev w ++ b) rest' = Some m.
Proof.
  induction rest as [|c t IH]; intros b m H; simpl in H;
    apply orelse_Some in H; destruct H as [H|[_ H]].
  - exists [], []. auto.
  - discriminate.
  - exists [], (c :: t). auto.
  - apply IH in H. destruct H as (w & rest' & -> & H).
    exists (c :: w), rest'. simpl. now rewrite <- app_assoc.
Qed.

Lemma search_inv r s m :
  search r s = Some m ->
  exists w rest, s = w ++ rest /\ match_here r (rev w) rest = Some m.
Proof.
  intros H. apply search_from_inv in H. destruct H as (w & rest & -> & H).
  rewrite app_nil_r in H. eauto.
Qed.

Lemma finditer_from_inv r : forall rest resume b m,
  In m (finditer_from r resume b rest) ->
  exists w rest', rest = w ++ rest' /\ match_here r (rev w ++ b) rest' = Some m.
Proof.
  induction rest as [|c t IH]; intros resume b m H; simpl in H.
  - destruct (resume <=? length b); [|contradiction].
    destruct (match_here r b []) eqn:E; [|contradiction].
    destruct H as [<-|[]]. exists [], []. auto.
  - assert (Later : forall resume', In m (finditer_from r resume' (c :: b) t) ->
              exists w rest', c :: t = w ++ rest'
                /\ match_here r (rev w ++ b) rest' = Some m).
    { intros resume' H'. apply IH in H'. destruct H' as (w & rest' & -> & H').
      exists (c :: w), rest'. simpl. now rewrite <- app_assoc. }
    destruct (resume <=? length b).
    + destruct (match_here r b (c :: t)) eqn:E.
      * destruct H as [<-|H]; [exists [], (c :: t); auto|]. eauto.
      * eauto.
    + eauto.
Qed.

(** The groups of a match object, from the pattern. *)
Lemma match_here_inv r b rest m :
  match_here r b rest = Some m ->
  exists b' rest', run r b rest [] accept = Some (b', rest', m_caps m)
    /\ m_start m = length b /\ m_end m = length b'.
Proof.
  unfold match_here. destruct (run r b rest [] accept) as [[[b' rest'] cs]|];
    [|discriminate].
  intros H. injection H as H. subst m. simpl. eauto.
Qed.

Lemma match_here_binds r b rest m n :
  match_here r b rest = Some m -> binds r n = true -> group m n <> None.
Proof.
  intros H B. apply match_here_inv in H. destruct H as (b' & rest' & H & _).
  apply run_inv in H. destruct H as (w & rest1 & cs' & H & _ & _ & Bn & _).
  unfold group. injection H as _ _ <-. auto.
Qed.

Lemma rejects_sound r : forall c b t cs k,
  rejects r c = true -> run r b (c :: t) cs k = None.
Proof.
  induction r; intros c b t cs k H; simpl in H; try discriminate; simpl.
  - apply negb_true_iff in H. now rewrite H.
  - now apply IHr1.
  - apply andb_true_iff in H. destruct H as [H1 H2].
    now rewrite IHr1, IHr2.
  - destruct lo; [discriminate|]. apply negb_true_iff in H. now rewrite H.
  - now apply IHr.
  - now rewrite IHr.
  - reflexivity.
Qed.

Lemma match_here_rejects r c b t :
  rejects r c = true -> match_here r b (c :: t) = None.
Proof. intros H. unfold match_here. now rewrite rejects_sound. Qed.

(** A search passes over characters that the pattern cannot start with. *)
Lemma search_from_skip r pre : forall b rest,
  forallb (rejects r) pre = true ->
  search_from r b (pre ++ rest) = search_from r (rev pre ++ b) rest.
Proof.
  induction pre as [|c pre IH]; intros b rest H; [reflexivity|].
  simpl in H. apply andb_true_iff in H. destruct H as [Hc H].
  simpl. rewrite match_here_rejects by exact Hc.
  rewrite IH by exact H. now rewrite <- app_assoc.
Qed.

Lemma search_from_here r b rest m :
  match_here r b rest = Some m -> search_from r b rest = Some m.
Proof. intros H. destruct rest; simpl; now rewrite H. Qed.

(** A greedy repetition of a class that holds every character runs to the
    end of the string when its continuation accepts there. *)
Lemma rep_greedy_all f (F : forall c, f c = true) : forall rest b cs k x,
  k (rev rest ++ b) [] cs = Some x ->
  rep false f 0 b rest cs k = Some x.
Proof.
  induction rest as [|c t IH]; intros b cs k x H; simpl in *.
  - exact H.
  - rewrite F. rewrite (IH (c :: b) cs k x); [reflexivity|].
    now rewrite <- app_assoc in H.
Qed.

(** ** The Finalization section *)

Section Finalization.
Context {I : Interpreter}.

Lemma finalization_match_inv b rest m :
  match_here finalization_pattern b rest = Some m ->
  exists sp1 name sp2 body,
    rest = py "##" ++ sp1 ++ name ++ sp2 ++ NL :: body
    /\ forallb isspace sp1 = true /\ sp1 <> []
    /\ same_letters "Finalization" name
    /\ forallb isspace sp2 = true
    /\ group m 1 = Some body
    /\ m_end m = length b + length rest.
Proof.
  intros H. apply match_here_inv in H.
  destruct H as (b' & rest' & H & _ & E). unfold finalization_pattern in H.
  rewrite run_cat_cons in H. apply lit_icase_inv in H.
  destruct H as (w1 & r1 & -> & L1 & H). apply same_letters_hashes in L1.
  rewrite run_cat_cons in H. unfold ws1 in H. cbn [run] in H.
  apply rep_inv in H. destruct H as (w2 & r2 & -> & S2 & N2 & H).
  rewrite run_cat_cons in H. apply lit_icase_inv in H.
  destruct H as (w3 & r3 & -> & L3 & H).
  rewrite run_cat_cons in H. unfold ws0 in H. cbn [run] in H.
  apply rep_inv in H. destruct H as (w4 & r4 & -> & S4 & _ & H).
  rewrite run_cat_cons in H. unfold nl in H. cbn [run] in H.
  destruct r4 as [|c body]; [discriminate|].
  unfold chr in H. destruct (N.eqb_spec NL c) as [<-|]; [|discriminate].
  cbn [run cat] in H.
  erewrite rep_greedy_all in H; [| reflexivity | reflexivity].
  injection H as Hb _ Hc.
  exists w2, w3, w4, body. subst w1.
  split; [reflexivity|]. split; [exact S2|].
  split; [destruct w2; [simpl in N2; lia|discriminate]|].
  split; [exact L3|]. split; [exact S4|]. split.
  - unfold group. rewrite <- Hc. simpl.
    f_equal. apply firstn_all2. rewrite length_app, length_rev. simpl. lia.
  - rewrite E, <- Hb.
    repeat (rewrite ?length_app, ?length_rev; cbn [length]). lia.
Qed.

Lemma length_dropwhile f (s : str) : length (dropwhile f s) <= length s.
Proof.
  induction s as [|c t IH]; simpl; [lia|]. destruct (f c); simpl; lia.
Qed.

(** A string that [lstrip] leaves alone is empty or starts with a
    character that is not white space. *)
Lemma lstrip_fixed (s : str) :
  lstrip s = s -> s = [] \/ exists c t, s = c :: t /\ isspace c = false.
Proof.
  destruct s as [|c t]; [auto|]. unfold lstrip. simpl.
  destruct (isspace c) eqn:E; [|eauto].
  intros H. pose proof (length_dropwhile isspace t) as L.
  rewrite H in L. simpl in L. lia.
Qed.

Lemma rejects_finalization c :
  rejects finalization_pattern c = negb (c =? ord "#")%N.
Proof.
  change (rejects finalization_pattern c) with (negb (folds 35 c)).
  now rewrite folds_symbol by (try reflexivity; discriminate).
Qed.

(** The heading, as the canonical document writes it. *)
Lemma finalization_heading b rest :
  run finalization_pattern b (py "## Finalization" ++ rest) [] accept
  = run (cat [ws0; nl; Grp 1 (Rep false 0 (dot true)); Eol false])
        (rev (py "## Finalization") ++ b) rest [] accept.
Proof. reflexivity. Qed.

(** The line break after a heading, in front of a body that does not start
    with white space: [\s*] takes it and gives it back to [\n]. *)
Lemma heading_line_break r b body cs k :
  lstrip body = body ->
  run (cat [ws0; nl; r]) b (NL :: body) cs k = run r (NL :: b) body cs k.
Proof.
  intros H. rewrite run_cat_cons. unfold ws0. cbn [run rep].
  change (isspace NL) with true. cbv iota.
  apply lstrip_fixed in H. destruct H as [->|(c & t & -> & Hc)].
  - cbn [rep]. rewrite run_cat_cons. unfold nl. cbn [run].
    change (chr NL NL) with true. cbv iota. reflexivity.
  - cbn [rep]. rewrite Hc. rewrite run_cat_cons. unfold nl. cbn [run].
    assert (N : chr NL c = false).
    { unfold chr. apply N.eqb_neq. intros <-. discriminate Hc. }
    rewrite N. change (chr NL NL) with true. cbv iota. reflexivity.
Qed.

Lemma finalization_canonical b body :
  lstrip body = body ->
  match_here finalization_pattern b (py "## Finalization" ++ NL :: body)
  = Some {| m_start := length b;
            m_end := length b + 15 + S (length body);
            m_caps := [(1, body)] |}.
Proof.
  intros H. unfold match_here. rewrite finalization_heading.
  change (cat [ws0; nl; Grp 1 (Rep false 0 (dot true)); Eol false])
    with (cat [ws0; nl; cat [Grp 1 (Rep false 0 (dot true)); Eol false]]).
  rewrite heading_line_break by exact H.
  cbn [cat run].
  erewrite rep_greedy_all; [| reflexivity | reflexivity].
  cbv beta iota. f_equal. f_equal.
  - repeat (rewrite ?length_app, ?length_rev; cbn [length]).
    change (length (py "## Finalization")) with 15. lia.
  - f_equal. f_equal. apply firstn_all2.
    rewrite length_app, length_rev. cbn [length]. lia.
Qed.

(** C6, as the code has it: the body of the Finalization section runs to
    the end of the document.  In a document whose first number sign opens
    the heading of the section, the text taken is all that follows the
    line of the heading, trimmed, whatever later headings it holds; and
    whenever a text is taken from a document, the document is some text,
    the heading (two number signs, white space, the word Finalization in
    any letter case, white space, a line break) and a remainder, and the
    text taken is that remainder, trimmed. *)
Theorem finalization_runs_to_end (pre body content f : str) :
  forallb (fun c => negb (c =? ord "#")%N) pre = true ->
  lstrip body = body ->
  extract_finalization (pre ++ py "## Finalization" ++ NL :: body)
  = inr (Some (strip body))
  /\ (extract_finalization content = inr (Some f) ->
      exists head sp1 name sp2 tail,
        content = head ++ py "##" ++ sp1 ++ name ++ sp2 ++ NL :: tail
        /\ forallb isspace sp1 = true /\ sp1 <> []
        /\ same_letters "Finalization" name
        /\ forallb isspace sp2 = true
        /\ f = strip tail).
Proof.
  intros Hpre Hbody. split.
  - unfold extract_finalization, search.
    rewrite search_from_skip.
    + erewrite search_from_here by (apply finalization_canonical; exact Hbody).
      reflexivity.
    + rewrite forallb_forall in *. intros c Hc.
      rewrite rejects_finalization. auto.
  - unfold extract_finalization.
    destruct (search finalization_pattern content) as [m|] eqn:S;
      [|discriminate].
    apply search_inv in S. destruct S as (w & rest & -> & S).
    apply finalization_match_inv in S.
    destruct S as (sp1 & name & sp2 & tail & -> & S1 & N1 & L & S2 & G & _).
    unfold group_str. rewrite G. cbn [bind ret]. intros H.
    injection H as <-. exists w, sp1, name, sp2, tail. auto 10.
Qed.

End Finalization.

(** ** More facts about the matcher *)

Lemma zero_width_run r b rest cs k :
  zero_width r = true ->
  run r b rest cs k = None \/ exists cs', run r b rest cs k = k b rest cs'.
Proof.
  destruct r; try discriminate; intros _; simpl; eauto.
  - destruct (run r b rest cs _) as [[[? ?] cs']|]; eauto.
  - destruct b as [|c ?]; eauto. destruct (c =? NL)%N; eauto.
  - destruct rest as [|c ?]; eauto. destruct (_ && _); eauto.
  - destruct rest; eauto.
Qed.

Lemma match_here_rejects_after r c b t :
  rejects_after r c = true -> match_here r b (c :: t) = None.
Proof.
  intros H. unfold match_here.
  destruct r; try (rewrite rejects_sound by exact H; reflexivity).
  simpl in H. apply orb_true_iff in H. destruct H as [H|H].
  - simpl. now rewrite rejects_sound.
  - apply andb_true_iff in H. destruct H as [Z H]. simpl.
    destruct (zero_width_run r1 b (c :: t) []
                (fun b' rest' cs' => run r2 b' rest' cs' accept) Z)
      as [E|(cs' & E)]; rewrite E; [reflexivity|].
    now rewrite rejects_sound.
Qed.

Lemma search_from_skip_after r pre : forall b rest,
  forallb (rejects_after r) pre = true ->
  search_from r b (pre ++ rest) = search_from r (rev pre ++ b) rest.
Proof.
  induction pre as [|c pre IH]; intros b rest H; [reflexivity|].
  simpl in H. apply andb_true_iff in H. destruct H as [Hc H].
  simpl. rewrite match_here_rejects_after by exact Hc.
  rewrite IH by exact H. now rewrite <- app_assoc.
Qed.

(** A literal matches exactly its own text. *)
Lemma chars_run (p : str) : forall b rest cs k,
  run (cat (map (fun c => Chr (chr c)) p)) b rest cs k
  = if startswith p rest
    then k (rev p ++ b) (skipn (length p) rest) cs
    else None.
Proof.
  induction p as [|a p IH]; intros b rest cs k; [reflexivity|].
  cbn [map]. rewrite run_cat_cons. cbn [run startswith].
  destruct rest as [|c t]; [reflexivity|]. unfold chr at 1.
  destruct (N.eqb_spec a c) as [<-|]; [|reflexivity].
  rewrite IH. cbn [andb length skipn rev]. now rewrite <- app_assoc.
Qed.

Lemma lit_run s b rest cs k :
  run (lit false s) b rest cs k
  = if startswith (py s) rest
    then k (rev (py s) ++ b) (skipn (length (py s)) rest) cs
    else None.
Proof. apply chars_run. Qed.

Lemma startswith_app (p rest : str) : startswith p (p ++ rest) = true.
Proof.
  induction p as [|a p IH]; [reflexivity|]. simpl. now rewrite N.eqb_refl.
Qed.

Lemma skipn_length_app {A} (p rest : list A) : skipn (length p) (p ++ rest) = rest.
Proof. induction p; simpl; auto. Qed.

(** A greedy repetition takes a whole run of its class when what follows
    the run is not of the class and the continuation accepts there. *)
Lemma rep_greedy_span f : forall w lo b rest cs k x,
  forallb f w = true -> lo <= length w ->
  match rest with [] => true | c :: _ => negb (f c) end = true ->
  k (rev w ++ b) rest cs = Some x ->
  rep false f lo b (w ++ rest) cs k = Some x.
Proof.
  induction w as [|c w IH]; intros lo b rest cs k x F L E K.
  - simpl in L. destruct lo; [|lia]. simpl in *.
    destruct rest as [|c t]; simpl; [exact K|].
    apply negb_true_iff in E. now rewrite E.
  - simpl in F. apply andb_true_iff in F. destruct F as [Fc F].
    assert (R : forall lo', lo' <= length w ->
                rep false f lo' (c :: b) (w ++ rest) cs k = Some x).
    { intros lo' L'. apply IH; auto. simpl in K.
      now rewrite <- app_assoc in K. }
    destruct lo as [|lo]; simpl; rewrite Fc.
    + rewrite R by lia. reflexivity.
    + apply R. simpl in L. lia.
Qed.

(** A lazy repetition passes over the characters at which its
    continuation fails. *)
Lemma rep_lazy_skip f k cs : forall w b rest,
  forallb f w = true ->
  (forall w1 c w2, w = w1 ++ c :: w2 ->
     k (rev w1 ++ b) (c :: w2 ++ rest) cs = None) ->
  rep true f 0 b (w ++ rest) cs k = rep true f 0 (rev w ++ b) rest cs k.
Proof.
  induction w as [|c w IH]; intros b rest F K; [reflexivity|].
  simpl in F. apply andb_true_iff in F. destruct F as [Fc F].
  pose proof (K [] c w eq_refl) as K0. cbn [rev app] in K0.
  cbn [app rep]. rewrite K0, Fc.
  rewrite IH; auto.
  - simpl. now rewrite <- app_assoc.
  - intros w1 c' w2 ->. specialize (K (c :: w1) c' w2 eq_refl).
    simpl in K. now rewrite <- app_assoc in K.
Qed.

Lemma bol_run b rest cs k :
  at_bol b = true -> run Bol b rest cs k = k b rest cs.
Proof. destruct b as [|c ?]; simpl; [reflexivity|]. now intros ->. Qed.

(** One blank taken by [\s+] or [\s*] in front of other text. *)
Lemma ws1_blank b c rest cs k :
  isspace c = false ->
  run ws1 b (32%N :: c :: rest) cs k = k (32%N :: b) (c :: rest) cs.
Proof.
  intros H. unfold ws1. cbn [run rep]. change (isspace 32) with true.
  cbv iota. rewrite H. reflexivity.
Qed.

Lemma ws0_blank b c rest cs k x :
  isspace c = false ->
  k (32%N :: b) (c :: rest) cs = Some x ->
  run ws0 b (32%N :: c :: rest) cs k = Some x.
Proof.
  intros H K. unfold ws0. cbn [run rep]. change (isspace 32) with true.
  cbv iota. rewrite H, K. reflexivity.
Qed.

(** [(.+)$] under re.MULTILINE takes the rest of the line. *)
Lemma rest_of_line b x tail cs :
  forallb notnl x = true -> x <> [] -> at_eol tail = true ->
  run (cat [Grp 1 (Rep false 1 (dot false)); Eol true]) b (x ++ tail) cs accept
  = Some (rev x ++ b, tail, (1, x) :: cs).
Proof.
  intros F N E. cbn [cat run].
  erewrite rep_greedy_span; [reflexivity | exact F | | |].
  - destruct x; [congruence|simpl; lia].
  - destruct tail as [|c t]; [reflexivity|]. simpl in E.
    unfold dot, notnl. now rewrite E.
  - assert (G : firstn (length (rev x ++ b) - length b) (x ++ tail) = x).
    { rewrite length_app, length_rev, Nat.add_sub.
      rewrite firstn_app, firstn_all, Nat.sub_diag. simpl.
      apply app_nil_r. }
    rewrite G. destruct tail as [|c t]; [reflexivity|].
    simpl in E. rewrite E. reflexivity.
Qed.

Lemma startswith_line (p h t : str) :
  ~ In NL p -> startswith p (h ++ NL :: t) = true -> startswith p h = true.
Proof.
  revert h. induction p as [|a p IH]; intros h Hn H; [reflexivity|].
  destruct h as [|c h]; simpl in *.
  - apply andb_true_iff in H. destruct H as [H _].
    apply N.eqb_eq in H. tauto.
  - apply andb_true_iff in H. destruct H as [H1 H2]. rewrite H1. simpl.
    apply IH; tauto.
Qed.

(** ** The title *)

Section Title.
Context {I : Interpreter}.

Lemma rejects_title c :
  rejects_after title_pattern c = negb (c =? ord "#")%N.
Proof.
  change (rejects_after title_pattern c) with (negb (35 =? c)%N).
  now rewrite N.eqb_sym.
Qed.

(** The heading line up to its text. *)
Lemma title_heading b c rest :
  at_bol b = true -> isspace c = false ->
  run title_pattern b (py "# " ++ c :: rest) [] accept
  = run (cat [Opt (Seq (lit false "Workflow:") ws0);
              Grp 1 (Rep false 1 (dot false)); Eol true])
        (rev (py "# ") ++ b) (c :: rest) [] accept.
Proof.
  intros B H. unfold title_pattern.
  rewrite run_cat_cons, bol_run by exact B.
  rewrite run_cat_cons, lit_run.
  change (py "# " ++ c :: rest) with (py "#" ++ 32%N :: c :: rest).
  rewrite startswith_app, skipn_length_app.
  rewrite run_cat_cons, ws1_blank by exact H. reflexivity.
Qed.

Lemma title_with_label b x tail :
  at_bol b = true -> lstrip x = x -> x <> [] -> forallb notnl x = true ->
  at_eol tail = true ->
  match_here title_pattern b (py "# Workflow: " ++ x ++ tail)
  = Some {| m_start := length b;
            m_end := length (rev x ++ rev (py "# Workflow: ") ++ b);
            m_caps := [(1, x)] |}.
Proof.
  intros B L N F E. unfold match_here.
  change (py "# Workflow: " ++ x ++ tail)
    with (py "# " ++ 87%N :: py "orkflow: " ++ x ++ tail).
  rewrite title_heading by (exact B || reflexivity).
  rewrite run_cat_cons. cbn [run]. rewrite lit_run.
  change (87%N :: py "orkflow: " ++ x ++ tail)
    with (py "Workflow:" ++ 32%N :: x ++ tail).
  rewrite startswith_app, skipn_length_app.
  apply lstrip_fixed in L. destruct L as [->|(c & t & -> & Hc)]; [congruence|].
  change (32%N :: (c :: t) ++ tail) with (32%N :: c :: t ++ tail).
  erewrite ws0_blank;
    [ | exact Hc
      | change (c :: t ++ tail) with ((c :: t) ++ tail);
        apply rest_of_line; assumption ].
  reflexivity.
Qed.

Lemma title_without_label b h tail :
  at_bol b = true -> lstrip h = h -> h <> [] -> forallb notnl h = true ->
  at_eol tail = true -> startswith (py "Workflow:") h = false ->
  match_here title_pattern b (py "# " ++ h ++ tail)
  = Some {| m_start := length b;
            m_end := length (rev h ++ rev (py "# ") ++ b);
            m_caps := [(1, h)] |}.
Proof.
  intros B L N F E W. unfold match_here.
  pose proof L as L'.
  apply lstrip_fixed in L'. destruct L' as [->|(c & t & -> & Hc)]; [congruence|].
  change (py "# " ++ (c :: t) ++ tail) with (py "# " ++ c :: t ++ tail).
  rewrite title_heading by assumption.
  rewrite run_cat_cons. cbn [run]. rewrite lit_run.
  change (c :: t ++ tail) with ((c :: t) ++ tail).
  assert (S : startswith (py "Workflow:") ((c :: t) ++ tail) = false).
  { destruct (startswith (py "Workflow:") ((c :: t) ++ tail)) eqn:S;
      [|reflexivity].
    destruct tail as [|n tail'].
    - rewrite app_nil_r in S. congruence.
    - simpl in E. apply N.eqb_eq in E. subst n.
      apply startswith_line in S; [congruence|].
      vm_compute. intuition discriminate. }
  rewrite S. rewrite rest_of_line by assumption. reflexivity.
Qed.

(** C3, as the code has it: the label is matched as it is written, with a
    capital W and the other letters small.  In a document whose first
    number sign opens a heading line "# Workflow: X", the title is X; and
    a heading text that does not start with exactly that label, such as
    one with the label in another letter case, is the title as a whole. *)
Theorem title_label_case_sensitive (pre x tail : str) :
  forallb (fun c => negb (c =? ord "#")%N) pre = true ->
  at_bol (rev pre) = true ->
  lstrip x = x -> x <> [] -> forallb notnl x = true -> at_eol tail = true ->
  extract_title (pre ++ py "# Workflow: " ++ x ++ tail) = inr (Some (strip x))
  /\ (startswith (py "Workflow:") x = false ->
      extract_title (pre ++ py "# " ++ x ++ tail) = inr (Some (strip x))).
Proof.
  intros Hpre B L N F E.
  assert (Skip : forallb (rejects_after title_pattern) pre = true).
  { rewrite forallb_forall in *. intros c Hc. rewrite rejects_title. auto. }
  assert (B' : at_bol (rev pre ++ []) = true) by now rewrite app_nil_r.
  split; [|intros W]; unfold extract_title, search;
    rewrite search_from_skip_after by exact Skip.
  - erewrite search_from_here by (apply title_with_label; assumption).
    reflexivity.
  - erewrite search_from_here by (apply title_without_label; assumption).
    reflexivity.
Qed.

End Title.

(** ** Facts about scanning *)

Lemma finditer_from_skip r : forall pre resume b rest,
  (forall w1 c w2, pre = w1 ++ c :: w2 ->
     match_here r (rev w1 ++ b) (c :: w2 ++ rest) = None) ->
  finditer_from r resume b (pre ++ rest)
  = finditer_from r resume (rev pre ++ b) rest.
Proof.
  induction pre as [|c pre IH]; intros resume b rest H; [reflexivity|].
  pose proof (H [] c pre eq_refl) as H0. cbn [rev app] in H0.
  cbn [app finditer_from]. rewrite H0.
  replace (if resume <=? length b then None else None)
    with (@None match_object) by (destruct (resume <=? length b); reflexivity).
  rewrite IH.
  - simpl. now rewrite <- app_assoc.
  - intros w1 c' w2 ->. specialize (H (c :: w1) c' w2 eq_refl).
    simpl in H. now rewrite <- app_assoc in H.
Qed.

Lemma finditer_from_nil r resume b :
  match_here r b [] = None -> finditer_from r resume b [] = [].
Proof. intros H. simpl. rewrite H. now destruct (resume <=? length b). Qed.

Lemma finditer_from_resume r : forall w resume b rest,
  length b + length w <= resume ->
  finditer_from r resume b (w ++ rest)
  = finditer_from r resume (rev w ++ b) rest.
Proof.
  induction w as [|c w IH]; intros resume b rest L; [reflexivity|].
  simpl in L. cbn [app finditer_from].
  destruct (Nat.leb_spec resume (length b)) as [L'|_]; [lia|].
  rewrite IH by (simpl; lia). simpl. now rewrite <- app_assoc.
Qed.

Lemma finditer_from_match r resume b w rest m :
  w <> [] -> resume <= length b ->
  match_here r b (w ++ rest) = Some m -> m_end m = length b + length w ->
  finditer_from r resume b (w ++ rest)
  = m :: finditer_from r (m_end m) (rev w ++ b) rest.
Proof.
  intros N L H E. destruct w as [|c w]; [congruence|].
  cbn [app finditer_from]. cbn [app] in H. rewrite H.
  destruct (Nat.leb_spec resume (length b)) as [_|L']; [|lia].
  f_equal. simpl in E.
  replace (Nat.max (m_end m) (S (length b))) with (m_end m) by lia.
  rewrite finditer_from_resume by (simpl; lia).
  simpl. now rewrite <- app_assoc.
Qed.

(** ** The error-handling lines *)

Section ErrorHandling.
Context {I : Interpreter}.

Lemma arrow_here b rest :
  match_here arrow_pattern b rest
  = if startswith [RARROW] rest
    then Some {| m_start := length b; m_end := S (length b); m_caps := [] |}
    else if startswith (py "->") rest
         then Some {| m_start := length b; m_end := S (S (length b));
                      m_caps := [] |}
         else None.
Proof.
  unfold match_here, arrow_pattern. cbn [run]. rewrite lit_run.
  destruct rest as [|c t]; [reflexivity|].
  unfold chr. cbn [startswith]. rewrite andb_true_r.
  destruct (RARROW =? c)%N; [reflexivity|].
  destruct (startswith (py "->") (c :: t)); reflexivity.
Qed.

Lemma contains_suffix p (w s : str) :
  contains p (w ++ s) = false -> contains p s = false.
Proof.
  induction w as [|c w IH]; [auto|]. cbn [app contains]. intros H.
  apply orb_false_iff in H. destruct H as [_ H]. auto.
Qed.

Lemma contains_startswith p (s : str) :
  contains p s = false -> startswith p s = false.
Proof.
  destruct s; simpl; intros H; apply orb_false_iff in H; tauto.
Qed.

(** No arrow starts inside an arrow-free text, whatever follows it, as
    long as that does not start with a greater-than sign. *)
Lemma arrow_free_fails a rest w1 c w2 b :
  arrow_free a -> a = w1 ++ c :: w2 ->
  hd_error rest <> Some (ord ">") ->
  match_here arrow_pattern b (c :: w2 ++ rest) = None.
Proof.
  intros [A1 A2] -> R. rewrite arrow_here.
  apply contains_suffix, contains_startswith in A1.
  apply contains_suffix, contains_startswith in A2.
  change (py "->") with [45%N; 62%N] in *.
  cbn [startswith] in *. rewrite andb_true_r in *. rewrite A1.
  destruct (45 =? c)%N eqn:E1; [|reflexivity].
  cbn [andb] in *.
  destruct w2 as [|d w2].
  - destruct rest as [|d rest]; [reflexivity|]. cbn [app].
    rewrite andb_true_r.
    destruct (N.eqb_spec 62 d) as [<-|]; [|reflexivity].
    exfalso. apply R. reflexivity.
  - cbn [app]. now rewrite A2.
Qed.

Lemma finditer_arrow_free a resume b :
  arrow_free a -> finditer_from arrow_pattern resume b a = [].
Proof.
  intros A. rewrite <- (app_nil_r a) at 1.
  rewrite finditer_from_skip.
  - apply finditer_from_nil. apply arrow_here.
  - intros w1 c w2 E. apply (arrow_free_fails a [] w1 c w2 _ A E).
    discriminate.
Qed.

(** A text with one arrow between two arrow-free parts splits into these
    parts, empty or not. *)
Lemma split_one_arrow a tok b :
  is_arrow tok -> arrow_free a -> arrow_free b ->
  split arrow_pattern (a ++ tok ++ b) = [a; b].
Proof.
  intros T A B. unfold split, finditer.
  rewrite finditer_from_skip.
  - rewrite (finditer_from_match _ _ _ tok b
               {| m_start := length a; m_end := length a + length tok;
                  m_caps := [] |}).
    + rewrite finditer_arrow_free by exact B. cbn [pieces m_start m_end skipn].
      rewrite Nat.sub_0_r, firstn_app, firstn_all, Nat.sub_diag.
      cbn [firstn]. rewrite app_nil_r.
      rewrite app_assoc, <- (length_app a tok), skipn_length_app.
      reflexivity.
    + destruct T as [->| ->]; intros X; vm_compute in X; discriminate X.
    + lia.
    + rewrite arrow_here, app_nil_r, length_rev.
      destruct T as [->| ->]; cbn [app startswith length];
        rewrite ?N.eqb_refl; simpl; repeat f_equal; lia.
    + cbn [m_end]. now rewrite app_nil_r, length_rev.
  - intros w1 c w2 E. apply (arrow_free_fails a (tok ++ b) w1 c w2 _ A E).
    destruct T as [->| ->]; intros X; vm_compute in X; discriminate X.
Qed.

Lemma startswith_app_l p (s t : str) :
  startswith p s = true -> startswith p (s ++ t) = true.
Proof.
  revert s. induction p as [|a p IH]; intros s H; [reflexivity|].
  destruct s as [|c s]; [discriminate|]. simpl in *.
  apply andb_true_iff in H. destruct H as [-> H]. simpl. auto.
Qed.

Lemma contains_app_l p (s t : str) :
  contains p s = true -> contains p (s ++ t) = true.
Proof.
  induction s as [|c s IH]; simpl; intros H; apply orb_true_iff in H.
  - destruct H as [H|H]; [|discriminate].
    destruct p; [|discriminate]. now destruct t.
  - apply orb_true_iff. destruct H as [H|H].
    + left. now apply (startswith_app_l p (c :: s) t).
    + right. auto.
Qed.

Lemma contains_app_r p (w t : str) :
  contains p t = true -> contains p (w ++ t) = true.
Proof.
  intros H. induction w as [|c w IH]; [exact H|].
  cbn [app contains]. rewrite IH. apply orb_true_r.
Qed.

Lemma dropwhile_suffix f (s : str) : exists w, s = w ++ dropwhile f s.
Proof.
  induction s as [|c s (w & IH)]; [exists []; reflexivity|]. simpl.
  destruct (f c); [|exists []; reflexivity].
  exists (c :: w). simpl. now rewrite <- IH.
Qed.

Lemma rstrip_prefix (s : str) : exists w, s = rstrip s ++ w.
Proof.
  unfold rstrip. destruct (dropwhile_suffix isspace (rev s)) as (w & E).
  exists (rev w). rewrite <- rev_app_distr, <- E. now rewrite rev_involutive.
Qed.

(** What [error_entry] splits is a part of the line. *)
Lemma contains_trimmed p (line : str) :
  contains p (lstrip_chars (py "- ") (strip line)) = true ->
  contains p line = true.
Proof.
  unfold lstrip_chars, strip, lstrip. intros H.
  destruct (dropwhile_suffix (member (py "- ")) (rstrip (dropwhile isspace line)))
    as (w1 & E1).
  destruct (rstrip_prefix (dropwhile isspace line)) as (w2 & E2).
  destruct (dropwhile_suffix isspace line) as (w3 & E3).
  rewrite E3, E2, E1. apply contains_app_r, contains_app_l, contains_app_r.
  exact H.
Qed.

Lemma contains_token a tok b : contains tok (a ++ tok ++ b) = true.
Proof.
  apply contains_app_r. destruct (tok ++ b) eqn:E; simpl;
    rewrite <- E, startswith_app; reflexivity.
Qed.

Lemma error_loop_spec lines : forall acc,
  error_loop lines acc
  = acc ++ flat_map (fun line => match error_entry line with
                                 | Some h => [h]
                                 | None => []
                                 end) lines.
Proof.
  induction lines as [|line lines IH]; intros acc; simpl.
  - now rewrite app_nil_r.
  - destruct (error_entry line); rewrite IH; [|reflexivity].
    now rewrite <- app_assoc.
Qed.

(** C5, as the code has it: the loop appends, in order, one pair for each
    line that [error_entry] accepts; a line is accepted if and only if it
    contains an arrow token and its text, trimmed and without leading
    hyphens and blanks, splits on the arrow into exactly two segments; a
    segment may be empty: a line whose trimmed text is one arrow between
    two arrow-free parts is accepted with those parts, trimmed, as
    condition and action, whether they are empty or not.  Parsing does
    not touch the lists of errors and warnings. *)
Theorem error_handling_pairs :
  (forall lines acc,
     error_loop lines acc
     = acc ++ flat_map (fun line => match error_entry line with
                                    | Some h => [h]
                                    | None => []
                                    end) lines)
  /\ (forall line h,
        error_entry line = Some h
        <-> (contains [RARROW] line || contains (py "->") line = true
             /\ exists a b,
                 split arrow_pattern (lstrip_chars (py "- ") (strip line))
                 = [a; b]
                 /\ h = {| condition := strip a; action := strip b |}))
  /\ (forall line a tok b,
        is_arrow tok -> arrow_free a -> arrow_free b ->
        lstrip_chars (py "- ") (strip line) = a ++ tok ++ b ->
        error_entry line = Some {| condition := strip a; action := strip b |})
  /\ (forall v0 v,
        _parse_document v0 = inr v ->
        errors v = errors v0 /\ warnings v = warnings v0).
Proof.
  split; [exact error_loop_spec|]. split; [|split].
  - intros line h. unfold error_entry.
    destruct (contains [RARROW] line || contains (py "->") line).
    + destruct (split arrow_pattern _) as [|a [|b [|c t]]]; split;
        try discriminate; try (intros (_ & a' & b' & E & _); discriminate).
      * intros H. injection H as <-. split; [reflexivity|]. eauto.
      * intros (_ & a' & b' & E & ->). now injection E as <- <-.
    + split; [discriminate|]. intros [H _]. discriminate.
  - intros line a tok b T A B E. unfold error_entry.
    assert (C : contains [RARROW] line || contains (py "->") line = true).
    { pose proof (contains_token a tok b) as C. rewrite <- E in C.
      apply contains_trimmed in C. apply orb_true_iff.
      destruct T as [->| ->]; auto. }
    rewrite C, E, split_one_arrow by assumption. reflexivity.
  - intros v0 v P. apply parse_keeps in P. tauto.
Qed.

End ErrorHandling.

(** ** The code blocks of a Dependencies subsection *)

Lemma rep_lazy_here f b rest cs k x :
  k b rest cs = Some x -> rep true f 0 b rest cs k = Some x.
Proof. intros H. destruct rest; simpl; now rewrite H. Qed.

Section Dependencies.
Context {I : Interpreter}.

Lemma rejects_code_block c :
  rejects code_block_pattern c = negb (BACKTICK =? c)%N.
Proof. reflexivity. Qed.

Lemma code_block_skip prose resume b rest :
  backtick_free prose ->
  finditer_from code_block_pattern resume b (prose ++ rest)
  = finditer_from code_block_pattern resume (rev prose ++ b) rest.
Proof.
  intros H. apply finditer_from_skip. intros w1 c w2 E.
  apply match_here_rejects. rewrite rejects_code_block.
  unfold backtick_free in H. rewrite forallb_forall in H.
  rewrite N.eqb_sym. apply H. rewrite E. apply in_elt.
Qed.

(** From the line break after the opening fence to the closing fence. *)
Lemma block_body b inner rest :
  backtick_free inner ->
  run (cat [nl; Grp 1 (Rep true 0 (dot true)); lit false "```"])
      b (NL :: inner ++ py "```" ++ rest) [] accept
  = Some (rev (py "```") ++ rev inner ++ NL :: b, rest, [(1, inner)]).
Proof.
  intros H. rewrite run_cat_cons. unfold nl. cbn [run].
  change (chr NL NL) with true. cbv iota. cbn [cat run].
  rewrite rep_lazy_skip.
  - apply rep_lazy_here. rewrite lit_run, startswith_app, skipn_length_app.
    unfold accept. rewrite length_app, length_rev. cbn [length].
    replace (length inner + S (length b) - S (length b)) with (length inner)
      by lia.
    rewrite firstn_app, firstn_all, Nat.sub_diag. cbn [firstn].
    now rewrite app_nil_r.
  - clear. induction inner; simpl; auto.
  - intros w1 c w2 E. rewrite lit_run.
    unfold backtick_free in H. rewrite forallb_forall in H.
    assert (Hc : negb (c =? BACKTICK)%N = true)
      by (apply H; rewrite E; apply in_elt).
    apply negb_true_iff in Hc. rewrite N.eqb_sym in Hc.
    change (py "```") with [BACKTICK; BACKTICK; BACKTICK].
    cbn [startswith]. now rewrite Hc.
Qed.

Lemma block_match b tag inner rest :
  listed_tag tag -> backtick_free inner ->
  match_here code_block_pattern b (fence tag inner ++ rest)
  = Some {| m_start := length b;
            m_end := length b + length (fence tag inner);
            m_caps := [(1, inner)] |}.
Proof.
  intros T H. unfold match_here, code_block_pattern, fence.
  rewrite <- !app_assoc. rewrite run_cat_cons, lit_run.
  rewrite startswith_app, skipn_length_app.
  rewrite run_cat_cons. cbn [run]. rewrite !lit_run.
  cbn [app]. rewrite <- !app_assoc.
  destruct T as [->|[->| ->]].
  - cbn [app]. change (startswith (py "bash") (NL :: ?x)) with false.
    change (startswith (py "sh") (NL :: ?x)) with false. cbv iota.
    rewrite block_body by exact H. cbv iota beta. f_equal. f_equal.
    repeat (rewrite ?length_app, ?length_rev; cbn [length]).
    change (length (py "```")) with 3. lia.
  - rewrite startswith_app, skipn_length_app.
    rewrite block_body by exact H. cbv iota beta. f_equal. f_equal.
    repeat (rewrite ?length_app, ?length_rev; cbn [length]).
    change (length (py "```")) with 3. change (length (py "bash")) with 4. lia.
  - change (startswith (py "bash") (py "sh" ++ ?x)) with false. cbv iota.
    rewrite startswith_app, skipn_length_app.
    rewrite block_body by exact H. cbv iota beta. f_equal. f_equal.
    repeat (rewrite ?length_app, ?length_rev; cbn [length]).
    change (length (py "```")) with 3. change (length (py "sh")) with 2. lia.
Qed.

Lemma fence_not_empty tag inner : fence tag inner <> [].
Proof. unfold fence. change (py "```") with [BACKTICK; BACKTICK; BACKTICK].
  discriminate. Qed.

Lemma findall_blocks blocks closing : forall resume b,
  Forall well_fenced blocks -> backtick_free closing ->
  resume <= length b ->
  map (fun m => match group m 1 with Some g => g | None => [] end)
      (finditer_from code_block_pattern resume b
                     (subsection_text blocks closing))
  = map inner blocks.
Proof.
  induction blocks as [|blk blocks IH]; intros resume b W C L.
  - cbn [subsection_text map]. rewrite <- (app_nil_r closing).
    rewrite code_block_skip by exact C.
    now rewrite finditer_from_nil.
  - inversion W as [|? ? (Wp & Wt & Wi) W']; subst.
    cbn [subsection_text]. rewrite code_block_skip by exact Wp.
    erewrite finditer_from_match;
      [ | apply fence_not_empty
        | rewrite length_app, length_rev; lia
        | apply block_match; assumption
        | reflexivity ].
    cbn [map m_end]. f_equal. apply IH; auto.
    rewrite !length_app, !length_rev. lia.
Qed.

(** *** The pattern finds the stretches *)

Lemma startswith_skipn (p s : str) :
  startswith p s = true -> s = p ++ skipn (length p) s.
Proof.
  revert s. induction p as [|a p IH]; intros s H; [reflexivity|].
  destruct s as [|c s]; [discriminate|]. simpl in H.
  apply andb_true_iff in H. destruct H as [E H].
  apply N.eqb_eq in E. subst c. simpl. f_equal. now apply IH.
Qed.

Lemma find_fence_split body inner after :
  find_fence body = Some (inner, after) ->
  body = inner ++ py "```" ++ after.
Proof.
  revert inner. induction body as [|c t IH]; intros inner H; [discriminate|].
  cbn [find_fence] in H.
  destruct (startswith (py "```") (c :: t)) eqn:S.
  - injection H as <- <-. now apply startswith_skipn in S.
  - destruct (find_fence t) as [[i a]|]; [|discriminate].
    injection H as <- <-. simpl. f_equal. now apply IH.
Qed.

(** The lazy group and the closing fence, after [w] has been passed. *)
Lemma lazy_to_fence b0 t0 : forall t w,
  t0 = w ++ t ->
  rep true (dot true) 0 (rev w ++ b0) t []
      (fun b' rest' cs' =>
         run (lit false "```") b' rest'
             ((1, firstn (length b' - length b0) t0) :: cs') accept)
  = match find_fence t with
    | Some (inner, after) =>
        Some (rev (py "```") ++ rev (w ++ inner) ++ b0, after,
              [(1, w ++ inner)])
    | None => None
    end.
Proof.
  induction t as [|c t IH]; intros w E.
  - reflexivity.
  - cbn [rep find_fence]. rewrite lit_run.
    destruct (startswith (py "```") (c :: t)) eqn:S.
    + unfold accept. rewrite app_nil_r. subst t0.
      rewrite length_app, length_rev, Nat.add_sub.
      rewrite firstn_app, firstn_all, Nat.sub_diag. cbn [firstn].
      now rewrite app_nil_r.
    + change (dot true c) with true. cbv iota.
      specialize (IH (w ++ [c])). rewrite rev_unit in IH. cbn [app] in IH.
      rewrite IH by (rewrite <- app_assoc; exact E).
      destruct (find_fence t) as [[i a]|]; [|reflexivity].
      now rewrite <- !app_assoc.
Qed.

(** The pattern behind the tag: the line break, the lazy group and the
    closing fence. *)
Lemma fence_body_run b r :
  run (cat [nl; Grp 1 (Rep true 0 (dot true)); lit false "```"]) b r []
      accept
  = match body_after r with
    | Some body =>
        match find_fence body with
        | Some (inner, after) =>
            Some (rev (py "```") ++ rev inner ++ NL :: b, after,
                  [(1, inner)])
        | None => None
        end
    | None => None
    end.
Proof.
  destruct r as [|c t]; [reflexivity|].
  rewrite run_cat_cons. unfold nl. cbn [run body_after]. unfold chr.
  rewrite (N.eqb_sym NL c).
  destruct (N.eqb_spec c NL) as [->|]; [|reflexivity].
  cbn [cat run]. exact (lazy_to_fence (NL :: b) t t [] eq_refl).
Qed.

Lemma bash_not_sh (r : str) :
  startswith (py "bash") r = true ->
  startswith (py "sh") r = false /\ body_after r = None.
Proof.
  destruct r as [|c t]; [discriminate|].
  change (py "bash") with (98%N :: py "ash").
  cbn [startswith body_after]. intros H.
  apply andb_true_iff in H. destruct H as [E _].
  apply N.eqb_eq in E. subst c. split; reflexivity.
Qed.

Lemma sh_not_break (r : str) :
  startswith (py "sh") r = true -> body_after r = None.
Proof.
  destruct r as [|c t]; [discriminate|].
  change (py "sh") with (115%N :: py "h").
  cbn [startswith body_after]. intros H.
  apply andb_true_iff in H. destruct H as [E _].
  apply N.eqb_eq in E. subst c. reflexivity.
Qed.

Lemma skipn_skipn_3 (n : nat) (s : str) : skipn n (skipn 3 s) = skipn (n + 3) s.
Proof.
  destruct s as [|a [|b [|c s]]]; cbn [skipn];
    rewrite ?skipn_nil; try reflexivity.
  - replace (n + 3) with (S (n + 2)) by lia. cbn [skipn]. now rewrite skipn_nil.
  - replace (n + 3) with (S (S (n + 1))) by lia. cbn [skipn].
    now rewrite skipn_nil.
  - replace (n + 3) with (S (S (S n))) by lia. reflexivity.
Qed.

Lemma body_after_split r body : body_after r = Some body -> r = NL :: body.
Proof.
  destruct r as [|c t]; [discriminate|]. simpl.
  destruct (N.eqb_spec c NL) as [->|]; [|discriminate]. now intros [= ->].
Qed.

Ltac open_pattern :=
  unfold match_here, code_block_pattern, stretch_at, open_fence;
  rewrite run_cat_cons, lit_run;
  change (length (py "```")) with 3.

Ltac behind_fence :=
  rewrite run_cat_cons; cbn [run]; rewrite !lit_run;
  change (length (py "bash")) with 4; change (length (py "sh")) with 2;
  rewrite !skipn_skipn_3; cbn [Nat.add];
  rewrite !fence_body_run.

(** No match where no stretch opens. *)
Lemma no_stretch_no_match b s :
  stretch_at s = None -> match_here code_block_pattern b s = None.
Proof.
  open_pattern.
  destruct (startswith (py "```") s) eqn:S3; [|reflexivity].
  behind_fence.
  destruct (startswith (py "bash") (skipn 3 s)) eqn:Sb.
  - destruct (bash_not_sh _ Sb) as [Ss Bn]. rewrite Ss, Bn.
    destruct (body_after (skipn 7 s)) as [body|]; [|reflexivity].
    now intros ->.
  - destruct (startswith (py "sh") (skipn 3 s)) eqn:Ss.
    + rewrite (sh_not_break _ Ss).
      destruct (body_after (skipn 5 s)) as [body|]; [|reflexivity].
      now intros ->.
    + destruct (body_after (skipn 3 s)) as [body|]; [|reflexivity].
      now intros ->.
Qed.

(** Where a stretch opens, the pattern matches the fence around it. *)
Lemma stretch_match b s inner after :
  stretch_at s = Some (inner, after) ->
  exists tag,
    listed_tag tag /\ s = fence tag inner ++ after
    /\ match_here code_block_pattern b s
       = Some {| m_start := length b;
                 m_end := length b + length (fence tag inner);
                 m_caps := [(1, inner)] |}.
Proof.
  open_pattern.
  destruct (startswith (py "```") s) eqn:S3; [|discriminate].
  behind_fence. pose proof (startswith_skipn _ _ S3) as E3.
  change (length (py "```")) with 3 in E3.
  destruct (startswith (py "bash") (skipn 3 s)) eqn:Sb.
  - destruct (bash_not_sh _ Sb) as [Ss Bn]. rewrite Ss, Bn.
    pose proof (startswith_skipn _ _ Sb) as Eb.
    change (length (py "bash")) with 4 in Eb.
    rewrite skipn_skipn_3 in Eb. cbn [Nat.add] in Eb.
    destruct (body_after (skipn 7 s)) as [body|] eqn:B; [|discriminate].
    apply body_after_split in B. intros F. rewrite F.
    apply find_fence_split in F.
    exists (py "bash"). split; [right; now left|]. split.
    + rewrite E3, Eb, B, F. unfold fence.
      repeat (rewrite <- ?app_assoc; cbn [app]). reflexivity.
    + f_equal. f_equal. unfold fence.
      repeat (rewrite ?length_app, ?length_rev; cbn [length]). lia.
  - destruct (startswith (py "sh") (skipn 3 s)) eqn:Ss.
    + rewrite (sh_not_break _ Ss).
      pose proof (startswith_skipn _ _ Ss) as Es.
      change (length (py "sh")) with 2 in Es.
      rewrite skipn_skipn_3 in Es. cbn [Nat.add] in Es.
      destruct (body_after (skipn 5 s)) as [body|] eqn:B; [|discriminate].
      apply body_after_split in B. intros F. rewrite F.
      apply find_fence_split in F.
      exists (py "sh"). split; [right; now right|]. split.
      * rewrite E3, Es, B, F. unfold fence.
      repeat (rewrite <- ?app_assoc; cbn [app]). reflexivity.
      * f_equal. f_equal. unfold fence.
        repeat (rewrite ?length_app, ?length_rev; cbn [length]). lia.
    + destruct (body_after (skipn 3 s)) as [body|] eqn:B; [|discriminate].
      apply body_after_split in B. intros F. rewrite F.
      apply find_fence_split in F.
      exists []. split; [now left|]. split.
      * rewrite E3, B, F. unfold fence.
      repeat (rewrite <- ?app_assoc; cbn [app]). reflexivity.
      * f_equal. f_equal. unfold fence.
        repeat (rewrite ?length_app, ?length_rev; cbn [length]). lia.
Qed.

(** The scan of the pattern finds the stretches, one after the other. *)
Lemma stretches_scan : forall fuel s b resume,
  length s <= fuel -> resume <= length b ->
  map (fun m => match group m 1 with Some g => g | None => [] end)
      (finditer_from code_block_pattern resume b s)
  = stretches_fuel fuel s.
Proof.
  induction fuel as [|fuel IH]; intros s b resume L R.
  - destruct s; [|simpl in L; lia]. cbn [finditer_from stretches_fuel].
    rewrite no_stretch_no_match by reflexivity.
    now destruct (resume <=? length b).
  - destruct s as [|c t].
    + cbn [finditer_from stretches_fuel].
      rewrite no_stretch_no_match by reflexivity.
      now destruct (resume <=? length b).
    + cbn [stretches_fuel].
      destruct (stretch_at (c :: t)) as [[inner after]|] eqn:S.
      * destruct (stretch_match b _ _ _ S) as (tag & _ & E & M).
        rewrite E in M |- *.
        rewrite (finditer_from_match _ _ _ _ _ _ (fence_not_empty tag inner)
                   R M eq_refl).
        cbn [map group m_caps lookup Nat.eqb m_end]. f_equal.
        apply IH.
        -- apply (f_equal (@length N)) in E. rewrite length_app in E.
           simpl in L, E. pose proof (fence_not_empty tag inner) as Ne.
           destruct (fence tag inner); [congruence|simpl in E; lia].
        -- rewrite length_app, length_rev. lia.
      * cbn [finditer_from]. rewrite (no_stretch_no_match _ _ S).
        replace (if resume <=? length b then None else None)
          with (@None match_object) by (destruct (resume <=? length b); reflexivity).
        apply IH; simpl in *; lia.
Qed.

(** No stretch opens at a fence with another tag. *)
Lemma other_tag_opens_nothing tag rest :
  ~ listed_tag tag -> ~ In NL tag ->
  stretch_at (py "```" ++ tag ++ NL :: rest) = None.
Proof.
  intros T Nn. unfold stretch_at, open_fence.
  rewrite startswith_app.
  change (skipn 3 (py "```" ++ ?x)) with x.
  change (skipn 7 (py "```" ++ ?x)) with (skipn 4 x).
  change (skipn 5 (py "```" ++ ?x)) with (skipn 2 x).
  assert (X : forall p, startswith p (tag ++ NL :: rest) = true ->
                ~ In NL p -> p <> tag ->
                body_after (skipn (length p) (tag ++ NL :: rest)) = None).
  { intros p Sp Np D. apply startswith_line in Sp; [|exact Np].
    apply startswith_skipn in Sp. rewrite Sp, <- app_assoc, skipn_length_app.
    destruct (skipn (length p) tag) as [|c t] eqn:E.
    - rewrite app_nil_r in Sp. congruence.
    - simpl. destruct (N.eqb_spec c NL) as [->|]; [|reflexivity].
      exfalso. apply Nn. rewrite Sp. apply in_or_app. right. now left. }
  destruct (startswith (py "bash") (tag ++ NL :: rest)) eqn:Sb.
  - pose proof (X (py "bash") Sb) as Y.
    change (length (py "bash")) with 4 in Y. rewrite Y; [reflexivity| |].
    + vm_compute. intuition discriminate.
    + intros E. apply T. right. now left.
  - destruct (startswith (py "sh") (tag ++ NL :: rest)) eqn:Ss.
    + pose proof (X (py "sh") Ss) as Y.
      change (length (py "sh")) with 2 in Y. rewrite Y; [reflexivity| |].
      * vm_compute. intuition discriminate.
      * intros E. apply T. right. now right.
    + pose proof (X [] eq_refl) as Y.
      change (skipn (length []) (tag ++ NL :: rest))
        with (tag ++ NL :: rest) in Y.
      rewrite Y; [reflexivity|tauto|].
      intros E. apply T. now left.
Qed.

(** C4, as the code has it.  The pattern reads fences by position: a
    stretch of retained text opens where three backticks are followed by
    nothing, bash or sh and then a line break, and runs to the next three
    backticks; the reading goes on behind them.  The dependencies of any
    text are the non-blank lines of its stretches, trimmed, stretch after
    stretch in order; all other text is ignored.  The dependencies of a
    step are those of the body of its Dependencies subsection.  In a
    subsection made of blocks whose opening fence carries no tag or the
    tag bash or sh, with prose before, between and after them, the
    stretches are the blocks: the prose contributes nothing, and a
    subsection of prose alone gives no entry.  No stretch opens at a fence
    with another tag, such as python. *)
Theorem dependencies_from_listed_fences
    (text : str) (blocks : list block) (closing : str)
    (word rest : str) :
  commands text = flat_map entries (fenced_stretches text)
  /\ (forall content m body,
        search deps_pattern content = Some m ->
        group m 1 = Some body ->
        extract_dependencies content
        = inr (flat_map entries (fenced_stretches body)))
  /\ (Forall well_fenced blocks -> backtick_free closing ->
      fenced_stretches (subsection_text blocks closing) = map inner blocks
      /\ commands (subsection_text blocks closing)
         = flat_map (fun blk => entries (inner blk)) blocks)
  /\ (~ listed_tag word -> ~ In NL word ->
      stretch_at (py "```" ++ word ++ NL :: rest) = None).
Proof.
  assert (A : forall t, commands t = flat_map entries (fenced_stretches t)).
  { intros t. unfold commands, findall1, finditer, fenced_stretches.
    rewrite (stretches_scan (length t)) by (simpl; lia). reflexivity. }
  split; [apply A|]. split; [|split].
  - intros content m body S G. unfold extract_dependencies, group_str.
    rewrite S, G. cbn [bind ret]. now rewrite A.
  - intros W C.
    assert (S : fenced_stretches (subsection_text blocks closing)
                = map inner blocks).
    { unfold fenced_stretches.
      rewrite <- (stretches_scan _ _ [] 0) by (simpl; lia).
      apply findall_blocks; auto. }
    split; [exact S|]. rewrite A, S. clear.
    induction blocks as [|blk blocks IH]; [reflexivity|].
    cbn [map flat_map]. now rewrite IH.
  - apply other_tag_opens_nothing.
Qed.

End Dependencies.

(** ** Validation always returns, short of the digit limit of [int] *)

Section Totality.
Context {I : Interpreter}.

Lemma group_str_bound m n :
  group m n <> None -> exists g, group_str m n = inr g.
Proof. unfold group_str. destruct (group m n); [eauto|congruence]. Qed.

Lemma search_binds r s m n :
  search r s = Some m -> binds r n = true -> exists g, group_str m n = inr g.
Proof.
  intros S B. apply search_inv in S. destruct S as (w & rest & _ & S).
  apply group_str_bound. eapply match_here_binds; eauto.
Qed.

Tactic Notation "searched" ident(H) :=
  match goal with
  | |- context [search ?r ?s] =>
      destruct (search r s) as [m|] eqn:H; [|eexists; reflexivity]
  end.

Lemma extract_task_total s : exists x, extract_task s = inr x.
Proof.
  unfold extract_task. searched S.
  destruct (search_binds _ _ _ 1 S eq_refl) as (g & ->). eexists. reflexivity.
Qed.

Lemma extract_dependencies_total s : exists x, extract_dependencies s = inr x.
Proof.
  unfold extract_dependencies. searched S.
  destruct (search_binds _ _ _ 1 S eq_refl) as (g & ->). eexists. reflexivity.
Qed.

Lemma extract_save_as_total s : exists x, extract_save_as s = inr x.
Proof.
  unfold extract_save_as. searched S.
  destruct (search_binds _ _ _ 1 S eq_refl) as (g & ->). eexists. reflexivity.
Qed.

Lemma extract_success_criteria_total s :
  exists x, extract_success_criteria s = inr x.
Proof.
  unfold extract_success_criteria. searched S.
  destruct (search_binds _ _ _ 1 S eq_refl) as (g & ->). eexists. reflexivity.
Qed.

Lemma extract_flexibility_total s : exists x, extract_flexibility s = inr x.
Proof.
  unfold extract_flexibility. searched S.
  destruct (search_binds _ _ _ 2 S eq_refl) as (g & ->). eexists. reflexivity.
Qed.

Lemma extract_constraints_total s : exists x, extract_constraints s = inr x.
Proof.
  unfold extract_constraints. searched S.
  destruct (search_binds _ _ _ 1 S eq_refl) as (g & ->). eexists. reflexivity.
Qed.

Lemma extract_error_handling_total s :
  exists x, extract_error_handling s = inr x.
Proof.
  unfold extract_error_handling. searched S.
  destruct (search_binds _ _ _ 1 S eq_refl) as (g & ->). eexists. reflexivity.
Qed.

Lemma parse_step_total number title body :
  exists step, _parse_step number title body = inr step.
Proof.
  unfold _parse_step.
  destruct (extract_task_total body) as (? & ->).
  destruct (extract_dependencies_total body) as (? & ->).
  destruct (extract_save_as_total body) as (? & ->).
  destruct (extract_success_criteria_total body) as (? & ->).
  destruct (extract_flexibility_total body) as (? & ->).
  destruct (extract_constraints_total body) as (? & ->).
  destruct (extract_error_handling_total body) as (? & ->).
  eexists. reflexivity.
Qed.

(** *** The Meta section *)

Lemma split_once_In sep (s : str) :
  In sep s -> exists a b, split_once sep s = [a; b].
Proof.
  induction s as [|c t IH]; [contradiction|]. simpl.
  destruct (N.eqb_spec c sep) as [->|N]; [eauto|].
  intros [E|H]; [congruence|].
  destruct (IH H) as (a & b & ->). eauto.
Qed.

Lemma meta_loop_total lines : forall d, exists d', meta_loop lines d = inr d'.
Proof.
  induction lines as [|line lines IH]; intros d; cbn [meta_loop];
    [eexists; reflexivity|].
  destruct (contains (py ":") line) eqn:C; [|apply IH].
  apply (contains_one (ord ":")) in C.
  destruct (split_once_In _ _ C) as (a & b & ->).
  cbn [unpack2 bind ret]. apply IH.
Qed.

Lemma extract_meta_total s : exists x, extract_meta s = inr x.
Proof.
  unfold extract_meta. searched S.
  destruct (search_binds _ _ _ 1 S eq_refl) as (g & ->). cbn [bind].
  unfold _parse_meta.
  destruct (meta_loop_total (split_on NL (strip g)) []) as (d & ->).
  eexists. reflexivity.
Qed.

Lemma extract_title_total s : exists x, extract_title s = inr x.
Proof.
  unfold extract_title. searched S.
  destruct (search_binds _ _ _ 1 S eq_refl) as (g & ->). eexists. reflexivity.
Qed.

Lemma extract_context_total s : exists x, extract_context s = inr x.
Proof.
  unfold extract_context. searched S.
  destruct (search_binds _ _ _ 1 S eq_refl) as (g & ->). eexists. reflexivity.
Qed.

Lemma extract_finalization_total s : exists x, extract_finalization s = inr x.
Proof.
  unfold extract_finalization. searched S.
  destruct (search_binds _ _ _ 1 S eq_refl) as (g & ->). eexists. reflexivity.
Qed.

(** *** The step headings *)

Lemma digits_value_total s : forall acc,
  forallb isdecimal s = true -> exists z, digits_value acc s = inr z.
Proof.
  induction s as [|c t IH]; intros acc H; simpl; [eauto|].
  simpl in H. apply andb_true_iff in H. destruct H as [Hc H].
  unfold isdecimal in Hc. destruct (decimal c); [|discriminate]. auto.
Qed.

Lemma int_total s :
  s <> [] -> forallb isdecimal s = true ->
  int_max_str_digits = 0 \/ length s <= int_max_str_digits ->
  exists z, int s = inr z.
Proof.
  intros N D L. unfold int. destruct s as [|c t]; [congruence|].
  replace ((0 <? int_max_str_digits)
           && (int_max_str_digits <? length (c :: t))) with false.
  - now apply digits_value_total.
  - symmetry. apply andb_false_iff. destruct L as [L|L].
    + left. rewrite L. reflexivity.
    + right. apply Nat.ltb_ge. exact L.
Qed.

(** The number of a step heading is a run of decimal digits. *)
Lemma step_number_digits b rest m :
  match_here step_pattern b rest = Some m ->
  exists g, group m 1 = Some g /\ g <> [] /\ forallb isdecimal g = true.
Proof.
  intros H. apply match_here_inv in H. destruct H as (b' & rest' & H & _).
  unfold step_pattern in H.
  rewrite run_cat_cons in H. apply run_inv in H.
  destruct H as (w1 & r1 & c1 & H & -> & _).
  rewrite run_cat_cons in H. apply run_inv in H.
  destruct H as (w2 & r2 & c2 & H & -> & _).
  rewrite run_cat_cons in H. apply run_inv in H.
  destruct H as (w3 & r3 & c3 & H & -> & _).
  rewrite run_cat_cons in H. apply run_inv in H.
  destruct H as (w4 & r4 & c4 & H & -> & _).
  rewrite run_cat_cons in H. cbn [run] in H. apply rep_inv in H.
  destruct H as (g & r5 & -> & D & L & H).
  apply run_inv in H. destruct H as (w6 & r6 & c6 & H & _ & _ & _ & Mn).
  exists g. unfold group. injection H as _ _ <-.
  rewrite (Mn 1) by reflexivity. cbn [lookup Nat.eqb].
  split; [|split; [|exact D]].
  - f_equal. rewrite length_app, length_rev, Nat.add_sub.
    rewrite firstn_app, firstn_all, Nat.sub_diag. cbn [firstn].
    apply app_nil_r.
  - destruct g; [simpl in L; lia|discriminate].
Qed.

Lemma mapM_total {A B} (f : A -> M B) l :
  Forall (fun a => exists b, f a = inr b) l -> exists bs, mapM f l = inr bs.
Proof.
  induction 1 as [|a l (b & Hb) _ (bs & IH)]; simpl; [eauto|].
  rewrite Hb, IH. simpl. eauto.
Qed.

Lemma step_of_match_total b rest m :
  match_here step_pattern b rest = Some m ->
  (int_max_str_digits = 0
   \/ forall g, group m 1 = Some g -> length g <= int_max_str_digits) ->
  exists step, step_of_match m = inr step.
Proof.
  intros H L. unfold step_of_match.
  destruct (step_number_digits _ _ _ H) as (g & G & N & D).
  unfold group_str at 1. rewrite G. cbn [bind ret].
  destruct (int_total g N D) as (z & ->).
  { destruct L as [L|L]; auto. }
  cbn [bind].
  destruct (group_str_bound m 2) as (t & ->);
    [eapply match_here_binds; [exact H|reflexivity]|].
  destruct (group_str_bound m 3) as (c & ->);
    [eapply match_here_binds; [exact H|reflexivity]|].
  cbn [bind]. apply parse_step_total.
Qed.

(** C1, as the code has it: parsing yields a document and [validate]
    returns a result for every text in which no step heading carries a
    number of more digits than [int] converts; where the interpreter sets
    no such limit, that is every text. *)
Theorem validation_total (content : str) :
  (int_max_str_digits = 0
   \/ forall m g, In m (finditer step_pattern content) ->
                  group m 1 = Some g -> length g <= int_max_str_digits) ->
  exists v, _parse_document (new content) = inr v
            /\ validate (new content) = inr (report v).
Proof.
  intros L.
  assert (P : exists v, _parse_document (new content) = inr v).
  { unfold _parse_document. cbn [WorkflowValidator.content new].
    destruct (extract_title_total content) as (? & ->).
    destruct (extract_meta_total content) as (? & ->).
    destruct (extract_context_total content) as (? & ->).
    assert (S : exists steps, extract_steps content = inr steps).
    { unfold extract_steps. apply mapM_total. rewrite Forall_forall.
      intros m Hm. pose proof Hm as Hm'.
      apply finditer_from_inv in Hm'. destruct Hm' as (w & rest & _ & Hm').
      eapply step_of_match_total; [exact Hm'|].
      destruct L as [L|L]; [auto|]. right. intros g. now apply L. }
    destruct S as (? & ->).
    destruct (extract_finalization_total content) as (? & ->).
    eexists. reflexivity. }
  destruct P as (v & P). exists v. split; [exact P|].
  now apply validate_parsed.
Qed.

(** C2: a text that parses to the title Deploy Service, the single Meta
    entry version 1.0, one step numbered 1 with a task of at least 10
    characters, the default flexibility level, the Save-as path
    /tmp/out.json and one success criterion, and a Finalization text that
    is not empty, validates with no error and no warning. *)
Theorem well_formed_document_valid
    (content : str) (v : self) (step : Step.t) (t c f : str) :
  _parse_document (new content) = inr v ->
  title v = Some (py "Deploy Service") ->
  meta v = [(py "version", py "1.0")] ->
  steps v = [step] ->
  Step.number step = 1%Z ->
  Step.task step = Some t -> 10 <= length t ->
  Step.flexibility_level step = py "guided" ->
  Step.save_as step = Some (py "/tmp/out.json") ->
  Step.success_criteria step = [c] ->
  finalization v = Some f -> f <> [] ->
  exists r, validate (new content) = inr r
            /\ ValidationResult.valid r = true
            /\ ValidationResult.errors r = []
            /\ ValidationResult.warnings r = [].
Proof.
  intros P Ti Me St Nu Ta Le Fl Sa Cr Fi Ne.
  exists (report v). split; [now apply validate_parsed|].
  apply parse_keeps in P. destruct P as (_ & E & W).
  assert (Tt : truthy (Step.task step) = true).
  { rewrite Ta. destruct t; [simpl in Le; lia|reflexivity]. }
  assert (Lt : (len_of (Step.task step) <? 10) = false).
  { rewrite Ta. simpl. apply Nat.ltb_ge. exact Le. }
  assert (Tf : truthy (finalization v) = true).
  { rewrite Fi. destruct f; [congruence|reflexivity]. }
  assert (AE : all_errors v = []).
  { unfold all_errors, structure_errors, step_errors. rewrite Ti, St.
    cbn [truthy nonempty flat_map map app]. rewrite Tt, Fl, Nu. reflexivity. }
  assert (AW : all_warnings v = []).
  { unfold all_warnings, structure_warnings, step_warnings. rewrite Me, St, Tf.
    cbn [flat_map map app length]. rewrite Tt, Lt, Sa, Cr, Nu. reflexivity. }
  unfold report. cbn. rewrite E, W, AE, AW. repeat split.
Qed.

End Totality.

(** * The claims on the documents *)

(** C1 fails on a text whose step heading carries a number of 4301
    digits, one more than [int] converts by default: the run ends in a
    ValueError instead of a result. *)
Lemma long_step_number_raises :
  validate (I := cpython) (new long_number_doc) = inl ValueError.
Proof. vm_compute. reflexivity. Qed.

Lemma validation_total_deploy :
  exists v, _parse_document (I := cpython) (new deploy_doc) = inr v
            /\ validate (I := cpython) (new deploy_doc) = inr (report v).
Proof.
  apply (validation_total (I := cpython) deploy_doc).
  right. intros m g Hm Hg. vm_compute in Hm.
  destruct Hm as [<-|[]]. vm_compute in Hg. injection Hg as <-.
  apply Nat.leb_le. vm_compute. reflexivity.
Defined.

Lemma deploy_doc_valid :
  exists r, validate (I := cpython) (new deploy_doc) = inr r
            /\ ValidationResult.valid r = true
            /\ ValidationResult.errors r = []
            /\ ValidationResult.warnings r = [].
Proof.
  apply (well_formed_document_valid (I := cpython) deploy_doc
           (parsed deploy_doc)
           (hd (Step.Build_t 0 [] None [] None [] None [] [] [])
               (steps (parsed deploy_doc)))
           (py "Build the container image") (py "image exists")
           (py "Report the result"));
    try (vm_compute; reflexivity).
  - apply Nat.leb_le. vm_compute. reflexivity.
  - discriminate.
Defined.

(** C3 fails on a heading with the label in small letters: the label
    stays in the title. *)
Lemma lowercase_label_kept :
  extract_title (py "# workflow: Deploy") = inr (Some (py "workflow: Deploy"))
  /\ extract_title (py "# workflow: Deploy") <> inr (Some (py "Deploy"))
  /\ ValidationResult.title
       (ValidationResult.info (outcome (py "# workflow: Deploy")))
     = Some (py "workflow: Deploy").
Proof.
  split; [|split]; try (vm_compute; reflexivity).
  vm_compute. discriminate.
Qed.

Lemma title_label_deploy :
  extract_title (py "intro" ++ NL :: py "# Workflow: " ++ py "Deploy Service"
                 ++ NL :: py "## Meta")
  = inr (Some (strip (py "Deploy Service")))
  /\ (startswith (py "Workflow:") (py "Deploy Service") = false ->
      extract_title (py "intro" ++ NL :: py "# " ++ py "Deploy Service"
                     ++ NL :: py "## Meta")
      = inr (Some (strip (py "Deploy Service")))).
Proof.
  apply (title_label_case_sensitive (py "intro" ++ [NL]) (py "Deploy Service")
           (NL :: py "## Meta"));
    try (vm_compute; reflexivity).
  discriminate.
Defined.

(** C4 fails on a block tagged python: nothing of it is retained.  Its
    closing fence, followed by a line break, is read as an opening one, so
    that the prose behind it is retained and the block after the prose is
    not. *)
Lemma python_block_dropped :
  commands (py "```python" ++ NL :: py "pip install x" ++ NL :: py "```") = []
  /\ extract_dependencies python_block_step = inr []
  /\ commands shifted_fences = [py "B"]
  /\ extract_dependencies shifted_fences_step = inr [py "B"].
Proof. repeat split; vm_compute; reflexivity. Qed.

Lemma dependencies_of_two_blocks :
  (fenced_stretches (subsection_text two_blocks (NL :: py "and wait."))
   = [py "pip install x" ++ NL :: NL :: py "  npm ci" ++ [NL];
      py "make" ++ [NL]]
   /\ commands (subsection_text two_blocks (NL :: py "and wait."))
      = [py "pip install x"; py "npm ci"; py "make"])
  /\ extract_dependencies two_blocks_step
     = inr [py "pip install x"; py "npm ci"; py "make"].
Proof.
  split.
  - apply (proj1 (proj2 (proj2 (dependencies_from_listed_fences
                                  [] two_blocks (NL :: py "and wait.")
                                  (py "python") [])))).
    + constructor; [|constructor; [|constructor]].
      * split; [vm_compute; reflexivity|]. split; [|vm_compute; reflexivity].
        right. left. reflexivity.
      * split; [vm_compute; reflexivity|]. split; [|vm_compute; reflexivity].
        left. reflexivity.
    + vm_compute. reflexivity.
  - refine (proj1 (proj2 (dependencies_from_listed_fences
                            [] two_blocks (NL :: py "and wait.")
                            (py "python") []))
              two_blocks_step _
              (subsection_text two_blocks (NL :: py "and wait.")) _ _).
    + vm_compute. reflexivity.
    + vm_compute. reflexivity.
Defined.


(** C5 fails on a line with a condition, an arrow and no action: the line
    is accepted, with an empty action. *)
Lemma empty_action_accepted :
  error_entry (py "- timeout ->")
  = Some {| condition := py "timeout"; action := [] |}
  /\ extract_error_handling no_action_step
     = inr [ {| condition := py "timeout"; action := [] |} ].
Proof. split; vm_compute; reflexivity. Qed.

Lemma error_handling_retry :
  error_entry (py "  - timeout -> retry")
  = Some {| condition := strip (py "timeout ");
            action := strip (py " retry") |}.
Proof.
  apply (proj1 (proj2 (proj2 (error_handling_pairs (I := cpython))))
           (py "  - timeout -> retry") (py "timeout ") (py "->") (py " retry")).
  - right. reflexivity.
  - split; vm_compute; reflexivity.
  - split; vm_compute; reflexivity.
  - vm_compute. reflexivity.
Defined.

(** C6 fails on a document with a section after the Finalization section:
    the text taken includes the later section. *)
Lemma finalization_takes_appendix :
  extract_finalization appendix_doc
  = inr (Some (py "Done" ++ NL :: py "## Appendix" ++ NL :: py "extra")).
Proof. vm_compute. reflexivity. Qed.

Lemma finalization_of_appendix_doc :
  extract_finalization
    (py "notes" ++ [NL] ++ py "## Finalization"
     ++ NL :: py "Done" ++ NL :: py "## Appendix" ++ NL :: py "extra")
  = inr (Some (strip (py "Done" ++ NL :: py "## Appendix" ++ NL :: py "extra")))
  /\ (extract_finalization appendix_doc
      = inr (Some (py "Done" ++ NL :: py "## Appendix" ++ NL :: py "extra")) ->
      exists head sp1 name sp2 tail,
        appendix_doc = head ++ py "##" ++ sp1 ++ name ++ sp2 ++ NL :: tail
        /\ forallb isspace sp1 = true /\ sp1 <> []
        /\ same_letters "Finalization" name
        /\ forallb isspace sp2 = true
        /\ py "Done" ++ NL :: py "## Appendix" ++ NL :: py "extra"
           = strip tail).
Proof.
  apply (finalization_runs_to_end (py "notes" ++ [NL])
           (py "Done" ++ NL :: py "## Appendix" ++ NL :: py "extra")
           appendix_doc
           (py "Done" ++ NL :: py "## Appendix" ++ NL :: py "extra"));
    vm_compute; reflexivity.
Defined.


(** * Further properties *)

(** ** What makes a document valid *)

Section Validity.
Context {I : Interpreter}.

Lemma existsb_str_eqb (x : str) (l : list str) :
  existsb (str_eqb x) l = true <-> In x l.
Proof.
  rewrite existsb_exists. unfold str_eqb. split.
  - intros (y & Hy & E). destruct (list_eq_dec N.eq_dec x y); [|discriminate].
    now subst.
  - intros H. exists x. split; [exact H|].
    now destruct (list_eq_dec N.eq_dec x x).
Qed.

Lemma flat_map_nil {A B} (f : A -> list B) (l : list A) :
  flat_map f l = [] <-> Forall (fun a => f a = []) l.
Proof.
  induction l as [|a l IH]; simpl.
  - split; [constructor|reflexivity].
  - split.
    + intros H. apply app_eq_nil in H. destruct H as [H1 H2].
      constructor; [exact H1|now apply IH].
    + intros H. inversion H as [|? ? H1 H2]; subst.
      rewrite H1. now apply IH.
Qed.

Lemma step_errors_nil step :
  step_errors step = []
  <-> truthy (Step.task step) = true
      /\ In (Step.flexibility_level step) VALID_FLEXIBILITY_LEVELS.
Proof.
  unfold step_errors. rewrite <- existsb_str_eqb.
  destruct (truthy (Step.task step));
    destruct (existsb (str_eqb (Step.flexibility_level step))
                      VALID_FLEXIBILITY_LEVELS);
    simpl; split; try tauto; try discriminate;
    intros [? ?]; discriminate.
Qed.

Lemma structure_errors_nil v :
  structure_errors v = [] <-> truthy (title v) = true /\ steps v <> [].
Proof.
  unfold structure_errors.
  destruct (truthy (title v)); destruct (steps v); simpl; split;
    try discriminate; try (intros [? ?]; congruence).
  intros _. split; [reflexivity|discriminate].
Qed.

Lemma flow_errors_nil numbers :
  flow_errors numbers = [] <-> NoDup numbers.
Proof.
  unfold flow_errors. destruct numbers as [|n ns]; [split; [constructor|auto]|].
  rewrite <- length_set_of_iff.
  destruct (Nat.eqb_spec (length (n :: ns)) (length (set_of (n :: ns))));
    split; try tauto; try discriminate.
Qed.

(** A run reports the document valid if and only if it has a title that
    is not empty, at least one step, in every step a task that is not
    empty and one of the three flexibility levels, and no declared step
    number twice.  Nothing else bears on validity: no warning, no Save-as
    path, no Meta, Context or Finalization section. *)
Theorem valid_iff (content : str) (v : self) (r : ValidationResult.t) :
  _parse_document (new content) = inr v ->
  validate (new content) = inr r ->
  ValidationResult.valid r = true
  <-> truthy (title v) = true
      /\ steps v <> []
      /\ Forall (fun step =>
                   truthy (Step.task step) = true
                   /\ In (Step.flexibility_level step) VALID_FLEXIBILITY_LEVELS)
                (steps v)
      /\ NoDup (map Step.number (steps v)).
Proof.
  intros P H. apply validate_new in H. destruct H as (v' & P' & _ & _ & V & _).
  rewrite P in P'. injection P' as <-. rewrite V.
  rewrite Nat.eqb_eq, length_zero_iff_nil. unfold all_errors.
  split.
  - intros H. apply app_eq_nil in H. destruct H as [H1 H].
    apply app_eq_nil in H. destruct H as [H2 H3].
    apply structure_errors_nil in H1. destruct H1 as [T S].
    split; [exact T|]. split; [exact S|]. split.
    + apply flat_map_nil in H2. eapply Forall_impl; [|exact H2].
      intros step. apply step_errors_nil.
    + now apply flow_errors_nil.
  - intros (T & S & F & N).
    rewrite (proj2 (structure_errors_nil v)) by auto.
    rewrite (proj2 (flat_map_nil _ _)).
    + now apply flow_errors_nil.
    + eapply Forall_impl; [|exact F]. intros step. apply step_errors_nil.
Qed.

(** *** The summary agrees with the messages *)

Lemma In_all_errors v x :
  hd_error x <> Some 83%N -> x <> DUPLICATES ->
  In x (all_errors v) <-> In x (structure_errors v).
Proof.
  intros Hs Hd. unfold all_errors. rewrite !in_app_iff. split; [|tauto].
  intros [H|[H|H]]; [exact H| |]; exfalso.
  - revert H. apply not_In_step_messages; [|exact Hs].
    apply Forall_flat_map. apply step_errors_are_step_messages.
  - unfold flow_errors in H. destruct (map Step.number (steps v)); [exact H|].
    destruct (_ =? _); [exact H|]. destruct H as [H|[]]. congruence.
Qed.

Lemma In_all_warnings v x :
  hd_error x <> Some 83%N -> x <> GAP ->
  In x (all_warnings v) <-> In x (structure_warnings v).
Proof.
  intros Hs Hg. unfold all_warnings. rewrite !in_app_iff. split; [|tauto].
  intros [H|[H|H]]; [exact H| |]; exfalso.
  - revert H. apply not_In_step_messages; [|exact Hs].
    apply Forall_flat_map. apply step_warnings_are_step_messages.
  - unfold flow_warnings in H. destruct (map Step.number (steps v)); [exact H|].
    apply in_app_iff in H. destruct H as [H|H].
    + destruct (list_eqb _ _); [exact H|]. destruct H as [H|[]].
      refine (step_message_neq _ _ (NOT_SEQUENTIAL_step_message _ _) Hs H).
    + destruct (gap_found _); [|exact H]. destruct H as [H|[]]. congruence.
Qed.

(** The summary of a run and its structural messages say the same: the
    missing-title error is reported exactly when [info.title] is absent
    or empty, the no-step error exactly when [info.step_count] is 0, and
    the Finalization advice exactly when [info.has_finalization] is
    false. *)
Theorem summary_agrees_with_messages (content : str) (r : ValidationResult.t) :
  validate (new content) = inr r ->
  (In MISSING_TITLE (ValidationResult.errors r)
   <-> truthy (ValidationResult.title (ValidationResult.info r)) = false)
  /\ (In NO_STEPS (ValidationResult.errors r)
      <-> ValidationResult.step_count (ValidationResult.info r) = 0)
  /\ (In NO_FINALIZATION (ValidationResult.warnings r)
      <-> ValidationResult.has_finalization (ValidationResult.info r) = false).
Proof.
  intros H. apply validate_new in H.
  destruct H as (v & _ & E & W & _ & Inf). rewrite E, W, Inf. cbn.
  rewrite !In_all_errors by (vm_compute; discriminate).
  rewrite In_all_warnings by (vm_compute; discriminate).
  unfold structure_errors, structure_warnings. rewrite !in_app_iff.
  split; [|split].
  - destruct (truthy (title v)); simpl.
    + split; [|discriminate]. intros [[]|H].
      destruct (steps v); [|contradiction].
      destruct H as [H|[]]. vm_compute in H. discriminate H.
    + split; auto.
  - destruct (steps v) as [|s l]; simpl.
    + split; auto.
    + split; [|discriminate]. intros [H|[]].
      destruct (truthy (title v)); [contradiction|].
      destruct H as [H|[]]. vm_compute in H. discriminate H.
  - destruct (truthy (finalization v)); simpl.
    + split; [|discriminate]. intros [H|[]].
      destruct (meta v); [|contradiction].
      destruct H as [H|[]]. vm_compute in H. discriminate H.
    + split; auto.
Qed.

End Validity.

(** ** Texts without a heading *)

Section NoHeading.
Context {I : Interpreter}.

(** A search finds nothing in a text of characters the pattern cannot
    start with, when the pattern needs a character. *)
Lemma search_rejected r (s : str) :
  forallb (rejects_after r) s = true ->
  (forall b, match_here r b [] = None) ->
  search r s = None.
Proof.
  intros R E. unfold search. rewrite <- (app_nil_r s).
  rewrite search_from_skip_after by exact R. simpl. now rewrite E.
Qed.

Lemma finditer_rejected r (s : str) :
  forallb (rejects r) s = true ->
  (forall b, match_here r b [] = None) ->
  finditer r s = [].
Proof.
  intros R E. unfold finditer. rewrite <- (app_nil_r s).
  rewrite finditer_from_skip.
  - apply finditer_from_nil. apply E.
  - intros w1 c w2 ->. apply match_here_rejects.
    rewrite forallb_forall in R. apply R. apply in_elt.
Qed.

Lemma folds_hash c : folds 35 c = (c =? ord "#")%N.
Proof. apply folds_symbol; (reflexivity || discriminate). Qed.

Lemma rejects_after_of_rejects r c :
  rejects r c = true -> rejects_after r c = true.
Proof. destruct r; simpl; auto. intros ->. reflexivity. Qed.

Lemma no_hash_rejects r (s : str) :
  (forall c, rejects_after r c = negb (c =? ord "#")%N
             \/ rejects r c = negb (c =? ord "#")%N) ->
  no_hash s -> forallb (rejects_after r) s = true.
Proof.
  intros E H. unfold no_hash in H. rewrite forallb_forall in *.
  intros c Hc. destruct (E c) as [Ec|Ec].
  - rewrite Ec. auto.
  - apply rejects_after_of_rejects. rewrite Ec. auto.
Qed.

(** A text without a number sign has no heading of any level: the run
    returns, with the two structural errors, the two advisory warnings and
    an empty summary, whatever else the text holds.  The empty text is one
    such text. *)
Theorem text_without_headings (content : str) :
  no_hash content ->
  validate (new content)
  = inr {| ValidationResult.valid := false;
           ValidationResult.errors := [MISSING_TITLE; NO_STEPS];
           ValidationResult.warnings := [NO_META; NO_FINALIZATION];
           ValidationResult.info :=
             {| ValidationResult.title := None;
                ValidationResult.step_count := 0;
                ValidationResult.has_meta := false;
                ValidationResult.has_context := false;
                ValidationResult.has_finalization := false |} |}.
Proof.
  intros H.
  assert (T : search title_pattern content = None).
  { apply search_rejected.
    - apply no_hash_rejects; [|exact H]. intros c.
      left. change (rejects_after title_pattern c) with (negb (35 =? c)%N).
      now rewrite N.eqb_sym.
    - intros [|c b]; [reflexivity|].
      unfold match_here, title_pattern. rewrite run_cat_cons. cbn [run].
      destruct (c =? NL)%N; reflexivity. }
  assert (Me : search meta_pattern content = None).
  { apply search_rejected; [|reflexivity].
    apply no_hash_rejects; [|exact H]. intros c.
    right. change (rejects meta_pattern c) with (negb (folds 35 c)).
    now rewrite folds_hash. }
  assert (C : search context_pattern content = None).
  { apply search_rejected; [|reflexivity].
    apply no_hash_rejects; [|exact H]. intros c.
    right. change (rejects context_pattern c) with (negb (folds 35 c)).
    now rewrite folds_hash. }
  assert (F : search finalization_pattern content = None).
  { apply search_rejected; [|reflexivity].
    apply no_hash_rejects; [|exact H]. intros c.
    right. change (rejects finalization_pattern c) with (negb (folds 35 c)).
    now rewrite folds_hash. }
  assert (S : finditer step_pattern content = []).
  { apply finditer_rejected; [|reflexivity].
    unfold no_hash in H. rewrite forallb_forall in *. intros c Hc.
    change (rejects step_pattern c) with (negb (folds 35 c)).
    rewrite folds_hash. auto. }
  assert (P : _parse_document (new content) = inr (new content)).
  { unfold _parse_document, extract_title, extract_meta, extract_context,
      extract_steps, extract_finalization.
    cbn [WorkflowValidator.content new]. rewrite T, Me, C, F, S. reflexivity. }
  rewrite (validate_parsed _ _ P). reflexivity.
Qed.

End NoHeading.

(** ** The numbering of the steps *)

Section Numbering.
Context {I : Interpreter}.

Lemma insert_sorted_perm x l : Permutation (insert_sorted x l) (x :: l).
Proof.
  induction l as [|y t IH]; simpl; [reflexivity|].
  destruct (x <? y)%Z; [reflexivity|].
  rewrite IH. apply perm_swap.
Qed.

Lemma sorted_perm l : Permutation (sorted l) l.
Proof.
  induction l as [|x t IH]; simpl; [reflexivity|].
  rewrite insert_sorted_perm. now constructor.
Qed.

Lemma insert_sorted_comm x y l :
  insert_sorted x (insert_sorted y l) = insert_sorted y (insert_sorted x l).
Proof.
  induction l as [|z t IH]; simpl.
  - destruct (Z.ltb_spec x y), (Z.ltb_spec y x); try reflexivity; try lia.
    assert (x = y) by lia. now subst.
  - destruct (Z.ltb_spec y z), (Z.ltb_spec x z); simpl;
      repeat match goal with
             | |- context [(?a <? ?b)%Z] => destruct (Z.ltb_spec a b)
             end; try reflexivity; try lia.
    + assert (x = y) by lia. now subst.
    + now rewrite IH.
Qed.

Lemma sorted_of_perm l l' : Permutation l l' -> sorted l = sorted l'.
Proof.
  induction 1; simpl; try congruence. apply insert_sorted_comm.
Qed.

Lemma range_from_ge a n x : In x (range_from a n) -> (a <= x)%Z.
Proof.
  revert a. induction n as [|n IH]; intros a; simpl; [contradiction|].
  intros [<-|H]; [lia|]. apply IH in H. lia.
Qed.

Lemma sorted_range a n : sorted (range_from a n) = range_from a n.
Proof.
  revert a. induction n as [|n IH]; intros a; simpl; [reflexivity|].
  rewrite IH. destruct n; simpl; [reflexivity|].
  destruct (Z.ltb_spec a (a + 1)); [reflexivity|lia].
Qed.

Lemma NoDup_range a n : NoDup (range_from a n).
Proof.
  revert a. induction n as [|n IH]; intros a; simpl; constructor; [|apply IH].
  intros H. apply range_from_ge in H. lia.
Qed.

Lemma gap_found_range a n : gap_found (range_from a n) = false.
Proof.
  revert a. induction n as [|n IH]; intros a; [reflexivity|].
  specialize (IH (a + 1)%Z). destruct n; [reflexivity|].
  change (gap_found (range_from a (S (S n))))
    with ((a + 1 - a >? 1)%Z || gap_found (range_from (a + 1) (S n))).
  rewrite IH. destruct (Z.gtb_spec (a + 1 - a) 1); [lia|reflexivity].
Qed.

Lemma list_eqb_eq a b : list_eqb a b = true <-> a = b.
Proof.
  unfold list_eqb. destruct (list_eq_dec Z.eq_dec a b); split;
    auto; discriminate.
Qed.

Lemma sequential_iff numbers :
  list_eqb (sorted numbers) (range_from 1 (length numbers)) = true
  <-> numbered_from_one numbers.
Proof.
  rewrite list_eqb_eq. unfold numbered_from_one. split.
  - intros E. rewrite <- E. symmetry. apply sorted_perm.
  - intros P. rewrite (sorted_of_perm _ _ P). apply sorted_range.
Qed.

Lemma flow_silent numbers :
  numbered_from_one numbers ->
  flow_errors numbers = [] /\ flow_warnings numbers = [].
Proof.
  intros P. pose proof P as S. apply sequential_iff in S.
  unfold flow_errors, flow_warnings. destruct numbers as [|n ns]; [auto|].
  rewrite S. apply list_eqb_eq in S. rewrite S, gap_found_range.
  split; [|reflexivity].
  assert (N : NoDup (n :: ns)).
  { eapply Permutation_NoDup; [symmetry; exact P|apply NoDup_range]. }
  apply length_set_of_iff in N. rewrite <- N. now rewrite Nat.eqb_refl.
Qed.

(** The flow pass appends nothing exactly when there is no step or the
    declared numbers are 1 to the number of steps in some order; whenever
    it appends anything, an error or a warning, the first warning it
    appends is the not-sequential one: neither the duplicate error nor
    the gap warning comes without it. *)
Theorem flow_pass_silent_iff (v : self) :
  exists v' es ws,
    _validate_step_flow v = inr v'
    /\ errors v' = errors v ++ es /\ warnings v' = warnings v ++ ws
    /\ ((es = [] /\ ws = [])
        <-> (steps v = []
             \/ numbered_from_one (map Step.number (steps v))))
    /\ (es <> [] \/ ws <> [] ->
        hd_error ws
        = Some (NOT_SEQUENTIAL
                  (sorted (map Step.number (steps v)))
                  (range_from 1 (length (steps v))))).
Proof.
  destruct (flow_extends v) as (v' & E & (_ & He & Hw)).
  exists v', (flow_errors (map Step.number (steps v))),
    (flow_warnings (map Step.number (steps v))).
  split; [exact E|]. split; [exact He|]. split; [exact Hw|].
  rewrite <- (length_map Step.number (steps v)).
  remember (map Step.number (steps v)) as ns eqn:Ens.
  assert (Z0 : steps v = [] <-> ns = []).
  { subst ns. destruct (steps v); split; auto; discriminate. }
  split; [split|].
  - intros [_ W]. destruct ns as [|n ns']; [left; now apply Z0|]. right.
    apply sequential_iff. unfold flow_warnings in W.
    destruct (list_eqb _ _); [reflexivity|discriminate].
  - intros [S|P]; [apply Z0 in S; now rewrite S|]. now apply flow_silent.
  - intros H.
    destruct (list_eqb (sorted ns) (range_from 1 (length ns))) eqn:S.
    + apply sequential_iff, flow_silent in S. destruct S as [S1 S2].
      destruct H; contradiction.
    + destruct ns as [|n ns'].
      * destruct H as [H|H]; now elim H.
      * unfold flow_warnings. rewrite S. reflexivity.
Qed.

(** *** Gaps *)

Lemma insert_sorted_strongly x l :
  StronglySorted Z.le l -> StronglySorted Z.le (insert_sorted x l).
Proof.
  induction 1 as [|y t S IH F]; simpl; [repeat constructor|].
  destruct (Z.ltb_spec x y).
  - constructor; [now constructor|]. constructor; [lia|].
    eapply Forall_impl; [|exact F]. intros; lia.
  - constructor; [exact IH|].
    eapply Permutation_Forall; [symmetry; apply insert_sorted_perm|].
    constructor; [lia|exact F].
Qed.

Lemma sorted_strongly l : StronglySorted Z.le (sorted l).
Proof.
  induction l; simpl; [constructor|]. now apply insert_sorted_strongly.
Qed.

(** In an ascending list without a gap, every integer between two of its
    elements is an element. *)
Lemma no_gap_contiguous s :
  StronglySorted Z.le s -> gap_found s = false ->
  forall k a b, In a s -> In b s -> (a <= k <= b)%Z -> In k s.
Proof.
  induction 1 as [|x t S IH F]; intros G k a b Ha Hb K; [contradiction|].
  rewrite Forall_forall in F.
  destruct (Z.eq_dec k x) as [->|N]; [now left|]. right.
  assert (Lx : (x < k)%Z).
  { destruct Ha as [<-|Ha]; [lia|]. apply F in Ha. lia. }
  destruct t as [|y t']; [destruct Ha as [<-|[]]; destruct Hb as [<-|[]]; lia|].
  change (gap_found (x :: y :: t'))
    with ((y - x >? 1)%Z || gap_found (y :: t')) in G.
  apply orb_false_iff in G. destruct G as [G1 G2].
  assert (Ly : (y <= k)%Z) by (destruct (Z.gtb_spec (y - x) 1); [discriminate|lia]).
  apply (IH G2 k y b); [now left| |lia].
  destruct Hb as [<-|Hb]; [lia|exact Hb].
Qed.

Lemma gap_found_missing s :
  StronglySorted Z.le s ->
  gap_found s = true
  <-> exists k a b, In a s /\ In b s /\ (a < k < b)%Z /\ ~ In k s.
Proof.
  intros S. split.
  - induction S as [|x t S IH F]; [discriminate|].
    destruct t as [|y t']; [discriminate|].
    change (gap_found (x :: y :: t'))
      with ((y - x >? 1)%Z || gap_found (y :: t')).
    rewrite Forall_forall in F.
    destruct (Z.gtb_spec (y - x) 1) as [G|G]; simpl.
    + intros _. exists (x + 1)%Z, x, y.
      split; [now left|]. split; [right; now left|]. split; [lia|].
      intros [E|[E|H]]; try lia.
      inversion S as [|? ? _ Fy]; subst. rewrite Forall_forall in Fy.
      apply Fy in H. lia.
    + intros H. apply IH in H. destruct H as (k & a & b & Ha & Hb & K & Nk).
      exists k, a, b. split; [now right|]. split; [now right|].
      split; [exact K|]. intros [E|H]; [|contradiction].
      assert (x <= a)%Z by (apply F; exact Ha). lia.
  - intros (k & a & b & Ha & Hb & K & Nk).
    destruct (gap_found s) eqn:G; [reflexivity|]. exfalso. apply Nk.
    apply (no_gap_contiguous s S G k a b); auto. lia.
Qed.

(** The flow pass appends the gap warning exactly when some integer lies
    strictly between two declared step numbers and is itself not
    declared. *)
Theorem gap_warning_iff_missing_number (v : self) :
  exists v' ws,
    _validate_step_flow v = inr v'
    /\ warnings v' = warnings v ++ ws
    /\ (In GAP ws
        <-> exists k a b,
              In a (map Step.number (steps v))
              /\ In b (map Step.number (steps v))
              /\ (a < k < b)%Z
              /\ ~ In k (map Step.number (steps v))).
Proof.
  destruct (flow_extends v) as (v' & E & (_ & _ & Hw)).
  exists v', (flow_warnings (map Step.number (steps v))).
  split; [exact E|]. split; [exact Hw|].
  remember (map Step.number (steps v)) as ns eqn:Ens.
  assert (G : In GAP (flow_warnings ns) <-> gap_found (sorted ns) = true).
  { unfold flow_warnings. destruct ns as [|n ns'].
    - simpl. split; [contradiction|discriminate].
    - rewrite in_app_iff. split.
      + intros [H|H].
        * destruct (list_eqb _ _); [contradiction|]. destruct H as [H|[]].
          exfalso.
          refine (step_message_neq _ _ (NOT_SEQUENTIAL_step_message _ _) _ H).
          vm_compute. discriminate.
        * destruct (gap_found _); [reflexivity|contradiction].
      + intros ->. right. now left. }
  rewrite G, (gap_found_missing _ (sorted_strongly ns)).
  pose proof (sorted_perm ns) as P.
  split; intros (k & a & b & Ha & Hb & K & Nk); exists k, a, b;
    repeat split; try lia.
  - eapply Permutation_in; eauto.
  - eapply Permutation_in; eauto.
  - intros H. apply Nk. eapply Permutation_in; [symmetry|]; eauto.
  - eapply Permutation_in; [symmetry|]; eauto.
  - eapply Permutation_in; [symmetry|]; eauto.
  - intros H. apply Nk. eapply Permutation_in; eauto.
Qed.

End Numbering.

(** ** The Meta map *)

Section MetaMap.
Context {I : Interpreter}.

Lemma str_eqb_eq a b : str_eqb a b = true <-> a = b.
Proof.
  unfold str_eqb. destruct (list_eq_dec N.eq_dec a b); split;
    auto; discriminate.
Qed.

Lemma str_eqb_refl a : str_eqb a a = true.
Proof. now apply str_eqb_eq. Qed.

Lemma str_eqb_neq a b : a <> b -> str_eqb a b = false.
Proof.
  intros N. destruct (str_eqb a b) eqn:E; [|reflexivity].
  apply str_eqb_eq in E. contradiction.
Qed.

Lemma dict_get_set_same k v d : dict_get k (dict_set k v d) = Some v.
Proof.
  induction d as [|[k' v'] t IH]; simpl.
  - now rewrite str_eqb_refl.
  - destruct (str_eqb k k') eqn:E; simpl.
    + now rewrite str_eqb_refl.
    + now rewrite E.
Qed.

Lemma dict_get_set_other k k' v d :
  k' <> k -> dict_get k' (dict_set k v d) = dict_get k' d.
Proof.
  intros N. induction d as [|[k0 v0] t IH]; simpl.
  - now rewrite str_eqb_neq.
  - destruct (str_eqb k k0) eqn:E; simpl.
    + apply str_eqb_eq in E. subst k0. now rewrite !str_eqb_neq.
    + now rewrite IH.
Qed.

Lemma dict_set_keys k v d x :
  In x (map fst (dict_set k v d)) <-> x = k \/ In x (map fst d).
Proof.
  induction d as [|[k0 v0] t IH]; simpl.
  - intuition.
  - destruct (str_eqb k k0) eqn:E; simpl.
    + apply str_eqb_eq in E. subst k0. intuition.
    + rewrite IH. intuition.
Qed.

Lemma dict_set_NoDup k v d :
  NoDup (map fst d) -> NoDup (map fst (dict_set k v d)).
Proof.
  induction d as [|[k0 v0] t IH]; simpl; intros H.
  - repeat constructor. auto.
  - inversion H as [|? ? Hn Ht]; subst.
    destruct (str_eqb k k0) eqn:E; simpl.
    + apply str_eqb_eq in E. subst k0. now constructor.
    + constructor; [|auto]. rewrite dict_set_keys. intros [->|H'].
      * now rewrite str_eqb_refl in E.
      * contradiction.
Qed.

Lemma dict_set_not_nil k v d : dict_set k v d <> [].
Proof. destruct d as [|[k0 v0] t]; simpl; [|destruct (str_eqb k k0)]; discriminate. Qed.

(** The loop as a fold of [meta_entry]. *)
Lemma meta_loop_fold lines : forall d,
  meta_loop lines d
  = inr (fold_left (fun d line => match meta_entry line with
                                  | Some (k, v) => dict_set k v d
                                  | None => d
                                  end) lines d).
Proof.
  induction lines as [|line lines IH]; intros d; [reflexivity|].
  cbn [meta_loop fold_left]. unfold meta_entry at 2.
  destruct (contains (py ":") line) eqn:C; [|apply IH].
  apply (contains_one (ord ":")) in C.
  destruct (split_once_In _ _ C) as (a & b & ->).
  cbn [unpack2 bind ret fst snd]. apply IH.
Qed.

Lemma fold_entries_NoDup lines : forall d,
  NoDup (map fst d) ->
  NoDup (map fst (fold_left (fun d line => match meta_entry line with
                                           | Some (k, v) => dict_set k v d
                                           | None => d
                                           end) lines d)).
Proof.
  induction lines as [|line lines IH]; intros d H; [exact H|].
  simpl. apply IH. destruct (meta_entry line) as [[k v]|]; [|exact H].
  now apply dict_set_NoDup.
Qed.

Lemma fold_entries_not_nil lines : forall d,
  d <> [] ->
  fold_left (fun d line => match meta_entry line with
                           | Some (k, v) => dict_set k v d
                           | None => d
                           end) lines d <> [].
Proof.
  induction lines as [|line lines IH]; intros d H; [exact H|].
  simpl. apply IH. destruct (meta_entry line) as [[k v]|]; [|exact H].
  apply dict_set_not_nil.
Qed.

Lemma meta_entry_colon line :
  In (ord ":") line -> exists k v, meta_entry line = Some (k, v).
Proof.
  intros H. unfold meta_entry.
  pose proof (proj2 (contains_one (ord ":") line) H) as C.
  change [ord ":"] with (py ":") in C. rewrite C.
  destruct (split_once_In _ _ H) as (a & b & ->). eauto.
Qed.

Lemma fold_entries_colon lines : forall d,
  (exists line, In line lines /\ In (ord ":") line) ->
  fold_left (fun d line => match meta_entry line with
                           | Some (k, v) => dict_set k v d
                           | None => d
                           end) lines d <> [].
Proof.
  induction lines as [|line lines IH]; intros d (l & Hl & Hc); [contradiction|].
  simpl. destruct Hl as [->|Hl].
  - destruct (meta_entry_colon _ Hc) as (k & v & ->).
    apply fold_entries_not_nil, dict_set_not_nil.
  - apply IH. eauto.
Qed.

Lemma In_dropwhile_keep f (c : N) (s : str) :
  In c s -> f c = false -> In c (dropwhile f s).
Proof.
  induction s as [|x t IH]; simpl; [auto|]. intros H F.
  destruct (f x) eqn:E; [|exact H].
  destruct H as [->|H]; [congruence|auto].
Qed.

Lemma In_strip_keep (c : N) (s : str) :
  In c s -> isspace c = false -> In c (strip s).
Proof.
  unfold strip, rstrip, lstrip. intros H F.
  apply in_rev. rewrite rev_involutive.
  apply In_dropwhile_keep; [|exact F].
  apply -> in_rev. now apply In_dropwhile_keep.
Qed.

Lemma split_on_In sep (c : N) (s : str) :
  In c s -> c <> sep -> exists line, In line (split_on sep s) /\ In c line.
Proof.
  induction s as [|x t IH]; [contradiction|]. intros H N. simpl.
  destruct (N.eqb_spec x sep) as [->|Nx].
  - destruct H as [->|H]; [congruence|].
    destruct (IH H N) as (line & Hl & Hc). exists line. simpl. auto.
  - destruct (split_on sep t) as [|w ws] eqn:E.
    + destruct H as [->|H].
      * exists [c]. simpl. auto.
      * destruct (IH H N) as (line & [] & _).
    + destruct H as [->|H].
      * exists (c :: w). simpl. auto.
      * destruct (IH H N) as (line & [<-|Hl] & Hc).
        -- exists (x :: w). simpl. auto.
        -- exists line. simpl. auto.
Qed.

(** The Meta body parses to a map without a repeated key, and the map is
    empty exactly when the body holds no colon: a body of a lone colon
    already counts as metadata. *)
Theorem meta_map_nonempty_iff_colon (body : str) :
  exists d, _parse_meta body = inr d
            /\ NoDup (map fst d)
            /\ (d <> [] <-> In (ord ":") body).
Proof.
  unfold _parse_meta. rewrite meta_loop_fold. eexists. split; [reflexivity|].
  split; [apply fold_entries_NoDup; constructor|]. split.
  - intros H. destruct (in_dec N.eq_dec (ord ":") body) as [Y|Nn]; [exact Y|].
    exfalso. apply H.
    pose proof (parse_meta_no_colon body Nn) as E.
    unfold _parse_meta in E. rewrite meta_loop_fold in E. congruence.
  - intros H. apply fold_entries_colon.
    apply In_strip_keep with (s := body) in H; [|reflexivity].
    apply split_on_In; [exact H|discriminate].
Qed.

Lemma split_once_first sep (k v : str) :
  ~ In sep k -> split_once sep (k ++ sep :: v) = [k; v].
Proof.
  induction k as [|c k IH]; simpl; intros H.
  - now rewrite N.eqb_refl.
  - destruct (N.eqb_spec c sep) as [->|N]; [tauto|].
    rewrite IH by tauto. reflexivity.
Qed.

Lemma meta_entry_line (k v : str) :
  ~ In (ord ":") k ->
  meta_entry (k ++ ord ":" :: v) = Some (lower (strip k), strip v).
Proof.
  intros H. unfold meta_entry.
  pose proof (proj2 (contains_one (ord ":") (k ++ ord ":" :: v))
                (in_elt _ _ _)) as C.
  change [ord ":"] with (py ":") in C. rewrite C.
  now rewrite split_once_first.
Qed.

Lemma fold_entries_keep key lines : forall d,
  (forall line v, In line lines -> meta_entry line <> Some (key, v)) ->
  dict_get key (fold_left (fun d line => match meta_entry line with
                                         | Some (k, v) => dict_set k v d
                                         | None => d
                                         end) lines d)
  = dict_get key d.
Proof.
  induction lines as [|line lines IH]; intros d H; [reflexivity|].
  simpl. rewrite IH by (intros; apply H; now right).
  destruct (meta_entry line) as [[k v]|] eqn:E; [|reflexivity].
  apply dict_get_set_other. intros ->. apply (H line v); [now left|exact E].
Qed.

(** The last line that assigns a key decides its value; the key is the
    text before the first colon, trimmed and in lower case, and the value
    is all that follows that colon, later colons included, trimmed. *)
Theorem meta_last_line_wins (body : str) (d : dict)
    (before after : list str) (key value : str) :
  _parse_meta body = inr d ->
  split_on NL (strip body) = before ++ (key ++ ord ":" :: value) :: after ->
  ~ In (ord ":") key ->
  (forall line v, In line after ->
                  meta_entry line <> Some (lower (strip key), v)) ->
  dict_get (lower (strip key)) d = Some (strip value).
Proof.
  unfold _parse_meta. rewrite meta_loop_fold. intros E L K A.
  injection E as <-. rewrite L, fold_left_app. cbn [fold_left].
  rewrite meta_entry_line by exact K.
  rewrite fold_entries_keep by exact A.
  apply dict_get_set_same.
Qed.

End MetaMap.

(** ** Trimming and splitting *)

Lemma dropwhile_idem f (s : str) : dropwhile f (dropwhile f s) = dropwhile f s.
Proof.
  induction s as [|c t IH]; [reflexivity|]. simpl.
  destruct (f c) eqn:E; [exact IH|]. simpl. now rewrite E.
Qed.

Lemma dropwhile_app_keep f (l : str) (c : N) :
  f c = false -> dropwhile f (l ++ [c]) = dropwhile f l ++ [c].
Proof.
  intros F. induction l as [|x t IH]; simpl; [now rewrite F|].
  destruct (f x); [exact IH|reflexivity].
Qed.

Lemma lstrip_idem s : lstrip (lstrip s) = lstrip s.
Proof. apply dropwhile_idem. Qed.

Lemma rstrip_idem s : rstrip (rstrip s) = rstrip s.
Proof. unfold rstrip. now rewrite rev_involutive, dropwhile_idem. Qed.

Lemma rstrip_cons c t : isspace c = false -> rstrip (c :: t) = c :: rstrip t.
Proof.
  intros F. unfold rstrip. simpl.
  rewrite dropwhile_app_keep by exact F.
  now rewrite rev_app_distr.
Qed.

Lemma lstrip_rstrip x : lstrip x = x -> lstrip (rstrip x) = rstrip x.
Proof.
  intros H. apply lstrip_fixed in H. destruct H as [->|(c & t & -> & F)].
  - reflexivity.
  - rewrite rstrip_cons by exact F. unfold lstrip. simpl. now rewrite F.
Qed.

(** [s.strip().strip() == s.strip()] *)
Lemma strip_idem s : strip (strip s) = strip s.
Proof.
  unfold strip. rewrite lstrip_rstrip by apply lstrip_idem.
  apply rstrip_idem.
Qed.

Lemma split_on_not_nil sep s : split_on sep s <> [].
Proof.
  destruct s as [|c t]; simpl; [discriminate|].
  destruct (c =? sep)%N; [discriminate|].
  destruct (split_on sep t); discriminate.
Qed.

(** No piece of a split holds the separator. *)
Lemma split_on_no_sep sep (s line : str) :
  In line (split_on sep s) -> ~ In sep line.
Proof.
  revert line. induction s as [|c t IH]; simpl; intros line.
  - intros [<-|[]]. auto.
  - destruct (N.eqb_spec c sep) as [->|N].
    + intros [<-|H]; auto.
    + destruct (split_on sep t) as [|w ws] eqn:E.
      * intros [<-|[]] [->|[]]. congruence.
      * intros [<-|H]; [|apply IH; now right].
        intros [->|H]; [congruence|]. apply (IH w); [now left|exact H].
Qed.

Lemma join_cons_head sep (c : N) (w : str) ws :
  join sep ((c :: w) :: ws) = c :: join sep (w :: ws).
Proof. destruct ws; reflexivity. Qed.

Lemma join_split_on (s : str) : join [NL] (split_on NL s) = s.
Proof.
  induction s as [|c t IH]; [reflexivity|]. simpl.
  destruct (N.eqb_spec c NL) as [->|N].
  - pose proof (split_on_not_nil NL t) as Z.
    destruct (split_on NL t) as [|w ws]; [congruence|].
    change (join [NL] ([] :: w :: ws)) with (NL :: join [NL] (w :: ws)).
    now rewrite IH.
  - destruct (split_on NL t) as [|w ws] eqn:E.
    + now elim (split_on_not_nil NL t).
    + rewrite join_cons_head. now rewrite IH.
Qed.

Lemma length_split_on (s : str) :
  length (split_on NL s) = S (count_occ N.eq_dec s NL).
Proof.
  induction s as [|c t IH]; [reflexivity|]. simpl.
  destruct (N.eqb_spec c NL) as [->|N].
  - destruct (N.eq_dec NL NL); [|congruence]. simpl. now rewrite IH.
  - destruct (N.eq_dec c NL); [congruence|].
    destruct (split_on NL t) as [|w ws]; [discriminate IH|]. exact IH.
Qed.

(** The lines that [__init__] keeps are the text cut at its line breaks:
    joined by line breaks they give the text back, and there is one more
    of them than the text has line breaks. *)
Theorem lines_round_trip (content : str) :
  join [NL] (lines (new content)) = content
  /\ length (lines (new content)) = S (count_occ N.eq_dec content NL).
Proof. split; [apply join_split_on|apply length_split_on]. Qed.

(** ** The entries of a Dependencies subsection *)

(** Every dependency entry is a single line, not empty, without white
    space at either end: blank lines inside a block give no entry. *)
Theorem dependency_entries_are_trimmed_lines (text entry : str) :
  In entry (commands text) ->
  entry <> [] /\ strip entry = entry /\ ~ In NL entry.
Proof.
  unfold commands. rewrite in_flat_map. intros (block & _ & H).
  apply in_map_iff in H. destruct H as (cmd & <- & H).
  apply filter_In in H. destruct H as [H N].
  split; [|split].
  - destruct (strip cmd); [discriminate|discriminate].
  - apply strip_idem.
  - intros Hn. apply In_strip in Hn. revert Hn.
    eapply split_on_no_sep. exact H.
Qed.

(** ** What parsing hands to the rules *)

Section Parsed.
Context {I : Interpreter}.

Lemma mapM_Forall {A B} (f : A -> M B) (P : B -> Prop) :
  (forall a b, f a = inr b -> P b) ->
  forall l bs, mapM f l = inr bs -> Forall P bs.
Proof.
  intros H. induction l as [|a l IH]; intros bs E; simpl in E.
  - injection E as <-. constructor.
  - apply bind_inr in E. destruct E as (b & Hb & E).
    apply bind_inr in E. destruct E as (bs' & Hbs & E).
    injection E as <-. constructor; eauto.
Qed.

Lemma mapM_length {A B} (f : A -> M B) :
  forall l bs, mapM f l = inr bs -> length bs = length l.
Proof.
  induction l as [|a l IH]; intros bs E; simpl in E.
  - now injection E as <-.
  - apply bind_inr in E. destruct E as (b & Hb & E).
    apply bind_inr in E. destruct E as (bs' & Hbs & E).
    injection E as <-. simpl. f_equal. auto.
Qed.

Lemma mapM_map {A B C} (f : A -> M B) (g : A -> M C) (h : B -> C) :
  (forall a b, f a = inr b -> g a = inr (h b)) ->
  forall l bs, mapM f l = inr bs -> mapM g l = inr (map h bs).
Proof.
  intros H. induction l as [|a l IH]; intros bs E; simpl in E.
  - now injection E as <-.
  - apply bind_inr in E. destruct E as (b & Hb & E).
    apply bind_inr in E. destruct E as (bs' & Hbs & E).
    injection E as <-. simpl. rewrite (H _ _ Hb), (IH _ Hbs). reflexivity.
Qed.

Lemma trimmed_strip g : trimmed (Some (strip g)).
Proof. intros t E. injection E as <-. apply strip_idem. Qed.

Lemma trimmed_None : trimmed None.
Proof. intros t E. discriminate. Qed.

(** An extraction that trims group [n] of the first match. *)
Lemma stripped_group_trimmed r n s o :
  match search r s with
  | Some m => g <- group_str m n ;; ret (Some (strip g))
  | None => ret None
  end = inr o ->
  trimmed o.
Proof.
  destruct (search r s) as [m|]; intros H.
  - apply bind_inr in H. destruct H as (g & _ & H). injection H as <-.
    apply trimmed_strip.
  - injection H as <-. apply trimmed_None.
Qed.

Lemma extract_flexibility_trimmed s lvl txt :
  extract_flexibility s = inr (lvl, txt) -> trimmed txt.
Proof.
  unfold extract_flexibility. destruct (search flex_pattern s) as [m|]; intros H.
  - apply bind_inr in H. destruct H as (g & _ & H). injection H as _ <-.
    apply trimmed_strip.
  - injection H as _ <-. apply trimmed_None.
Qed.

Lemma parse_step_inv number title body step :
  _parse_step number title body = inr step ->
  Step.number step = number /\ Step.title step = title
  /\ extract_task body = inr (Step.task step)
  /\ extract_dependencies body = inr (Step.dependencies step)
  /\ extract_save_as body = inr (Step.save_as step)
  /\ extract_success_criteria body = inr (Step.success_criteria step)
  /\ extract_flexibility body
     = inr (Step.flexibility_level step, Step.flexibility step)
  /\ extract_constraints body = inr (Step.constraints step)
  /\ extract_error_handling body = inr (Step.error_handling step).
Proof.
  unfold _parse_step. intros H.
  apply bind_inr in H. destruct H as (a1 & H1 & H).
  apply bind_inr in H. destruct H as (a2 & H2 & H).
  apply bind_inr in H. destruct H as (a3 & H3 & H).
  apply bind_inr in H. destruct H as (a4 & H4 & H).
  apply bind_inr in H. destruct H as ([lvl txt] & H5 & H).
  apply bind_inr in H. destruct H as (a6 & H6 & H).
  apply bind_inr in H. destruct H as (a7 & H7 & H).
  injection H as <-. cbn. auto 10.
Qed.

Lemma step_of_match_inv m step :
  step_of_match m = inr step ->
  exists g title body,
    group m 1 = Some g /\ int g = inr (Step.number step)
    /\ group m 2 = Some title /\ group m 3 = Some body
    /\ _parse_step (Step.number step) (strip title) body = inr step.
Proof.
  unfold step_of_match, group_str. intros H.
  apply bind_inr in H. destruct H as (n & Hn & H).
  apply bind_inr in Hn. destruct Hn as (g & Hg & Hn).
  apply bind_inr in H. destruct H as (t & Ht & H).
  apply bind_inr in H. destruct H as (b & Hb & H).
  destruct (group m 1) as [g'|]; [|discriminate]. injection Hg as ->.
  destruct (group m 2) as [t'|]; [|discriminate]. injection Ht as ->.
  destruct (group m 3) as [b'|]; [|discriminate]. injection Hb as ->.
  pose proof (parse_step_inv _ _ _ _ H) as (E & _). subst n.
  exists g, t, b. auto.
Qed.

(** The texts that parsing takes over carry no white space at either end:
    the title, the Context and Finalization texts, and of every step the
    title, the Task text and the Flexibility text. *)
Theorem parsed_texts_are_trimmed (content : str) (v : self) :
  _parse_document (new content) = inr v ->
  trimmed (title v) /\ trimmed (context v) /\ trimmed (finalization v)
  /\ Forall (fun step =>
               strip (Step.title step) = Step.title step
               /\ trimmed (Step.task step)
               /\ trimmed (Step.flexibility step))
            (steps v).
Proof.
  intros P. apply parse_new_fields in P.
  destruct P as (T & _ & C & S & F).
  split; [exact (stripped_group_trimmed _ _ _ _ T)|].
  split; [exact (stripped_group_trimmed _ _ _ _ C)|].
  split; [exact (stripped_group_trimmed _ _ _ _ F)|].
  unfold extract_steps in S. revert S. apply mapM_Forall.
  intros m step H. apply step_of_match_inv in H.
  destruct H as (g & t & b & _ & _ & _ & _ & H).
  apply parse_step_inv in H.
  destruct H as (_ & Ht & Ta & _ & _ & _ & Fl & _).
  split; [rewrite Ht; apply strip_idem|]. split.
  - exact (stripped_group_trimmed _ _ _ _ Ta).
  - exact (extract_flexibility_trimmed _ _ _ Fl).
Qed.

(** *** The steps *)

Lemma digits_value_nonneg s : forall acc z,
  (0 <= acc)%Z -> digits_value acc s = inr z -> (0 <= z)%Z.
Proof.
  induction s as [|c t IH]; intros acc z A H; cbn [digits_value] in H.
  - injection H as <-. exact A.
  - destruct (decimal c) as [d|]; [|discriminate].
    eapply IH; [|exact H]. pose proof (N2Z.is_nonneg d). lia.
Qed.

Lemma int_nonneg s z : int s = inr z -> (0 <= z)%Z.
Proof.
  unfold int. destruct s as [|c t]; [discriminate|].
  destruct (_ && _); [discriminate|]. apply digits_value_nonneg. lia.
Qed.

(** There is one step for each step heading that the text holds, in the
    order of the headings; the number of a step is the value of the digits
    of its heading and is never negative. *)
Theorem steps_follow_headings (content : str) (v : self) :
  _parse_document (new content) = inr v ->
  length (steps v) = length (finditer step_pattern content)
  /\ mapM (fun m => g <- group_str m 1 ;; int g) (finditer step_pattern content)
     = inr (map Step.number (steps v))
  /\ Forall (fun step => (0 <= Step.number step)%Z) (steps v).
Proof.
  intros P. apply parse_new_fields in P. destruct P as (_ & _ & _ & S & _).
  unfold extract_steps in S. split; [|split].
  - eapply mapM_length. exact S.
  - revert S. apply mapM_map. intros m step H.
    apply step_of_match_inv in H. destruct H as (g & _ & _ & G & N & _).
    unfold group_str. rewrite G. exact N.
  - revert S. apply mapM_Forall. intros m step H.
    apply step_of_match_inv in H. destruct H as (g & _ & _ & _ & N & _).
    eapply int_nonneg. exact N.
Qed.

End Parsed.

(** ** The Save-as path and the flexibility level *)

Section StepFields.
Context {I : Interpreter}.

Lemma save_group b rest m :
  match_here save_pattern b rest = Some m ->
  exists g, group m 1 = Some g
            /\ forallb (noneof [BACKTICK; DQUOTE; NL]) g = true.
Proof.
  intros H. apply match_here_inv in H. destruct H as (b' & rest' & H & _).
  unfold save_pattern in H.
  do 8 (rewrite run_cat_cons in H; apply run_inv in H;
        destruct H as (? & ? & ? & H & -> & _)).
  rewrite run_cat_cons in H. cbn [run] in H. apply rep_inv in H.
  destruct H as (g & r9 & -> & D & _ & H).
  apply run_inv in H. destruct H as (w & r & c & H & _ & _ & _ & Mn).
  exists g. unfold group. injection H as _ _ <-.
  rewrite (Mn 1) by reflexivity. cbn [lookup Nat.eqb].
  split; [|exact D]. f_equal.
  rewrite length_app, length_rev, Nat.add_sub.
  rewrite firstn_app, firstn_all, Nat.sub_diag. cbn [firstn].
  apply app_nil_r.
Qed.

Lemma dropwhile_fixed f (s : str) :
  (forall c, In c s -> f c = false) -> dropwhile f s = s.
Proof.
  destruct s as [|c t]; [reflexivity|]. intros H. simpl.
  now rewrite (H c) by now left.
Qed.

Lemma strip_chars_fixed chars (s : str) :
  (forall c, In c s -> member chars c = false) -> strip_chars chars s = s.
Proof.
  intros H. unfold strip_chars. rewrite (dropwhile_fixed _ s) by exact H.
  rewrite dropwhile_fixed; [apply rev_involutive|].
  intros c Hc. apply H. now apply in_rev.
Qed.

(** A Save-as path holds no backtick, no double quote and no line break,
    and no white space at either end: the path ends where a quotation
    mark or the line ends. *)
Theorem save_as_is_clean (body path : str) :
  extract_save_as body = inr (Some path) ->
  (forall c, In c path -> c <> BACKTICK /\ c <> DQUOTE /\ c <> NL)
  /\ strip path = path.
Proof.
  unfold extract_save_as.
  destruct (search save_pattern body) as [m|] eqn:S; [|discriminate].
  apply search_inv in S. destruct S as (w & rest & _ & S).
  apply save_group in S. destruct S as (g & G & D).
  unfold group_str. rewrite G. cbn [bind ret]. intros E. injection E as <-.
  rewrite forallb_forall in D.
  assert (C : forall c, In c (strip g) ->
                c <> BACKTICK /\ c <> DQUOTE /\ c <> NL).
  { intros c Hc. apply In_strip, D in Hc. unfold noneof in Hc.
    apply negb_true_iff in Hc. simpl in Hc.
    apply orb_false_iff in Hc. destruct Hc as [H1 Hc].
    apply orb_false_iff in Hc. destruct Hc as [H2 Hc].
    apply orb_false_iff in Hc. destruct Hc as [H3 _].
    apply N.eqb_neq in H1, H2, H3. auto. }
  rewrite strip_chars_fixed.
  - split; [exact C|apply strip_idem].
  - intros c Hc. apply C in Hc. destruct Hc as (H1 & H2 & _). simpl.
    apply N.eqb_neq in H1, H2. now rewrite H1, H2.
Qed.

Lemma flex_group b rest m :
  match_here flex_pattern b rest = Some m ->
  group m 1 = None
  \/ exists g, group m 1 = Some g /\ g <> [] /\ forallb isword g = true.
Proof.
  intros H. apply match_here_inv in H. destruct H as (b' & rest' & H & _).
  unfold flex_pattern in H.
  rewrite run_cat_cons in H. apply run_inv in H.
  destruct H as (w1 & r1 & c1 & H & -> & _ & _ & M1).
  rewrite run_cat_cons in H. apply run_inv in H.
  destruct H as (w2 & r2 & c2 & H & -> & _ & _ & M2).
  rewrite run_cat_cons in H. apply run_inv in H.
  destruct H as (w3 & r3 & c3 & H & -> & _ & _ & M3).
  rewrite run_cat_cons in H. apply run_inv in H.
  destruct H as (w4 & r4 & c4 & H & -> & _ & _ & M4).
  assert (L4 : lookup 1 c4 = None).
  { rewrite (M4 1), (M3 1), (M2 1), (M1 1) by reflexivity. reflexivity. }
  rewrite run_cat_cons in H. cbn [run] in H.
  apply orelse_Some in H. destruct H as [H|[_ H]].
  - right. rewrite run_cat_cons in H. apply run_inv in H.
    destruct H as (w5 & r5 & c5 & H & -> & _ & _ & M5).
    rewrite run_cat_cons in H. cbn [run] in H. apply rep_inv in H.
    destruct H as (g & r6 & -> & D & L & H).
    apply run_inv in H. destruct H as (w7 & r7 & c7 & H & -> & _ & _ & M7).
    apply run_inv in H. destruct H as (w8 & r8 & c8 & H & _ & _ & _ & M8).
    exists g. unfold group. injection H as _ _ <-.
    rewrite (M8 1), (M7 1) by reflexivity. cbn [lookup Nat.eqb].
    split; [|split; [|exact D]].
    + f_equal. rewrite length_app, length_rev, Nat.add_sub.
      rewrite firstn_app, firstn_all, Nat.sub_diag. cbn [firstn].
      apply app_nil_r.
    + destruct g; [simpl in L; lia|discriminate].
  - left. apply run_inv in H.
    destruct H as (w8 & r8 & c8 & H & _ & _ & _ & M8).
    unfold group. injection H as _ _ <-.
    now rewrite (M8 1) by reflexivity.
Qed.

(** Under re.IGNORECASE a word of signs is matched by itself only. *)
Lemma same_letters_signs (s : string) (w : str) :
  forallb (fun a => (ascii_lower a =? a) && (ascii_upper a =? a)
                    && negb (a =? 105) && negb (a =? 107)
                    && negb (a =? 115))%N (py s) = true ->
  same_letters s w -> w = py s.
Proof.
  unfold same_letters. generalize (py s). intros p C F.
  induction F as [|a c p w H F IH]; [reflexivity|].
  simpl in C. apply andb_true_iff in C. destruct C as [Ca C].
  rewrite !andb_true_iff, !negb_true_iff, !N.eqb_eq, !N.eqb_neq in Ca.
  destruct Ca as ((((L & U) & H1) & H2) & H3).
  rewrite L, folds_symbol in H by assumption.
  apply N.eqb_eq in H. subst c. f_equal. auto.
Qed.

(** Where group 1 of the Flexibility pattern is bound, its text stands in
    brackets after the heading. *)
Lemma flex_tag_origin b rest m g :
  match_here flex_pattern b rest = Some m -> group m 1 = Some g ->
  exists sp1 name sp2 tail,
    rest = py "###" ++ sp1 ++ name ++ sp2 ++ py "[" ++ g ++ py "]" ++ tail
    /\ forallb isspace sp1 = true /\ sp1 <> []
    /\ same_letters "Flexibility" name
    /\ forallb isspace sp2 = true
    /\ g <> [] /\ forallb isword g = true.
Proof.
  intros H G. apply match_here_inv in H. destruct H as (b' & rest' & H & _).
  unfold flex_pattern in H.
  rewrite run_cat_cons in H. apply lit_icase_inv in H.
  destruct H as (w1 & r1 & -> & L1 & H).
  apply same_letters_signs in L1; [|reflexivity]. subst w1.
  rewrite run_cat_cons in H. unfold ws1 in H. cbn [run] in H.
  apply rep_inv in H. destruct H as (w2 & r2 & -> & S2 & N2 & H).
  rewrite run_cat_cons in H. apply lit_icase_inv in H.
  destruct H as (w3 & r3 & -> & L3 & H).
  rewrite run_cat_cons in H. unfold ws0 at 1 in H. cbn [run] in H.
  apply rep_inv in H. destruct H as (w4 & r4 & -> & S4 & _ & H).
  rewrite run_cat_cons in H. cbn [run] in H.
  apply orelse_Some in H. destruct H as [H|[_ H]].
  - rewrite run_cat_cons in H. apply lit_icase_inv in H.
    destruct H as (w5 & r5 & -> & L5 & H).
    apply same_letters_signs in L5; [|reflexivity]. subst w5.
    rewrite run_cat_cons in H. cbn [run] in H. apply rep_inv in H.
    destruct H as (g' & r6 & -> & D & L & H).
    apply lit_icase_inv in H. destruct H as (w7 & r7 & -> & L7 & H).
    apply same_letters_signs in L7; [|reflexivity]. subst w7.
    apply run_inv in H. destruct H as (w8 & r8 & c8 & H & _ & _ & _ & M8).
    unfold group in G. injection H as _ _ E8. rewrite <- E8 in G.
    rewrite (M8 1) in G by reflexivity. cbn [lookup Nat.eqb] in G.
    rewrite length_app, length_rev, Nat.add_sub in G.
    rewrite firstn_app, firstn_all, Nat.sub_diag in G. cbn [firstn] in G.
    rewrite app_nil_r in G. injection G as <-.
    exists w2, w3, w4, r7. repeat split; auto.
    + destruct w2; [simpl in N2; lia|discriminate].
    + destruct g'; [simpl in L; lia|discriminate].
  - exfalso. apply run_inv in H.
    destruct H as (w8 & r8 & c8 & H & _ & _ & _ & M8).
    unfold group in G. injection H as _ _ E8. rewrite <- E8 in G.
    rewrite (M8 1) in G by reflexivity. discriminate G.
Qed.

(** A flexibility level other than the default, guided, is read from the
    step text: the text holds three number signs, white space, the word
    Flexibility in any letter case, optional white space and a word in
    brackets, and the level is that word in lower case. *)
Theorem flexibility_level_is_default_or_tag (body level : str)
    (text : option str) :
  extract_flexibility body = inr (level, text) ->
  level <> py "guided" ->
  exists head sp1 name sp2 tag tail,
    body = head ++ py "###" ++ sp1 ++ name ++ sp2
                ++ py "[" ++ tag ++ py "]" ++ tail
    /\ forallb isspace sp1 = true /\ sp1 <> []
    /\ same_letters "Flexibility" name
    /\ forallb isspace sp2 = true
    /\ tag <> [] /\ forallb isword tag = true
    /\ level = lower tag.
Proof.
  unfold extract_flexibility.
  destruct (search flex_pattern body) as [m|] eqn:S.
  - apply search_inv in S. destruct S as (w & rest & -> & S).
    intros H N. apply bind_inr in H. destruct H as (g2 & _ & H).
    injection H as E _.
    destruct (group m 1) as [g|] eqn:G; [|cbn [truthy] in E; congruence].
    destruct g as [|c g]; [cbn [truthy nonempty] in E; congruence|].
    cbn [truthy nonempty] in E.
    destruct (flex_tag_origin _ _ _ _ S G)
      as (sp1 & name & sp2 & tail & -> & S1 & N1 & L & S2 & Ng & D).
    exists w, sp1, name, sp2, (c :: g), tail. repeat split; auto.
  - intros H N. injection H as E _. congruence.
Qed.

End StepFields.

(** ** The size of a report *)

Section ReportSize.
Context {I : Interpreter}.

Lemma length_flat_map_le {A B} (f : A -> list B) k l :
  (forall a, length (f a) <= k) -> length (flat_map f l) <= k * length l.
Proof.
  intros H. induction l as [|a l IH]; simpl; [lia|].
  rewrite length_app. specialize (H a). lia.
Qed.

Lemma length_step_errors step : length (step_errors step) <= 2.
Proof.
  unfold step_errors. rewrite length_app.
  destruct (truthy _); destruct (existsb _ _); simpl; lia.
Qed.

Lemma length_step_warnings total step :
  length (step_warnings total step) <= 3.
Proof.
  unfold step_warnings. rewrite !length_app.
  destruct (truthy (Step.task step) && (len_of (Step.task step) <? 10));
    destruct (Step.success_criteria step);
    (destruct (Step.save_as step) as [p|]; cbn [truthy];
     [destruct (nonempty p); cbn [negb andb]|]);
    repeat match goal with
           | |- context [if ?c then _ else _] => destruct c
           end; simpl; lia.
Qed.

(** A report is short: with n steps it holds at most 2n + 2 errors and at
    most 3n + 4 warnings, since a step gives at most two errors and three
    warnings (the warnings for a missing and for a relative Save-as path
    exclude each other). *)
Theorem report_size (content : str) (r : ValidationResult.t) :
  validate (new content) = inr r ->
  length (ValidationResult.errors r)
  <= 2 * ValidationResult.step_count (ValidationResult.info r) + 2
  /\ length (ValidationResult.warnings r)
     <= 3 * ValidationResult.step_count (ValidationResult.info r) + 4.
Proof.
  intros H. apply validate_new in H.
  destruct H as (v & _ & E & W & _ & Inf). rewrite E, W, Inf. cbn.
  unfold all_errors, all_warnings. rewrite !length_app.
  pose proof (length_flat_map_le step_errors 2 (steps v) length_step_errors).
  pose proof (length_flat_map_le (step_warnings (length (steps v))) 3 (steps v)
                (length_step_warnings _)).
  assert (SE : length (structure_errors v)
               + length (flow_errors (map Step.number (steps v))) <= 2).
  { unfold structure_errors, flow_errors. rewrite length_app.
    destruct (steps v) as [|s l]; cbn [map];
      destruct (truthy (title v)); try destruct (_ =? _); simpl; lia. }
  assert (SW : length (structure_warnings v) <= 2).
  { unfold structure_warnings. rewrite length_app.
    destruct (meta v); destruct (truthy (finalization v)); simpl; lia. }
  assert (FW : length (flow_warnings (map Step.number (steps v))) <= 2).
  { unfold flow_warnings. destruct (map Step.number (steps v)); [simpl; lia|].
    rewrite length_app.
    destruct (list_eqb _ _); destruct (gap_found _); simpl; lia. }
  lia.
Qed.

End ReportSize.

(** ** The rules for one step *)

Section StepRules.
Context {I : Interpreter}.

Lemma added_errors_eq v step : added_errors v step = step_errors step.
Proof.
  unfold added_errors.
  destruct (check_step_extends v step) as (_ & E & _). rewrite E.
  rewrite skipn_app, skipn_all, Nat.sub_diag. reflexivity.
Qed.

(** Two messages with the same prefix are the same only if the rest is. *)
Ltac same_message H :=
  apply app_inv_head in H; vm_compute in H; try discriminate H.

Lemma In_one_message (p a : str) (c : bool) (b : str) :
  In (p ++ a) (if c then [p ++ b] else []) <-> c = true /\ a = b.
Proof.
  destruct c; simpl; split.
  - intros [H|[]]. apply app_inv_head in H. auto.
  - intros [_ ->]. now left.
  - contradiction.
  - intros [H _]. discriminate.
Qed.

(** What the loop body reports for a step, message by message: the
    missing-task error for an absent or empty task and the too-brief
    warning for a task of fewer than 10 characters, never both; the
    invalid-level error for a level outside the three listed; the
    criteria warning for an empty list of criteria; the relative-path
    warning for a path that is not empty and does not start with a
    slash. *)
Theorem step_rules (v : self) (step : Step.t) :
  (In (MISSING_TASK (prefix_of step)) (added_errors v step)
   <-> truthy (Step.task step) = false)
  /\ (In (INVALID_LEVEL (prefix_of step) (Step.flexibility_level step))
         (added_errors v step)
      <-> ~ In (Step.flexibility_level step) VALID_FLEXIBILITY_LEVELS)
  /\ (In (BRIEF_TASK (prefix_of step)) (added_warnings v step)
      <-> truthy (Step.task step) = true /\ len_of (Step.task step) < 10)
  /\ (In (NO_CRITERIA (prefix_of step)) (added_warnings v step)
      <-> Step.success_criteria step = [])
  /\ (In (RELATIVE_PATH (prefix_of step)) (added_warnings v step)
      <-> exists path, Step.save_as step = Some path /\ path <> []
                       /\ startswith (py "/") path = false).
Proof.
  rewrite added_errors_eq, added_warnings_eq.
  unfold step_errors, step_warnings.
  set (p := prefix_of step). set (lvl := Step.flexibility_level step).
  assert (X : existsb (str_eqb lvl) VALID_FLEXIBILITY_LEVELS = false
              <-> ~ In lvl VALID_FLEXIBILITY_LEVELS).
  { rewrite <- existsb_str_eqb.
    destruct (existsb (str_eqb lvl) VALID_FLEXIBILITY_LEVELS);
      split; congruence. }
  repeat split.
  - intros H. apply in_app_iff in H. destruct H as [H|H].
    + destruct (truthy (Step.task step)); [contradiction|reflexivity].
    + destruct (existsb _ _); [contradiction|]. destruct H as [H|[]].
      unfold MISSING_TASK, INVALID_LEVEL in H. symmetry in H. same_message H.
  - intros ->. simpl. now left.
  - intros H. apply in_app_iff in H. apply X. destruct H as [H|H].
    + destruct (truthy (Step.task step)); [contradiction|].
      destruct H as [H|[]].
      unfold MISSING_TASK, INVALID_LEVEL in H. same_message H.
    + destruct (existsb _ _); [contradiction|reflexivity].
  - intros H. apply X in H. rewrite H. apply in_app_iff. right. now left.
  - destruct (truthy (Step.task step)); [reflexivity|].
    cbn [andb app] in H. exfalso.
    rewrite !in_app_iff in H. unfold BRIEF_TASK in H.
    destruct H as [H|[H|H]].
    + destruct (_ && _); [|contradiction]. destruct H as [H|[]].
      unfold NO_SAVE_AS in H. same_message H.
    + destruct (Step.success_criteria step); [|contradiction].
      destruct H as [H|[]]. unfold NO_CRITERIA in H. same_message H.
    + destruct (Step.save_as step); [|contradiction].
      destruct (_ && _); [|contradiction]. destruct H as [H|[]].
      unfold RELATIVE_PATH in H. same_message H.
  - rewrite !in_app_iff in H. unfold BRIEF_TASK in H.
    destruct H as [H|[H|[H|H]]].
    + destruct (truthy (Step.task step)); [|contradiction].
      destruct (Nat.ltb_spec (len_of (Step.task step)) 10);
        [assumption|contradiction].
    + destruct (_ && _); [|contradiction]. destruct H as [H|[]].
      unfold NO_SAVE_AS in H. same_message H.
    + destruct (Step.success_criteria step); [|contradiction].
      destruct H as [H|[]]. unfold NO_CRITERIA in H. same_message H.
    + destruct (Step.save_as step); [|contradiction].
      destruct (_ && _); [|contradiction]. destruct H as [H|[]].
      unfold RELATIVE_PATH in H. same_message H.
  - intros [T L]. rewrite T. apply Nat.ltb_lt in L. rewrite L.
    simpl. now left.
  - intros H. rewrite !in_app_iff in H. unfold NO_CRITERIA in H.
    destruct H as [H|[H|[H|H]]].
    + destruct (_ && _); [|contradiction]. destruct H as [H|[]].
      unfold BRIEF_TASK in H. same_message H.
    + destruct (_ && _); [|contradiction]. destruct H as [H|[]].
      unfold NO_SAVE_AS in H. same_message H.
    + destruct (Step.success_criteria step); [reflexivity|contradiction].
    + destruct (Step.save_as step); [|contradiction].
      destruct (_ && _); [|contradiction]. destruct H as [H|[]].
      unfold RELATIVE_PATH in H. same_message H.
  - intros ->. rewrite !in_app_iff. right. right. left. now left.
  - intros H. rewrite !in_app_iff in H. unfold RELATIVE_PATH in H.
    destruct H as [H|[H|[H|H]]].
    + destruct (_ && _); [|contradiction]. destruct H as [H|[]].
      unfold BRIEF_TASK in H. same_message H.
    + destruct (_ && _); [|contradiction]. destruct H as [H|[]].
      unfold NO_SAVE_AS in H. same_message H.
    + destruct (Step.success_criteria step); [|contradiction].
      destruct H as [H|[]]. unfold NO_CRITERIA in H. same_message H.
    + destruct (Step.save_as step) as [path|]; [|contradiction].
      exists path. split; [reflexivity|].
      destruct path as [|c t]; [contradiction|]. split; [discriminate|].
      cbn [nonempty andb] in H.
      destruct (startswith (py "/") (c :: t)); [contradiction|reflexivity].
  - intros (path & -> & N & S). rewrite !in_app_iff. right. right. right.
    rewrite S. destruct path; [congruence|]. now left.
Qed.

End StepRules.

(** ** Sections and subsections up to the next heading *)

Section Bodies.
Context {I : Interpreter}.

Lemma no_second_level_spec pre w1 w2 :
  no_second_level pre = true -> pre = w1 ++ ord "#" :: w2 ->
  match w2 with [] => False | d :: _ => d <> ord "#" end.
Proof.
  revert pre. induction w1 as [|a w1 IH]; intros pre H ->; simpl in H.
  - apply andb_true_iff in H. destruct H as [H _].
    change (35 =? ord "#")%N with true in H. simpl in H.
    destruct w2 as [|d t]; [discriminate|].
    apply negb_true_iff in H. now apply N.eqb_neq.
  - apply andb_true_iff in H. destruct H as [_ H]. now apply (IH _ H).
Qed.

Lemma no_line_opens_spec markers body w1 w2 p :
  no_line_opens markers body = true -> body = w1 ++ NL :: w2 ->
  In p markers -> startswith p w2 = false.
Proof.
  revert body. induction w1 as [|a w1 IH]; intros body H -> Hp; simpl in H.
  - apply andb_true_iff in H. destruct H as [H _].
    change (NL =? NL)%N with true in H. simpl in H.
    rewrite forallb_forall in H. apply negb_true_iff. now apply H.
  - apply andb_true_iff in H. destruct H as [_ H]. now apply (IH _ H).
Qed.

Lemma search_from_pass r pre : forall b rest,
  (forall w1 c w2, pre = w1 ++ c :: w2 ->
     match_here r (rev w1 ++ b) (c :: w2 ++ rest) = None) ->
  search_from r b (pre ++ rest) = search_from r (rev pre ++ b) rest.
Proof.
  induction pre as [|c pre IH]; intros b rest H; [reflexivity|].
  pose proof (H [] c pre eq_refl) as H0. cbn [rev app] in H0.
  cbn [app search_from]. rewrite H0. rewrite IH.
  - simpl. now rewrite <- app_assoc.
  - intros w1 c' w2 ->. specialize (H (c :: w1) c' w2 eq_refl).
    simpl in H. now rewrite <- app_assoc in H.
Qed.

(** A lazy group in front of an assertion takes the text up to the first
    place where the assertion holds. *)
Lemma lazy_body (stop : regex) b body tail :
  (forall w1 c w2 b' cs, body = w1 ++ c :: w2 ->
     run stop b' (c :: w2 ++ tail) cs accept = None) ->
  (forall b' cs, run stop b' tail cs accept = Some (b', tail, cs)) ->
  run (cat [Grp 1 (Rep true 0 (dot true)); stop]) b (body ++ tail) [] accept
  = Some (rev body ++ b, tail, [(1, body)]).
Proof.
  intros F S. cbn [cat run]. rewrite rep_lazy_skip.
  - apply rep_lazy_here. rewrite S. rewrite length_app, length_rev.
    rewrite Nat.add_sub, firstn_app, firstn_all, Nat.sub_diag.
    cbn [firstn]. now rewrite app_nil_r.
  - clear. induction body; simpl; auto.
  - intros w1 c w2 E. now apply F with (w1 := w1).
Qed.

(** A lazy group with any number, after other groups. *)
Lemma lazy_group n (stop : regex) b body tail cs :
  (forall w1 c w2 b' cs', body = w1 ++ c :: w2 ->
     run stop b' (c :: w2 ++ tail) cs' accept = None) ->
  (forall b' cs', run stop b' tail cs' accept = Some (b', tail, cs')) ->
  run (cat [Grp n (Rep true 0 (dot true)); stop]) b (body ++ tail) cs accept
  = Some (rev body ++ b, tail, (n, body) :: cs).
Proof.
  intros F S. cbn [cat run]. rewrite rep_lazy_skip.
  - apply rep_lazy_here. rewrite S. rewrite length_app, length_rev.
    rewrite Nat.add_sub, firstn_app, firstn_all, Nat.sub_diag.
    cbn [firstn]. now rewrite app_nil_r.
  - clear. induction body; simpl; auto.
  - intros w1 c w2 E. now apply F with (w1 := w1).
Qed.

Lemma firstn_consumed (w b b' rest : str) :
  length b' = length w + length b ->
  firstn (length b' - length b) (w ++ rest) = w.
Proof.
  intros ->. rewrite Nat.add_sub, firstn_app, firstn_all, Nat.sub_diag.
  cbn [firstn]. apply app_nil_r.
Qed.

(** Under re.IGNORECASE a literal of signs matches its own text only. *)
Lemma signs_run s b rest cs k :
  forallb (fun a => (ascii_lower a =? a) && (ascii_upper a =? a)
                    && negb (a =? 105) && negb (a =? 107)
                    && negb (a =? 115))%N (py s) = true ->
  run (lit true s) b rest cs k = run (lit false s) b rest cs k.
Proof.
  unfold lit. generalize (py s) as p. intros p. revert b rest cs k.
  induction p as [|a p IH]; intros b rest cs k H; [reflexivity|].
  simpl in H. apply andb_true_iff in H. destruct H as [Ha H].
  rewrite !andb_true_iff, !negb_true_iff, !N.eqb_eq, !N.eqb_neq in Ha.
  destruct Ha as ((((L & U) & H1) & H2) & H3).
  cbn [map]. rewrite !run_cat_cons. cbn [run].
  destruct rest as [|c t]; [reflexivity|].
  rewrite L, folds_symbol by assumption.
  unfold chr. rewrite (N.eqb_sym a c).
  destruct (c =? a)%N; [|reflexivity]. now apply IH.
Qed.

Lemma marker_closed p (w tail : str) markers :
  ~ In NL p -> closed_by markers tail ->
  startswith p w = false -> startswith p (w ++ tail) = false.
Proof.
  intros N [->|(q & rest & _ & ->)] H.
  - now rewrite app_nil_r.
  - destruct (startswith p (w ++ NL :: q ++ rest)) eqn:E; [|reflexivity].
    apply startswith_line in E; [congruence|exact N].
Qed.

(** A greedy repetition fails when its continuation fails after every run
    it can take. *)
Lemma rep_greedy_none f : forall rest b cs k,
  k b rest cs = None ->
  (forall u1 c u2, rest = u1 ++ c :: u2 -> forallb f (u1 ++ [c]) = true ->
     k (rev (u1 ++ [c]) ++ b) u2 cs = None) ->
  rep false f 0 b rest cs k = None.
Proof.
  induction rest as [|c t IH]; intros b cs k K0 K; simpl.
  - exact K0.
  - destruct (f c) eqn:Fc; [|exact K0]. rewrite IH; [exact K0| |].
    + apply (K [] c t eq_refl). simpl. now rewrite Fc.
    + intros u1 d u2 -> F. specialize (K (c :: u1) d u2 eq_refl).
      simpl in K. rewrite Fc in K. specialize (K F).
      now rewrite <- app_assoc in K.
Qed.

(** A greedy repetition gives back what its continuation does not accept:
    it stops after the longest run at which the continuation succeeds. *)
Lemma rep_greedy_longest f : forall w lo b rest cs k x,
  forallb f w = true -> lo <= length w ->
  k (rev w ++ b) rest cs = Some x ->
  (forall u1 c u2, rest = u1 ++ c :: u2 -> forallb f (u1 ++ [c]) = true ->
     k (rev (u1 ++ [c]) ++ rev w ++ b) u2 cs = None) ->
  rep false f lo b (w ++ rest) cs k = Some x.
Proof.
  induction w as [|c w IH]; intros lo b rest cs k x F L K0 K.
  - simpl in L. destruct lo; [|lia]. cbn [app rev] in *.
    destruct rest as [|d t]; [exact K0|]. cbn [rep].
    destruct (f d) eqn:Fd; [|exact K0].
    rewrite rep_greedy_none; [exact K0| |].
    + apply (K [] d t eq_refl). simpl. now rewrite Fd.
    + intros u1 e u2 -> Fu. specialize (K (d :: u1) e u2 eq_refl).
      simpl in K. rewrite Fd in K. specialize (K Fu).
      now rewrite <- app_assoc in K.
  - simpl in F. apply andb_true_iff in F. destruct F as [Fc F].
    assert (R : forall lo', lo' <= length w ->
                rep false f lo' (c :: b) (w ++ rest) cs k = Some x).
    { intros lo' L'. apply IH; auto.
      - simpl in K0. now rewrite <- app_assoc in K0.
      - intros u1 d u2 E Fu. specialize (K u1 d u2 E Fu).
        simpl in K. now rewrite <- !app_assoc in K. }
    destruct lo as [|lo]; simpl; rewrite Fc.
    + rewrite R by lia. reflexivity.
    + apply R. simpl in L. lia.
Qed.

(** The blank lines after a heading: [\s*] takes them, and leaves to [\n]
    the line break in front of the first character that is not white
    space. *)
Lemma heading_blank_lines r blank b body cs k x :
  forallb isspace blank = true ->
  body <> [] -> lstrip body = body ->
  run r (NL :: rev blank ++ b) body cs k = Some x ->
  run (cat [ws0; nl; r]) b (blank ++ NL :: body) cs k = Some x.
Proof.
  intros F N L H. apply lstrip_fixed in L.
  destruct L as [->|(c & t & -> & Hc)]; [congruence|].
  rewrite run_cat_cons. unfold ws0. cbn [run].
  apply rep_greedy_longest; [exact F|lia| |].
  - rewrite run_cat_cons. unfold nl. cbn [run].
    change (chr NL NL) with true. exact H.
  - intros u1 d u2 E Fu. rewrite run_cat_cons. unfold nl. cbn [run].
    destruct u1 as [|e u1]; simpl in E.
    + injection E as <- <-. unfold chr.
      destruct (N.eqb_spec NL c) as [<-|]; [discriminate Hc|reflexivity].
    + injection E as <- E. rewrite forallb_forall in Fu.
      assert (X : isspace c = true).
      { apply Fu. destruct u1 as [|e u1]; simpl in E.
        - injection E as <- _. simpl. auto.
        - injection E as <- _. simpl. auto. }
      congruence.
Qed.

Lemma body_after_heading (body tail : str) :
  body <> [] -> lstrip body = body ->
  body ++ tail <> [] /\ lstrip (body ++ tail) = body ++ tail.
Proof.
  intros N L. apply lstrip_fixed in L.
  destruct L as [->|(c & t & -> & Hc)]; [congruence|].
  split; [discriminate|]. unfold lstrip. simpl. now rewrite Hc.
Qed.

(** *** The assertion that ends a section *)

Lemma section_stop_fails b c rest cs :
  (c = NL -> startswith (py "##") rest = false
             /\ startswith (py "---") rest = false) ->
  run section_stop b (c :: rest) cs accept = None.
Proof.
  intros H. unfold section_stop, nl. cbn [run]. unfold chr.
  destruct (N.eqb_spec NL c) as [<-|]; [|reflexivity].
  destruct H as [H1 H2]; [reflexivity|].
  rewrite !signs_run by reflexivity. rewrite !lit_run, H1, H2. reflexivity.
Qed.

Lemma section_stop_holds b tail cs :
  closed_by section_markers tail ->
  run section_stop b tail cs accept = Some (b, tail, cs).
Proof.
  intros [->|(p & rest & [<-|[<-|[]]] & ->)]; reflexivity.
Qed.

Lemma section_body b body tail :
  no_line_opens section_markers body = true ->
  closed_by section_markers tail ->
  run (cat [Grp 1 (Rep true 0 (dot true)); section_stop]) b (body ++ tail)
      [] accept
  = Some (rev body ++ b, tail, [(1, body)]).
Proof.
  intros B T. apply lazy_body.
  - intros w1 c w2 b' cs E. apply section_stop_fails. intros ->. split.
    + apply (marker_closed _ _ _ section_markers); [|exact T|].
      * vm_compute. intuition discriminate.
      * apply (no_line_opens_spec _ _ w1 w2 _ B E). now left.
    + apply (marker_closed _ _ _ section_markers); [|exact T|].
      * vm_compute. intuition discriminate.
      * apply (no_line_opens_spec _ _ w1 w2 _ B E). right. now left.
  - intros b' cs. now apply section_stop_holds.
Qed.

(** Two number signs are needed where a section heading is looked for. *)
Lemma second_level_needed r b c rest :
  match rest with [] => False | d :: _ => d <> ord "#" end ->
  match_here (Seq (lit true "##") r) b (c :: rest) = None.
Proof.
  intros H. unfold match_here.
  change (lit true "##") with (Seq (Chr (folds 35)) (Chr (folds 35))).
  cbn [run]. destruct (folds 35 c); [|reflexivity].
  destruct rest as [|d t]; [contradiction|]. rewrite folds_hash.
  destruct (N.eqb_spec d (ord "#")); [contradiction|reflexivity].
Qed.

Lemma second_level_pass r pre b rest :
  no_second_level pre = true ->
  search_from (Seq (lit true "##") r) b (pre ++ rest)
  = search_from (Seq (lit true "##") r) (rev pre ++ b) rest.
Proof.
  intros H. apply search_from_pass. intros w1 c w2 E.
  destruct (N.eq_dec c (ord "#")) as [->|N].
  - apply second_level_needed.
    pose proof (no_second_level_spec _ _ _ H E) as D.
    destruct w2; [contradiction|exact D].
  - apply match_here_rejects. simpl. rewrite folds_hash.
    apply negb_true_iff. now apply N.eqb_neq.
Qed.

Lemma context_first b blank body tail :
  forallb isspace blank = true ->
  body <> [] -> lstrip body = body ->
  no_line_opens section_markers body = true ->
  closed_by section_markers tail ->
  exists m,
    match_here context_pattern b
               (py "## Context" ++ blank ++ NL :: body ++ tail) = Some m
    /\ group m 1 = Some body.
Proof.
  intros F N L B T. unfold match_here.
  change (run context_pattern b
              (py "## Context" ++ blank ++ NL :: body ++ tail) [] accept)
    with (run (cat [ws0; nl; cat [Grp 1 (Rep true 0 (dot true)); section_stop]])
              (rev (py "## Context") ++ b) (blank ++ NL :: body ++ tail)
              [] accept).
  destruct (body_after_heading body tail N L) as [N' L'].
  erewrite heading_blank_lines;
    [|exact F|exact N'|exact L'|apply section_body; assumption].
  eexists. split; reflexivity.
Qed.

Lemma meta_first b blank body tail :
  forallb isspace blank = true ->
  body <> [] -> lstrip body = body ->
  no_line_opens section_markers body = true ->
  closed_by section_markers tail ->
  exists m,
    match_here meta_pattern b
               (py "## Meta" ++ blank ++ NL :: body ++ tail) = Some m
    /\ group m 1 = Some body.
Proof.
  intros F N L B T. unfold match_here.
  change (run meta_pattern b
              (py "## Meta" ++ blank ++ NL :: body ++ tail) [] accept)
    with (run (cat [ws0; nl; cat [Grp 1 (Rep true 0 (dot true)); section_stop]])
              (rev (py "## Meta") ++ b) (blank ++ NL :: body ++ tail)
              [] accept).
  destruct (body_after_heading body tail N L) as [N' L'].
  erewrite heading_blank_lines;
    [|exact F|exact N'|exact L'|apply section_body; assumption].
  eexists. split; reflexivity.
Qed.

(** The body of a Meta or Context section starts at the first line after
    the heading that is not blank, and runs to the next line that opens
    with two number signs or three hyphens, or to the end of the document.
    For a heading that is the first of its level in the document: the
    context is the body, trimmed, and the meta map is read from the body.
    The body is the first text after the heading whatever it is: a heading
    with nothing but blank lines before the next heading takes that
    heading's line and section as its body. *)
Theorem section_runs_to_next_heading (pre blank body tail : str) :
  no_second_level pre = true ->
  forallb isspace blank = true ->
  body <> [] -> lstrip body = body ->
  no_line_opens section_markers body = true ->
  closed_by section_markers tail ->
  extract_context (pre ++ py "## Context" ++ blank ++ NL :: body ++ tail)
  = inr (Some (strip body))
  /\ extract_meta (pre ++ py "## Meta" ++ blank ++ NL :: body ++ tail)
     = (d <- _parse_meta body ;; ret (Some d)).
Proof.
  intros P F N L B T. split.
  - destruct (context_first (rev pre) blank body tail F N L B T)
      as (m & M & G).
    unfold extract_context, search.
    unfold context_pattern in *. cbn [cat] in *.
    rewrite second_level_pass by exact P. rewrite app_nil_r.
    rewrite (search_from_here _ _ _ _ M).
    unfold group_str. rewrite G. reflexivity.
  - destruct (meta_first (rev pre) blank body tail F N L B T)
      as (m & M & G).
    unfold extract_meta, search.
    unfold meta_pattern in *. cbn [cat] in *.
    rewrite second_level_pass by exact P. rewrite app_nil_r.
    rewrite (search_from_here _ _ _ _ M).
    unfold group_str. rewrite G. reflexivity.
Qed.

(** *** The subsections of a step *)

Lemma subsection_stop_fails b c rest cs :
  (c = NL -> startswith (py "###") rest = false) ->
  run subsection_stop b (c :: rest) cs accept = None.
Proof.
  intros H. unfold subsection_stop, nl. cbn [run]. unfold chr.
  destruct (N.eqb_spec NL c) as [<-|]; [|reflexivity].
  rewrite !signs_run by reflexivity. rewrite !lit_run, H; reflexivity.
Qed.

Lemma subsection_stop_holds b tail cs :
  closed_by subsection_markers tail ->
  run subsection_stop b tail cs accept = Some (b, tail, cs).
Proof.
  intros [->|(p & rest & [<-|[]] & ->)]; reflexivity.
Qed.

Lemma subsection_body b body tail :
  no_line_opens subsection_markers body = true ->
  closed_by subsection_markers tail ->
  run (cat [Grp 1 (Rep true 0 (dot true)); subsection_stop]) b (body ++ tail)
      [] accept
  = Some (rev body ++ b, tail, [(1, body)]).
Proof.
  intros B T. apply lazy_body.
  - intros w1 c w2 b' cs E. apply subsection_stop_fails. intros ->.
    apply (marker_closed _ _ _ subsection_markers); [|exact T|].
    + vm_compute. intuition discriminate.
    + apply (no_line_opens_spec _ _ w1 w2 _ B E). now left.
  - intros b' cs. now apply subsection_stop_holds.
Qed.

Ltac reads_words :=
  split; [reflexivity|];
  intros other O D b t cs k;
  repeat (destruct O as [<-|O]; [try reflexivity; congruence|]);
  destruct O.

Lemma reads_task : reads (lit true "Task") "Task".
Proof. reads_words. Qed.

Lemma reads_dependencies : reads (lit true "Dependencies") "Dependencies".
Proof. reads_words. Qed.

Lemma reads_criteria :
  reads (cat [lit true "Success"; ws1; lit true "criteria"]) "Success criteria".
Proof. reads_words. Qed.

Lemma reads_constraints : reads (lit true "Constraints") "Constraints".
Proof. reads_words. Qed.

Lemma reads_error :
  reads (cat [lit true "If"; ws1; lit true "something"; ws1;
              lit true "goes"; ws1; lit true "wrong"])
        "If something goes wrong".
Proof. reads_words. Qed.

Lemma subsection_third_level heading :
  subsection heading = third_level heading subsection_tail.
Proof. reflexivity. Qed.

Lemma rejects_third_level heading tail c :
  rejects (third_level heading tail) c = negb (c =? ord "#")%N.
Proof.
  change (rejects (third_level heading tail) c) with (negb (folds 35 c)).
  now rewrite folds_hash.
Qed.

Lemma no_hash_pass heading tail pre b rest :
  no_hash pre ->
  search_from (third_level heading tail) b (pre ++ rest)
  = search_from (third_level heading tail) (rev pre ++ b) rest.
Proof.
  intros H. apply search_from_skip. unfold no_hash in H.
  rewrite forallb_forall in *. intros c Hc. rewrite rejects_third_level. auto.
Qed.

(** The three number signs and the blank of a heading line. *)
Lemma third_level_heading heading tail b c t k :
  isspace c = false ->
  run (third_level heading tail) b (py "### " ++ c :: t) [] k
  = run heading (rev (py "### ") ++ b) (c :: t) []
        (fun b' rest' cs' => run tail b' rest' cs' k).
Proof.
  intros H.
  change (run (third_level heading tail) b (py "### " ++ c :: t) [] k)
    with (run ws1 (rev (py "###") ++ b) (32%N :: c :: t) []
              (fun b1 rest1 cs1 =>
                 run heading b1 rest1 cs1
                     (fun b' rest' cs' => run tail b' rest' cs' k))).
  now rewrite ws1_blank.
Qed.

Lemma headings_open (name : string) :
  In name headings ->
  exists c t, py name = c :: t /\ isspace c = false /\ no_hash (py name).
Proof.
  intros O.
  repeat (destruct O as [<-|O];
          [eexists; eexists; split; [reflexivity|split; reflexivity]|]).
  destruct O.
Qed.

(** The search passes over a subsection under another heading. *)
Lemma other_subsection_pass heading tail name other text b rest :
  reads heading name -> In other headings -> other <> name ->
  no_hash text ->
  search_from (third_level heading tail) b
              ((heading_line other ++ text) ++ rest)
  = search_from (third_level heading tail)
                (rev (heading_line other ++ text) ++ b) rest.
Proof.
  intros [_ R] O D T. apply search_from_pass. intros w1 c w2 E.
  destruct (headings_open other O) as (a & t & Ea & Sa & Ha).
  destruct (N.eq_dec c (ord "#")) as [->|N].
  2:{ apply match_here_rejects. rewrite rejects_third_level.
      apply negb_true_iff. now apply N.eqb_neq. }
  unfold heading_line in E.
  assert (X : no_hash (32%N :: py other ++ text)).
  { unfold no_hash in *. cbn [forallb].
    rewrite forallb_app, Ha, T. reflexivity. }
  change (py "### " ++ py other) with (35 :: 35 :: 35 :: 32 :: py other)%N in E.
  cbn [app] in E.
  destruct w1 as [|x1 w1]; cbn [app] in E.
  { injection E as <-. cbn [rev app]. rewrite <- app_assoc.
    unfold match_here. rewrite Ea. cbn [app].
    change (ord "#" :: 35%N :: 35%N :: 32%N :: a :: t ++ text ++ rest)
      with (py "### " ++ a :: t ++ text ++ rest).
    rewrite third_level_heading by exact Sa.
    change (a :: t ++ text ++ rest) with ((a :: t) ++ text ++ rest).
    rewrite <- Ea. rewrite R by assumption. reflexivity. }
  injection E as <- E.
  destruct w1 as [|x2 w1]; cbn [app] in E.
  { injection E as <-. reflexivity. }
  injection E as <- E.
  destruct w1 as [|x3 w1]; cbn [app] in E.
  { injection E as <-. reflexivity. }
  injection E as <- E. exfalso.
  unfold no_hash in X. rewrite E in X. rewrite forallb_app in X.
  apply andb_true_iff in X. destruct X as [_ X]. simpl in X. discriminate X.
Qed.

Lemma others_pass heading tail name before : forall b rest,
  reads heading name -> other_subsections name before ->
  search_from (third_level heading tail) b
    (flat_map (fun s => heading_line (fst s) ++ snd s) before ++ rest)
  = search_from (third_level heading tail)
      (rev (flat_map (fun s => heading_line (fst s) ++ snd s) before) ++ b)
      rest.
Proof.
  induction before as [|[other text] before IH]; intros b rest R H;
    [reflexivity|].
  inversion H as [|s l (O & D & T) H']; subst. cbn [flat_map fst snd] in *.
  rewrite <- app_assoc.
  rewrite (other_subsection_pass heading tail name _ _ _ _ R O D T).
  rewrite (IH _ _ R H').
  rewrite (rev_app_distr (heading_line other ++ text)).
  now rewrite <- app_assoc.
Qed.

(** A subsection is found after prose and other subsections, when what
    its pattern asks after the heading is there. *)
Lemma third_level_found heading tail name prose before after
      (Q : caps -> Prop) :
  reads heading name -> In name headings ->
  no_hash prose -> other_subsections name before ->
  (forall b, exists bE restE cs,
      run tail b after [] accept = Some (bE, restE, cs) /\ Q cs) ->
  exists m,
    search (third_level heading tail)
           (prose ++ flat_map (fun s => heading_line (fst s) ++ snd s) before
                  ++ heading_line name ++ after)
    = Some m
    /\ Q (m_caps m).
Proof.
  intros R O P H A. unfold search.
  rewrite no_hash_pass by exact P.
  rewrite (others_pass heading tail name) by assumption.
  destruct (headings_open name O) as (a & t & Ea & Sa & _).
  destruct R as [R _].
  match goal with
  | |- context [search_from _ ?b _] =>
      destruct (A (rev (py name) ++ rev (py "### ") ++ b))
        as (bE & restE & cs & E & HQ)
  end.
  eexists. split.
  - apply search_from_here. unfold match_here.
    change (heading_line name ++ after) with (py "### " ++ py name ++ after).
    rewrite Ea. cbn [app].
    rewrite third_level_heading by exact Sa.
    change (a :: t ++ after) with ((a :: t) ++ after).
    rewrite <- Ea. rewrite R. cbv beta. rewrite E. reflexivity.
  - exact HQ.
Qed.

Lemma subsection_found heading name prose before blank body tail :
  reads heading name -> In name headings ->
  no_hash prose -> other_subsections name before ->
  forallb isspace blank = true ->
  body <> [] -> lstrip body = body ->
  no_line_opens subsection_markers body = true ->
  closed_by subsection_markers tail ->
  exists m,
    search (subsection heading) (step_text prose before name blank body tail)
    = Some m
    /\ group m 1 = Some body.
Proof.
  intros R O P H F N L B T. rewrite subsection_third_level.
  apply (third_level_found heading subsection_tail name prose before
           (blank ++ NL :: body ++ tail)
           (fun cs => lookup 1 cs = Some body)); auto.
  intros b. destruct (body_after_heading body tail N L) as [N' L'].
  do 3 eexists. split.
  - unfold subsection_tail. apply heading_blank_lines;
      [exact F|exact N'|exact L'|apply subsection_body; assumption].
  - reflexivity.
Qed.

(** The body of a subsection of a step starts at the first line after the
    heading that is not blank, and runs to the next line that opens with
    three number signs, or to the end of the step.  It is found wherever
    the subsection stands among the subsections of the step: after any
    prose without a number sign and any subsections under the other
    headings.  The task is the body, trimmed; the dependencies are the
    commands of its code blocks; the criteria and the constraints are its
    bullets; the error handlers are read from its lines. *)
Theorem subsection_runs_to_next_heading
    (prose : str) (before : list (string * str)) (blank body tail : str) :
  no_hash prose ->
  forallb isspace blank = true ->
  body <> [] -> lstrip body = body ->
  no_line_opens subsection_markers body = true ->
  closed_by subsection_markers tail ->
  (other_subsections "Task" before ->
   extract_task (step_text prose before "Task" blank body tail)
   = inr (Some (strip body)))
  /\ (other_subsections "Dependencies" before ->
      extract_dependencies
        (step_text prose before "Dependencies" blank body tail)
      = inr (commands body))
  /\ (other_subsections "Success criteria" before ->
      extract_success_criteria
        (step_text prose before "Success criteria" blank body tail)
      = inr (bullets body))
  /\ (other_subsections "Constraints" before ->
      extract_constraints
        (step_text prose before "Constraints" blank body tail)
      = inr (bullets body))
  /\ (other_subsections "If something goes wrong" before ->
      extract_error_handling
        (step_text prose before "If something goes wrong" blank body tail)
      = inr (error_loop (split_on NL body) [])).
Proof.
  intros P F N L B T. repeat split; intros H.
  - destruct (subsection_found _ _ prose before blank body tail
                reads_task ltac:(simpl; auto) P H F N L B T) as (m & M & G).
    unfold extract_task, task_pattern, group_str. rewrite M, G. reflexivity.
  - destruct (subsection_found _ _ prose before blank body tail
                reads_dependencies ltac:(simpl; auto) P H F N L B T)
      as (m & M & G).
    unfold extract_dependencies, deps_pattern, group_str.
    rewrite M, G. reflexivity.
  - destruct (subsection_found _ _ prose before blank body tail
                reads_criteria ltac:(simpl; auto 10) P H F N L B T)
      as (m & M & G).
    unfold extract_success_criteria, criteria_pattern, group_str.
    rewrite M, G. reflexivity.
  - destruct (subsection_found _ _ prose before blank body tail
                reads_constraints ltac:(simpl; auto 10) P H F N L B T)
      as (m & M & G).
    unfold extract_constraints, const_pattern, group_str.
    rewrite M, G. reflexivity.
  - destruct (subsection_found _ _ prose before blank body tail
                reads_error ltac:(simpl; auto 10) P H F N L B T)
      as (m & M & G).
    unfold extract_error_handling, error_pattern, group_str.
    rewrite M, G. reflexivity.
Qed.

(** *** The Save-as path *)

Lemma search_from_same r r' :
  (forall b rest, match_here r b rest = match_here r' b rest) ->
  forall rest b, search_from r b rest = search_from r' b rest.
Proof.
  intros H. induction rest as [|c t IH]; intros b; simpl; rewrite H;
    [reflexivity|]. now rewrite IH.
Qed.

Lemma save_pattern_third_level (s : str) :
  search save_pattern s = search (third_level save_heading save_tail) s.
Proof. apply search_from_same. reflexivity. Qed.

Lemma reads_save : reads save_heading "Save as".
Proof. reads_words. Qed.

Lemma reads_flexibility : reads (lit true "Flexibility") "Flexibility".
Proof. reads_words. Qed.

Lemma first_branch {A} (a b : option A) x :
  a = Some x -> match a with Some y => Some y | None => b end = Some x.
Proof. now intros ->. Qed.

Lemma opt_chr_accept f b rest cs :
  exists bE restE, run (Opt (Chr f)) b rest cs accept = Some (bE, restE, cs).
Proof.
  destruct rest as [|c t]; cbn [run].
  - unfold accept. eauto.
  - destruct (f c); unfold accept; eauto.
Qed.

Lemma clean_not_quote c :
  noneof [BACKTICK; DQUOTE; NL] c = true ->
  oneof [BACKTICK; DQUOTE] c = false.
Proof.
  unfold noneof, oneof, member. simpl. intros H.
  apply negb_true_iff in H.
  apply orb_false_iff in H. destruct H as [H1 H].
  apply orb_false_iff in H. destruct H as [H2 _].
  now rewrite H1, H2.
Qed.

(** The optional quotation mark in front of the path. *)
Lemma opening_quote r opening c p rest b cs x :
  quotation_mark opening ->
  noneof [BACKTICK; DQUOTE; NL] c = true ->
  run r (rev opening ++ b) ((c :: p) ++ rest) cs accept = Some x ->
  run (cat [Opt (Chr (oneof [BACKTICK; DQUOTE])); r]) b
      ((opening ++ c :: p) ++ rest) cs accept
  = Some x.
Proof.
  intros [->|[->| ->]] C H; rewrite run_cat_cons; cbn [run app rev] in *.
  - rewrite (clean_not_quote c C). exact H.
  - change (oneof [BACKTICK; DQUOTE] BACKTICK) with true. cbv iota.
    apply first_branch. exact H.
  - change (oneof [BACKTICK; DQUOTE] DQUOTE) with true. cbv iota.
    apply first_branch. exact H.
Qed.

Lemma save_path_taken b opening path rest :
  quotation_mark opening ->
  path <> [] -> forallb (noneof [BACKTICK; DQUOTE; NL]) path = true ->
  match rest with
  | [] => true
  | c :: _ => negb (noneof [BACKTICK; DQUOTE; NL] c)
  end = true ->
  exists bE restE cs,
    run (cat [Opt (Chr (oneof [BACKTICK; DQUOTE]));
              Grp 1 (Rep false 1 (noneof [BACKTICK; DQUOTE; NL]));
              Opt (Chr (oneof [BACKTICK; DQUOTE]))])
        b ((opening ++ path) ++ rest) [] accept
    = Some (bE, restE, cs)
    /\ lookup 1 cs = Some path.
Proof.
  intros O N C R. destruct path as [|c p]; [congruence|].
  destruct (opt_chr_accept (oneof [BACKTICK; DQUOTE])
              (rev (c :: p) ++ rev opening ++ b) rest
              [(1, firstn (length (rev (c :: p) ++ rev opening ++ b)
                           - length (rev opening ++ b))
                          ((c :: p) ++ rest))])
    as (bE & restE & E).
  exists bE, restE. eexists. split.
  - apply opening_quote; [exact O| |].
    + simpl in C. apply andb_true_iff in C. tauto.
    + cbn [run cat].
      apply rep_greedy_span; [exact C|simpl; lia|exact R|exact E].
  - cbn [lookup Nat.eqb]. f_equal. apply (firstn_consumed (c :: p)).
    now rewrite length_app, length_rev.
Qed.

(** The Save-as path is the text of the first line after the heading that
    is not blank, without an opening quotation mark, up to a closing
    quotation mark or the end of the line, trimmed.  It is found wherever
    the subsection stands among the subsections of the step. *)
Theorem save_as_is_first_line
    (prose : str) (before : list (string * str))
    (blank opening path rest : str) :
  no_hash prose ->
  other_subsections "Save as" before ->
  forallb isspace blank = true ->
  quotation_mark opening ->
  path <> [] -> forallb (noneof [BACKTICK; DQUOTE; NL]) path = true ->
  lstrip (opening ++ path) = opening ++ path ->
  match rest with
  | [] => true
  | c :: _ => negb (noneof [BACKTICK; DQUOTE; NL] c)
  end = true ->
  extract_save_as
    (step_text prose before "Save as" blank (opening ++ path) rest)
  = inr (Some (strip path)).
Proof.
  intros P H F O N C L R.
  assert (S : exists m,
             search save_pattern
               (step_text prose before "Save as" blank (opening ++ path) rest)
             = Some m
             /\ lookup 1 (m_caps m) = Some path).
  { rewrite save_pattern_third_level. unfold step_text.
    apply (third_level_found save_heading save_tail "Save as" prose before
             (blank ++ NL :: (opening ++ path) ++ rest)
             (fun cs => lookup 1 cs = Some path));
      [exact reads_save|simpl; auto|exact P|exact H|].
    intros b.
    destruct (save_path_taken (NL :: rev blank ++ b) opening path rest
                O N C R) as (bE & restE & cs & E & G).
    exists bE, restE, cs. split; [|exact G].
    unfold save_tail.
    assert (N' : opening ++ path <> [])
      by (destruct opening; [simpl; exact N|discriminate]).
    destruct (body_after_heading (opening ++ path) rest N' L) as [N2 L2].
    apply heading_blank_lines; [exact F|exact N2|exact L2|exact E]. }
  destruct S as (m & S & G). unfold extract_save_as.
  rewrite S. unfold group_str, group. rewrite G. cbn [bind ret].
  rewrite strip_chars_fixed; [reflexivity|].
  intros c Hc. apply In_strip in Hc. rewrite forallb_forall in C.
  apply clean_not_quote. now apply C.
Qed.

(** *** The flexibility level and text *)

Lemma flex_pattern_third_level :
  flex_pattern = third_level (lit true "Flexibility") flex_tail.
Proof. reflexivity. Qed.

Lemma flex_tail_with_tag b sp tag blank body tail :
  forallb isspace sp = true ->
  tag <> [] -> forallb isword tag = true ->
  forallb isspace blank = true ->
  body <> [] -> lstrip body = body ->
  no_line_opens subsection_markers body = true ->
  closed_by subsection_markers tail ->
  exists bE restE cs,
    run flex_tail b
        ((sp ++ py "[" ++ tag ++ py "]" ++ blank) ++ NL :: body ++ tail)
        [] accept
    = Some (bE, restE, cs)
    /\ lookup 1 cs = Some tag /\ lookup 2 cs = Some body.
Proof.
  intros S N W F Nb L B T.
  destruct (body_after_heading body tail Nb L) as [N' L'].
  do 3 eexists. split.
  - unfold flex_tail. rewrite <- !app_assoc.
    rewrite run_cat_cons. unfold ws0 at 1. cbn [run].
    apply rep_greedy_span; [exact S|lia|reflexivity|].
    cbv beta. rewrite run_cat_cons. cbn [run]. apply first_branch.
    change (run (cat [lit true "["; Grp 1 (Rep false 1 isword); lit true "]"])
                (rev sp ++ b)
                (py "[" ++ tag ++ py "]" ++ blank ++ NL :: body ++ tail) []
                ?k)
      with (run (cat [Grp 1 (Rep false 1 isword); lit true "]"])
                (91%N :: rev sp ++ b)
                (tag ++ py "]" ++ blank ++ NL :: body ++ tail) [] k).
    rewrite run_cat_cons. cbn [run].
    apply rep_greedy_span;
      [exact W|destruct tag; [congruence|simpl; lia]|reflexivity|].
    cbv beta.
    change (run (lit true "]") ?b0
                (py "]" ++ blank ++ NL :: body ++ tail) ?cs0 ?k)
      with (k (93%N :: b0) (blank ++ NL :: body ++ tail) cs0).
    cbv beta.
    apply heading_blank_lines; [exact F|exact N'|exact L'|].
    apply lazy_group.
    + intros w1 c w2 b' cs' E. apply subsection_stop_fails. intros ->.
      apply (marker_closed _ _ _ subsection_markers); [|exact T|].
      * vm_compute. intuition discriminate.
      * apply (no_line_opens_spec _ _ w1 w2 _ B E). now left.
    + intros b' cs'. now apply subsection_stop_holds.
  - split; [|reflexivity]. cbn [lookup Nat.eqb]. f_equal.
    apply (firstn_consumed tag). now rewrite length_app, length_rev.
Qed.

Lemma flex_tail_without_tag b blank body tail :
  forallb isspace blank = true ->
  body <> [] -> lstrip body = body ->
  hd_error body <> Some (ord "[") ->
  no_line_opens subsection_markers body = true ->
  closed_by subsection_markers tail ->
  exists bE restE cs,
    run flex_tail b (blank ++ NL :: body ++ tail) [] accept
    = Some (bE, restE, cs)
    /\ lookup 1 cs = None /\ lookup 2 cs = Some body.
Proof.
  intros F Nb L H B T.
  destruct (body_after_heading body tail Nb L) as [N' L'].
  assert (X : exists c t, body = c :: t /\ isspace c = false
                          /\ c <> ord "[").
  { apply lstrip_fixed in L. destruct L as [->|(c & t & -> & Hc)];
      [congruence|]. exists c, t. repeat split; auto.
    intros ->. now apply H. }
  destruct X as (c & t & -> & Sc & Hc).
  do 3 eexists. split.
  - unfold flex_tail. rewrite run_cat_cons. unfold ws0 at 1. cbn [run].
    apply rep_greedy_longest; [exact F|lia| |].
    + rewrite run_cat_cons. cbn [run].
      change (run (cat [lit true "["; Grp 1 (Rep false 1 isword);
                        lit true "]"])
                  (rev blank ++ b) (NL :: (c :: t) ++ tail) [] ?k)
        with (@None res).
      cbv iota. change (NL :: (c :: t) ++ tail)
        with ([] ++ NL :: (c :: t) ++ tail).
      apply heading_blank_lines; [reflexivity|exact N'|exact L'|].
      apply lazy_group.
      * intros w1 c' w2 b' cs' E. apply subsection_stop_fails. intros ->.
        apply (marker_closed _ _ _ subsection_markers); [|exact T|].
        -- vm_compute. intuition discriminate.
        -- apply (no_line_opens_spec _ _ w1 w2 _ B E). now left.
      * intros b' cs'. now apply subsection_stop_holds.
    + intros u1 d u2 E Fu.
      destruct u1 as [|e u1]; simpl in E.
      * injection E as <- <-. rewrite run_cat_cons. cbn [run app].
        assert (Z : folds 91 c = false).
        { rewrite folds_symbol by (try reflexivity; discriminate).
          now apply N.eqb_neq. }
        change (run (cat [lit true "["; Grp 1 (Rep false 1 isword);
                          lit true "]"])
                    ?b0 (c :: t ++ tail) [] ?k)
          with (if folds 91 c
                then run (cat [Grp 1 (Rep false 1 isword); lit true "]"])
                         (c :: b0) (t ++ tail) [] k
                else None).
        rewrite Z. cbv iota.
        rewrite run_cat_cons. unfold ws0. cbn [run rep]. rewrite Sc.
        rewrite run_cat_cons. unfold nl. cbn [run]. unfold chr.
        destruct (N.eqb_spec NL c) as [<-|]; [discriminate Sc|reflexivity].
      * injection E as <- E. rewrite forallb_forall in Fu.
        assert (Y : isspace c = true).
        { apply Fu. destruct u1 as [|e u1]; simpl in E.
          - injection E as <- _. simpl. auto.
          - injection E as <- _. simpl. auto. }
        congruence.
  - split; reflexivity.
Qed.

(** The flexibility level is the tag in brackets after the heading, in
    lower case, and guided when the heading carries no tag; the
    flexibility text is the body of the subsection, trimmed.  The body
    starts at the first line after the heading that is not blank and runs
    to the next line that opens with three number signs, or to the end of
    the step. *)
Theorem flexibility_tag_and_text
    (prose : str) (before : list (string * str))
    (sp tag blank body tail : str) :
  no_hash prose ->
  other_subsections "Flexibility" before ->
  forallb isspace sp = true ->
  tag <> [] -> forallb isword tag = true ->
  forallb isspace blank = true ->
  body <> [] -> lstrip body = body ->
  no_line_opens subsection_markers body = true ->
  closed_by subsection_markers tail ->
  extract_flexibility
    (step_text prose before "Flexibility"
               (sp ++ py "[" ++ tag ++ py "]" ++ blank) body tail)
  = inr (lower tag, Some (strip body))
  /\ (hd_error body <> Some (ord "[") ->
      extract_flexibility
        (step_text prose before "Flexibility" blank body tail)
      = inr (py "guided", Some (strip body))).
Proof.
  intros P H S N W F Nb L B T. split.
  - destruct (third_level_found (lit true "Flexibility") flex_tail
                "Flexibility" prose before
                ((sp ++ py "[" ++ tag ++ py "]" ++ blank)
                 ++ NL :: body ++ tail)
                (fun cs => lookup 1 cs = Some tag /\ lookup 2 cs = Some body))
      as (m & M & G1 & G2);
      [exact reads_flexibility|simpl; auto 10|exact P|exact H| |].
    + intros b. now apply flex_tail_with_tag.
    + unfold extract_flexibility. rewrite flex_pattern_third_level.
      unfold step_text. rewrite M. unfold group_str, group. rewrite G1, G2.
      destruct tag; [congruence|]. reflexivity.
  - intros Hb.
    destruct (third_level_found (lit true "Flexibility") flex_tail
                "Flexibility" prose before (blank ++ NL :: body ++ tail)
                (fun cs => lookup 1 cs = None /\ lookup 2 cs = Some body))
      as (m & M & G1 & G2);
      [exact reads_flexibility|simpl; auto 10|exact P|exact H| |].
    + intros b. now apply flex_tail_without_tag.
    + unfold extract_flexibility. rewrite flex_pattern_third_level.
      unfold step_text. rewrite M. unfold group_str, group. rewrite G1, G2.
      reflexivity.
Qed.

End Bodies.

(** ** The steps of a document *)

Section Headings.
Context {I : Interpreter}.

Lemma folds_cases c x :
  folds c x = true ->
  x = c \/ x = ascii_upper c \/ x = 304%N \/ x = 305%N \/ x = 8490%N
  \/ x = 383%N.
Proof.
  unfold folds. rewrite !orb_true_iff, !andb_true_iff, !orb_true_iff, !N.eqb_eq.
  intuition.
Qed.

Lemma space_not_s c : isspace c = true -> folds 115 c = false.
Proof.
  intros H. destruct (folds 115 c) eqn:E; [|reflexivity].
  apply folds_cases in E.
  destruct E as [->|[->|[->|[->|[->| ->]]]]]; vm_compute in H; discriminate H.
Qed.

Lemma space_not_f c : isspace c = true -> folds 102 c = false.
Proof.
  intros H. destruct (folds 102 c) eqn:E; [|reflexivity].
  apply folds_cases in E.
  destruct E as [->|[->|[->|[->|[->| ->]]]]]; vm_compute in H; discriminate H.
Qed.

Lemma dropwhile_app f (t x : str) :
  dropwhile f (t ++ x)
  = match dropwhile f t with [] => dropwhile f x | d :: u => d :: u ++ x end.
Proof.
  induction t as [|c t IH]; simpl.
  - destruct (dropwhile f x); reflexivity.
  - destruct (f c); [exact IH|reflexivity].
Qed.

Lemma startswith_closed p (w following : str) :
  ~ In NL p -> following = [] \/ (exists r, following = NL :: r) ->
  startswith p w = false -> startswith p (w ++ following) = false.
Proof.
  intros N [->|(r & ->)] H.
  - now rewrite app_nil_r.
  - destruct (startswith p (w ++ NL :: r)) eqn:E; [|reflexivity].
    apply startswith_line in E; [congruence|exact N].
Qed.

(** White space and no word after it. *)
Lemma ws_no_word (P : N -> bool) (k : cont) :
  (forall b c t cs, P c = false -> k b (c :: t) cs = None) ->
  (forall b cs, k b [] cs = None) ->
  (forall c, isspace c = true -> P c = false) ->
  forall z b cs,
    match dropwhile isspace z with d :: _ => P d = false | [] => True end ->
    rep false isspace 0 b z cs k = None.
Proof.
  intros K1 K0 S. induction z as [|c t IH]; intros b cs H; simpl.
  - apply K0.
  - simpl in H. destruct (isspace c) eqn:E.
    + rewrite IH by exact H. apply K1. now apply S.
    + apply K1. exact H.
Qed.

(** No heading of the second level with the word [word] is read where none
    opens. *)
Lemma no_section_here (word : regex) (initial : N -> bool) z b cs k :
  (forall c, initial c = false -> rejects word c = true) ->
  (forall b cs k, run word b [] cs k = None) ->
  (forall c, isspace c = true -> initial c = false) ->
  not_opened initial z ->
  run (cat [lit true "##"; ws1; word]) b z cs k = None.
Proof.
  intros R E S H. rewrite run_cat_cons, signs_run by reflexivity.
  rewrite lit_run.
  destruct (startswith (py "##") z) eqn:W; [|reflexivity].
  destruct H as [H|H]; [congruence|].
  change (length (py "##")) with 2.
  rewrite run_cat_cons. unfold ws1. cbn [run cat].
  destruct (skipn 2 z) as [|c t]; [reflexivity|]. cbn [rep].
  destruct (isspace c) eqn:Ec; [|reflexivity].
  destruct H as [H|H]; [congruence|].
  apply (ws_no_word initial); auto.
  intros b' c' t' cs' Hc. apply rejects_sound. now apply R.
Qed.

Lemma not_opened_app initial w following :
  opens_section initial w = false ->
  following = [] \/ (exists r, following = NL :: ord "#" :: r) ->
  initial (ord "#") = false ->
  not_opened initial (w ++ following).
Proof.
  intros O F H. unfold not_opened. unfold opens_section in O.
  destruct (startswith (py "##") w) eqn:W.
  - right. cbn [andb] in O.
    change (py "##") with [35%N; 35%N] in W.
    destruct w as [|a w0]; [discriminate W|].
    destruct w0 as [|a' w'];
      [simpl in W; rewrite andb_false_r in W; discriminate W|].
    cbn [skipn app] in *.
    destruct w' as [|c t]; cbn [app].
    + destruct F as [->|(r & ->)]; [exact Logic.I|]. right. exact H.
    + destruct (isspace c) eqn:Ec; [|now left]. right. cbn [andb] in O.
      rewrite dropwhile_app. destruct (dropwhile isspace t) as [|d u].
      * destruct F as [->|(r & ->)]; [exact Logic.I|exact H].
      * exact O.
  - left. apply startswith_closed; [| |exact W].
    + vm_compute. intuition discriminate.
    + destruct F as [->|(r & ->)]; eauto.
Qed.

Lemma no_section_of_spec initial pre w1 c w2 :
  no_section_of initial pre = true -> pre = w1 ++ c :: w2 ->
  opens_section initial (c :: w2) = false.
Proof.
  revert pre. induction w1 as [|a w1 IH]; intros pre H ->; cbn [app] in H;
    cbn [no_section_of] in H; apply andb_true_iff in H; destruct H as [H H'].
  - now apply negb_true_iff.
  - now apply (IH _ H').
Qed.

Lemma no_section_line_spec initial s w1 w2 :
  no_section_line initial s = true -> s = w1 ++ NL :: w2 ->
  opens_section initial w2 = false.
Proof.
  revert s. induction w1 as [|a w1 IH]; intros s H ->; cbn [app] in H;
    cbn [no_section_line] in H; apply andb_true_iff in H; destruct H as [H H'].
  - change (NL =? NL)%N with true in H. apply negb_true_iff. exact H.
  - now apply (IH _ H').
Qed.

Lemma opens_section_weaker (f g : N -> bool) w :
  (forall d, f d = true -> g d = true) ->
  opens_section g w = false -> opens_section f w = false.
Proof.
  intros M. unfold opens_section.
  destruct (startswith (py "##") w); [|reflexivity]. cbn [andb].
  destruct (skipn 2 w) as [|c t]; [reflexivity|].
  destruct (isspace c); [|reflexivity]. cbn [andb].
  destruct (dropwhile isspace t) as [|d u]; [reflexivity|].
  destruct (f d) eqn:E; [|reflexivity]. now rewrite (M d E).
Qed.

Lemma closed_by_steps following :
  closed_by step_markers following ->
  following = [] \/ (exists r, following = NL :: ord "#" :: r).
Proof.
  intros [->|(p & rest & [<-|[<-|[]]] & ->)]; [now left| |];
    right; eexists; reflexivity.
Qed.

(** *** The assertion that ends a step *)

Lemma heading_line_fails (word : regex) (initial : N -> bool) b c z cs k :
  (forall c, initial c = false -> rejects word c = true) ->
  (forall b cs k, run word b [] cs k = None) ->
  (forall c, isspace c = true -> initial c = false) ->
  (c = NL -> not_opened initial z) ->
  run (cat [nl; lit true "##"; ws1; word]) b (c :: z) cs k = None.
Proof.
  intros R E S H. rewrite run_cat_cons. unfold nl. cbn [run]. unfold chr.
  destruct (N.eqb_spec NL c) as [<-|]; [|reflexivity].
  apply no_section_here with (initial := initial); auto.
Qed.

Lemma step_stop_fails b c w2 following cs :
  (c = NL -> opens_section step_or_final w2 = false) ->
  closed_by step_markers following ->
  run step_stop b (c :: w2 ++ following) cs accept = None.
Proof.
  intros H F. apply closed_by_steps in F. unfold step_stop. cbn [run].
  rewrite (heading_line_fails (lit true "Step") (folds 115)).
  - rewrite (heading_line_fails (lit true "Finalization") (folds 102)).
    + reflexivity.
    + intros d Hd.
      change (rejects (lit true "Finalization") d) with (negb (folds 102 d)).
      now rewrite Hd.
    + reflexivity.
    + apply space_not_f.
    + intros ->. apply not_opened_app; [|exact F|reflexivity].
      apply (opens_section_weaker _ step_or_final); [|auto].
      intros d Hd. unfold step_or_final, either. rewrite Hd. apply orb_true_r.
  - intros d Hd.
    change (rejects (lit true "Step") d) with (negb (folds 115 d)).
    now rewrite Hd.
  - reflexivity.
  - apply space_not_s.
  - intros ->. apply not_opened_app; [|exact F|reflexivity].
    apply (opens_section_weaker _ step_or_final); [|auto].
    intros d Hd. unfold step_or_final, either. now rewrite Hd.
Qed.

Lemma step_stop_holds b following cs :
  closed_by step_markers following ->
  run step_stop b following cs accept = Some (b, following, cs).
Proof.
  intros [->|(p & rest & [<-|[<-|[]]] & ->)]; reflexivity.
Qed.

Lemma step_body_taken b body following cs :
  no_section_line step_or_final body = true ->
  closed_by step_markers following ->
  run (cat [Grp 3 (Rep true 0 (dot true)); step_stop]) b (body ++ following)
      cs accept
  = Some (rev body ++ b, following, (3, body) :: cs).
Proof.
  intros B F. apply lazy_group.
  - intros w1 c w2 b' cs' E. apply step_stop_fails; [|exact F].
    intros ->. now apply (no_section_line_spec _ _ w1 w2 B).
  - intros b' cs'. now apply step_stop_holds.
Qed.

Lemma ascii_digit_decimal c : ascii_digit c = true -> isdecimal c = true.
Proof.
  unfold ascii_digit, isdecimal, decimal, isascii. intros H. rewrite H.
  apply andb_true_iff in H. destruct H as [_ H]. apply N.leb_le in H.
  assert (L : (c <? 128)%N = true) by (apply N.ltb_lt; lia).
  now rewrite L.
Qed.

Lemma ascii_digit_not_space c : ascii_digit c = true -> isspace c = false.
Proof.
  unfold ascii_digit. intros H. apply andb_true_iff in H.
  destruct H as [H1 H2]. apply N.leb_le in H1, H2. unfold isspace.
  repeat match goal with
         | |- context [(?a <=? ?b)%N] =>
             destruct (N.leb_spec a b); try lia
         | |- context [(?a =? ?b)%N] =>
             destruct (N.eqb_spec a b); try lia
         end; reflexivity.
Qed.


(** *** One step heading and its body *)

Lemma step_run b d ds c cap tx following :
  ascii_digit d = true -> forallb ascii_digit ds = true ->
  negb (c =? ord ":")%N = true -> negb (isspace c) = true ->
  forallb notnl cap = true ->
  no_section_line step_or_final tx = true ->
  closed_by step_markers following ->
  exists bE cs,
    run step_pattern b
        (py "## Step " ++ (d :: ds) ++ py ": " ++ (c :: cap)
         ++ NL :: tx ++ following) [] accept
    = Some (bE, following, cs)
    /\ length bE
       = length b + 8 + length (d :: ds) + 2 + length (c :: cap) + 1
         + length tx
    /\ lookup 1 cs = Some (d :: ds)
    /\ lookup 2 cs = Some (c :: cap)
    /\ lookup 3 cs = Some tx.
Proof.
  intros Dd D C1 C2 CN B F.
  do 2 eexists. split.
  - change (run step_pattern b
              (py "## Step " ++ (d :: ds) ++ py ": " ++ (c :: cap)
               ++ NL :: tx ++ following) [] accept)
      with (run ws1 (rev (py "## Step") ++ b)
              (32%N :: d :: ds ++ py ": " ++ (c :: cap)
                 ++ NL :: tx ++ following) []
              (fun b1 r1 c1 =>
                 run (cat [Grp 1 (Rep false 1 isdecimal);
                           Rep false 1 (either (chr (ord ":")) isspace);
                           Grp 2 (Rep true 1 (dot true)); nl;
                           cat [Grp 3 (Rep true 0 (dot true)); step_stop]])
                     b1 r1 c1 accept)).
    rewrite ws1_blank by (now apply ascii_digit_not_space).
    rewrite run_cat_cons. cbn [run].
    change (d :: ds ++ py ": " ++ (c :: cap) ++ NL :: tx ++ following)
      with ((d :: ds) ++ py ": " ++ (c :: cap) ++ NL :: tx ++ following).
    apply rep_greedy_span.
    + cbn [forallb]. rewrite (ascii_digit_decimal d Dd). cbn [andb].
      rewrite forallb_forall in *. intros x Hx.
      apply ascii_digit_decimal. now apply D.
    + simpl. lia.
    + reflexivity.
    + cbv beta. rewrite run_cat_cons. cbn [run].
      apply (rep_greedy_span _ (py ": ")).
      * reflexivity.
      * simpl. lia.
      * cbn [app]. unfold either, chr. rewrite N.eqb_sym.
        apply negb_true_iff in C1, C2. rewrite C1, C2. reflexivity.
      * cbv beta. rewrite run_cat_cons. cbn [run app rep].
        change (dot true c) with true. cbv iota.
        rewrite rep_lazy_skip.
        -- apply rep_lazy_here. rewrite run_cat_cons. unfold nl. cbn [run].
           change (chr NL NL) with true. cbv iota.
           rewrite step_body_taken by assumption. reflexivity.
        -- clear. induction cap; simpl; auto.
        -- intros w1 c' w2 E. rewrite run_cat_cons. unfold nl. cbn [run].
           rewrite forallb_forall in CN.
           assert (Hc : notnl c' = true) by (apply CN; rewrite E; apply in_elt).
           unfold notnl in Hc. apply negb_true_iff in Hc.
           unfold chr. rewrite N.eqb_sym, Hc. reflexivity.
  - split; [|split; [|split]].
    + repeat (rewrite ?length_app, ?length_rev; cbn [length]).
      change (length (py "## Step")) with 7.
      change (length (py ": ")) with 2. lia.
    + cbn [lookup Nat.eqb]. f_equal. apply (firstn_consumed (d :: ds)).
      repeat (rewrite ?length_app, ?length_rev; cbn [length]). lia.
    + cbn [lookup Nat.eqb]. f_equal. apply (firstn_consumed (c :: cap)).
      repeat (rewrite ?length_app, ?length_rev; cbn [length]). lia.
    + reflexivity.
Qed.

Lemma step_match b s following :
  well_formed_section s -> closed_by step_markers following ->
  exists m,
    match_here step_pattern b
               ((step_heading s ++ NL :: step_body s) ++ following) = Some m
    /\ m_end m = length b + length (step_heading s ++ NL :: step_body s)
    /\ group m 1 = Some (numeral s)
    /\ group m 2 = Some (caption s)
    /\ group m 3 = Some (step_body s).
Proof.
  intros (N & D & C0 & CN & B) F. destruct s as [ds cap tx].
  cbn [numeral caption step_body] in *.
  destruct ds as [|d ds]; [congruence|].
  destruct cap as [|c cap]; [discriminate C0|].
  apply andb_true_iff in C0. destruct C0 as [C1 C2].
  cbn [forallb] in D, CN.
  apply andb_true_iff in D. destruct D as [Dd D].
  apply andb_true_iff in CN. destruct CN as [_ CN].
  destruct (step_run b d ds c cap tx following Dd D C1 C2 CN B F)
    as (bE & cs & R & L & G1 & G2 & G3).
  assert (T : ((py "## Step " ++ (d :: ds) ++ py ": " ++ c :: cap)
                 ++ NL :: tx) ++ following
              = py "## Step " ++ (d :: ds) ++ py ": " ++ (c :: cap)
                ++ NL :: tx ++ following)
    by (rewrite <- !app_assoc; reflexivity).
  unfold match_here, step_heading. cbn [numeral caption step_body].
  rewrite T, R.
  eexists. split; [reflexivity|]. cbn [m_end group m_caps].
  split; [|auto].
  rewrite L. repeat (rewrite ?length_app; cbn [length]).
  change (length (py "## Step ")) with 8.
  change (length (py ": ")) with 2. lia.
Qed.

(** *** All the steps *)

Lemma sections_text_closed sections closing :
  closing = [] \/ (exists r, closing = NL :: py "## Finalization" ++ r) ->
  closed_by step_markers (sections_text sections closing).
Proof.
  intros C. destruct sections as [|s rest]; cbn [sections_text].
  - destruct C as [->|(r & ->)]; [now left|].
    right. exists (py "## Finalization"), r. split; [|reflexivity].
    right. now left.
  - right. exists (py "## Step"),
      (32%N :: numeral s ++ py ": " ++ caption s ++ NL :: step_body s
         ++ sections_text rest closing).
    split; [now left|]. unfold step_heading. rewrite <- !app_assoc.
    reflexivity.
Qed.

Lemma closed_number_sign closing :
  closing = [] \/ (exists r, closing = NL :: py "## Finalization" ++ r) ->
  closing = [] \/ (exists r, closing = NL :: ord "#" :: r).
Proof. intros [->|(r & ->)]; [now left|]. right. eexists. reflexivity. Qed.

(** The scan passes over a text in which no Step heading opens. *)
Lemma no_step_pass pre resume b following :
  no_section_of step_initial pre = true ->
  following = [] \/ (exists r, following = NL :: ord "#" :: r) ->
  finditer_from step_pattern resume b (pre ++ following)
  = finditer_from step_pattern resume (rev pre ++ b) following.
Proof.
  intros P F. apply finditer_from_skip. intros w1 c w2 E.
  pose proof (no_section_of_spec _ _ _ _ _ P E) as O.
  unfold match_here.
  change (run step_pattern (rev w1 ++ b) (c :: w2 ++ following) [] accept)
    with (run (cat [lit true "##"; ws1;
                    cat [lit true "Step"; ws1;
                         Grp 1 (Rep false 1 isdecimal);
                         Rep false 1 (either (chr (ord ":")) isspace);
                         Grp 2 (Rep true 1 (dot true)); nl;
                         Grp 3 (Rep true 0 (dot true)); step_stop]])
              (rev w1 ++ b) ((c :: w2) ++ following) [] accept).
  rewrite (no_section_here _ step_initial); [reflexivity| | | |].
  - intros x Hx. unfold step_initial in Hx.
    change (negb (folds 115 x) = true). now rewrite Hx.
  - reflexivity.
  - apply space_not_s.
  - apply not_opened_app; [exact O|exact F|reflexivity].
Qed.

Lemma steps_of_scan sections closing : forall resume b,
  Forall well_formed_section sections ->
  closing = [] \/ (exists r, closing = NL :: py "## Finalization" ++ r) ->
  no_section_of step_initial closing = true ->
  resume <= length b ->
  mapM step_of_match
       (finditer_from step_pattern resume b (sections_text sections closing))
  = mapM section_step sections.
Proof.
  induction sections as [|s rest IH]; intros resume b W C N L.
  - cbn [sections_text mapM]. rewrite <- (app_nil_r closing).
    rewrite no_step_pass by (auto). now rewrite finditer_from_nil.
  - inversion W as [|? ? Ws W']; subst. cbn [sections_text].
    change (NL :: step_heading s ++ NL :: step_body s
              ++ sections_text rest closing)
      with ([NL] ++ (step_heading s ++ NL :: step_body s
                       ++ sections_text rest closing)).
    rewrite finditer_from_skip.
    2:{ intros w1 c w2 E. destruct w1 as [|x w1]; [|destruct w1; discriminate E].
        injection E as <- <-. reflexivity. }
    pose proof (sections_text_closed rest closing C) as F.
    destruct (step_match (rev [NL] ++ b) s _ Ws F) as (m & M & E & G1 & G2 & G3).
    change (step_heading s ++ NL :: step_body s ++ sections_text rest closing)
      with (step_heading s ++ (NL :: step_body s) ++ sections_text rest closing).
    rewrite app_assoc.
    rewrite (finditer_from_match _ _ _ _ _ m); [| | |exact M|exact E].
    + cbn [mapM]. unfold step_of_match at 1, group_str.
      rewrite G1, G2, G3. cbn [bind ret].
      rewrite IH; [reflexivity|exact W'|exact C|exact N|].
      rewrite E. repeat (rewrite ?length_app, ?length_rev). lia.
    + unfold step_heading. destruct (py "## Step " ++ numeral s ++ py ": " ++ caption s) eqn:X;
        [discriminate X|discriminate].
    + simpl. lia.
Qed.

Lemma extract_steps_sections
    (pre : str) (sections : list step_section) (closing : str) :
  no_section_of step_initial pre = true ->
  Forall well_formed_section sections ->
  closing = [] \/ (exists r, closing = NL :: py "## Finalization" ++ r) ->
  no_section_of step_initial closing = true ->
  extract_steps (pre ++ sections_text sections closing)
  = mapM section_step sections.
Proof.
  intros P W C N. unfold extract_steps, finditer.
  rewrite no_step_pass; [|exact P|].
  - apply steps_of_scan; auto. lia.
  - destruct sections as [|s rest]; cbn [sections_text].
    + now apply closed_number_sign.
    + right. eexists. unfold step_heading. rewrite <- !app_assoc. reflexivity.
Qed.



End Headings.

(** ** The numbers that the headings declare *)

Section DeclaredNumbers.
Context {I : Interpreter}.

Lemma int_value s z : int s = inr z -> value_of s = z.
Proof.
  unfold int, value_of. destruct s as [|c t]; [discriminate|].
  destruct (_ && _); [discriminate|]. now intros ->.
Qed.

(** The numbers of the parsed steps are the numbers that the headings
    declare. *)
Lemma numbers_of_sections sections : forall steps,
  mapM section_step sections = inr steps ->
  map Step.number steps = declared sections.
Proof.
  induction sections as [|s rest IH]; intros steps H; cbn [mapM] in H.
  - injection H as <-. reflexivity.
  - apply bind_inr in H. destruct H as (step & Hs & H).
    apply bind_inr in H. destruct H as (steps' & Hr & H).
    injection H as <-. cbn [map declared]. f_equal; [|now apply IH].
    unfold section_step in Hs. apply bind_inr in Hs.
    destruct Hs as (n & Hn & Hs). apply parse_step_inv in Hs.
    destruct Hs as (-> & _). symmetry. now apply int_value.
Qed.

Lemma parsed_numbers pre sections closing r :
  no_section_of step_initial pre = true ->
  Forall well_formed_section sections ->
  closing = [] \/ (exists t, closing = NL :: py "## Finalization" ++ t) ->
  no_section_of step_initial closing = true ->
  validate (new (pre ++ sections_text sections closing)) = inr r ->
  exists v,
    _parse_document (new (pre ++ sections_text sections closing)) = inr v
    /\ map Step.number (steps v) = declared sections.
Proof.
  intros P W C N H. apply validate_new in H. destruct H as (v & Pv & _).
  exists v. split; [exact Pv|].
  apply parse_new_fields in Pv. destruct Pv as (_ & _ & _ & S & _).
  rewrite extract_steps_sections in S by assumption.
  now apply numbers_of_sections.
Qed.

Lemma declared_repeats sections :
  ~ NoDup (map numeral sections) -> ~ NoDup (declared sections).
Proof.
  intros H D. apply H. unfold declared in D.
  rewrite <- (map_map numeral value_of) in D.
  now apply NoDup_map_inv in D.
Qed.

(** C8: the duplicate-numbers error is reported exactly once when a step
    number is declared more than once, and not at all when the declared
    numbers are pairwise distinct.  For the steps as parsed this holds of
    every document.  For a document written as step sections (each heading
    on a new line, after a text without a Step heading) it holds of the
    numbers that the headings declare: two headings with the same digits,
    such as two headings Step 1, or with digits of the same value, give
    the error exactly once. *)
Theorem duplicate_numbers_reported_once
    (pre : str) (sections : list step_section) (closing : str)
    (r : ValidationResult.t) :
  no_section_of step_initial pre = true ->
  Forall well_formed_section sections ->
  closing = [] \/ (exists t, closing = NL :: py "## Finalization" ++ t) ->
  no_section_of step_initial closing = true ->
  validate (new (pre ++ sections_text sections closing)) = inr r ->
  (~ NoDup (map numeral sections) ->
   count_occ str_dec (ValidationResult.errors r) DUPLICATES = 1)
  /\ (~ NoDup (declared sections) ->
      count_occ str_dec (ValidationResult.errors r) DUPLICATES = 1)
  /\ (NoDup (declared sections) ->
      count_occ str_dec (ValidationResult.errors r) DUPLICATES = 0)
  /\ (forall content r' v,
        _parse_document (new content) = inr v ->
        validate (new content) = inr r' ->
        (NoDup (map Step.number (steps v)) ->
         count_occ str_dec (ValidationResult.errors r') DUPLICATES = 0)
        /\ (~ NoDup (map Step.number (steps v)) ->
            count_occ str_dec (ValidationResult.errors r') DUPLICATES = 1)).
Proof.
  intros P W C N H.
  destruct (parsed_numbers _ _ _ _ P W C N H) as (v & Pv & E).
  destruct (duplicates_counted _ _ H) as (v' & Pv' & D0 & D1).
  rewrite Pv in Pv'. injection Pv' as <-. rewrite E in D0, D1.
  split; [|split; [|split]].
  - intros X. apply D1. now apply declared_repeats.
  - exact D1.
  - exact D0.
  - intros content r' w Pw Hw.
    destruct (duplicates_counted _ _ Hw) as (w' & Pw' & X0 & X1).
    rewrite Pw in Pw'. injection Pw' as <-. auto.
Qed.

(** C9: a document with exactly two steps, declared 1 and 3, gets from the
    flow rules the not-sequential warning and the gap warning, each once,
    and no error: the result holds what the earlier passes reported and
    these two warnings after it.  The document is written as two step
    sections (each heading on a new line, after a text without a Step
    heading).  In every document the gap warning occurs at most once,
    however many gaps there are. *)
Theorem gap_in_numbering
    (pre : str) (first second : step_section) (closing : str)
    (r : ValidationResult.t) :
  no_section_of step_initial pre = true ->
  well_formed_section first -> well_formed_section second ->
  closing = [] \/ (exists t, closing = NL :: py "## Finalization" ++ t) ->
  no_section_of step_initial closing = true ->
  declared [first; second] = [1; 3]%Z
  \/ declared [first; second] = [3; 1]%Z ->
  validate (new (pre ++ sections_text [first; second] closing)) = inr r ->
  (exists v,
     _parse_document (new (pre ++ sections_text [first; second] closing))
     = inr v
     /\ ValidationResult.errors r
        = errors (_validate_steps (_validate_structure v))
     /\ ValidationResult.warnings r
        = warnings (_validate_steps (_validate_structure v))
          ++ [NOT_SEQUENTIAL [1; 3]%Z [1; 2]%Z; GAP])
  /\ In (NOT_SEQUENTIAL [1; 3]%Z [1; 2]%Z) (ValidationResult.warnings r)
  /\ count_occ str_dec (ValidationResult.warnings r) GAP = 1
  /\ ~ In DUPLICATES (ValidationResult.errors r)
  /\ (forall content r',
        validate (new content) = inr r' ->
        count_occ str_dec (ValidationResult.warnings r') GAP <= 1).
Proof.
  intros P W1 W2 C N D H.
  assert (W : Forall well_formed_section [first; second])
    by (constructor; [exact W1|constructor; [exact W2|constructor]]).
  destruct (parsed_numbers _ _ _ _ P W C N H) as (v & Pv & E).
  assert (S : sorted (map Step.number (steps v)) = [1; 3]%Z)
    by (rewrite E; destruct D as [-> | ->]; reflexivity).
  destruct (flow_of_one_and_three _ _ _ Pv H) as (G & F).
  destruct (F S) as (Fe & Fw).
  assert (ND : NoDup (map Step.number (steps v))).
  { rewrite E. destruct D as [-> | ->];
      repeat constructor; simpl; intuition discriminate. }
  split; [eauto|]. split; [|split; [|split]].
  - rewrite Fw. apply in_app_iff. right. now left.
  - apply Nat.le_antisymm; [exact G|].
    assert (X : In GAP (ValidationResult.warnings r)).
    { rewrite Fw. apply in_app_iff. right. right. now left. }
    apply (count_occ_In str_dec) in X. lia.
  - destruct (duplicates_counted _ _ H) as (v' & Pv' & D0 & _).
    rewrite Pv in Pv'. injection Pv' as <-.
    apply (count_occ_not_In str_dec). now apply D0.
  - intros content r' H'.
    destruct (validate_new _ _ H') as (w & Pw & _).
    exact (proj1 (flow_of_one_and_three _ _ _ Pw H')).
Qed.

End DeclaredNumbers.

(** ** No message twice *)

Section Messages.
Context {I : Interpreter}.

Lemma py_inj (a b : string) : py a = py b -> a = b.
Proof.
  unfold py. intros H.
  rewrite <- (string_of_list_ascii_of_string a).
  rewrite <- (string_of_list_ascii_of_string b). f_equal.
  revert H. generalize (list_ascii_of_string a) (list_ascii_of_string b).
  induction l as [|x l IH]; intros [|y l'] H; try discriminate H;
    [reflexivity|].
  simpl in H. injection H as Hx H. f_equal; [|now apply IH].
  rewrite <- (ascii_N_embedding x), <- (ascii_N_embedding y). now rewrite Hx.
Qed.

Lemma str_of_int_inj a b : str_of_int a = str_of_int b -> a = b.
Proof.
  unfold str_of_int. intros H. apply py_inj in H.
  apply DecimalZ.to_int_inj.
  assert (X : forall z, NilZero.int_of_string (NilZero.string_of_int (Z.to_int z))
                        = Some (Z.to_int z)).
  { intros z. apply NilZero.isi; destruct z; simpl; try discriminate;
      intros E; injection E as E; revert E; apply DecimalPos.Unsigned.to_uint_nonnil. }
  pose proof (X a) as Xa. rewrite H, X in Xa. now injection Xa.
Qed.


Lemma uint_chars d :
  forallb numeral_char (py (NilEmpty.string_of_uint d)) = true.
Proof.
  induction d; unfold py in *;
    cbn [NilEmpty.string_of_uint list_ascii_of_string map forallb];
    [reflexivity|rewrite IHd; reflexivity ..].
Qed.

Lemma uint_not_empty d : d <> Decimal.Nil -> py (NilEmpty.string_of_uint d) <> [].
Proof. destruct d; [congruence|discriminate ..]. Qed.

Lemma str_of_int_chars z :
  str_of_int z <> [] /\ forallb numeral_char (str_of_int z) = true.
Proof.
  unfold str_of_int. destruct z as [|p|p]; cbn [Z.to_int].
  - split; [discriminate|reflexivity].
  - pose proof (DecimalPos.Unsigned.to_uint_nonnil p) as N.
    cbn [NilZero.string_of_int]. unfold NilZero.string_of_uint.
    destruct (Pos.to_uint p) eqn:E; try congruence;
      (split; [apply uint_not_empty; discriminate|apply uint_chars]).
  - pose proof (DecimalPos.Unsigned.to_uint_nonnil p) as N.
    cbn [NilZero.string_of_int]. unfold NilZero.string_of_uint.
    split; [discriminate|].
    destruct (Pos.to_uint p) eqn:E; try congruence;
      (change (py (String "-" ?s)) with (45%N :: py s); cbn [forallb];
       rewrite uint_chars; reflexivity).
Qed.

Lemma colon_split (u v x y : str) :
  forallb numeral_char u = true -> forallb numeral_char v = true ->
  u ++ ord ":" :: x = v ++ ord ":" :: y -> u = v /\ x = y.
Proof.
  revert v. induction u as [|c u IH]; intros [|d v] Hu Hv E;
    cbn [app forallb] in *.
  - injection E as <-. auto.
  - injection E as <- _. apply andb_true_iff in Hv. destruct Hv as [Hv _].
    discriminate Hv.
  - injection E as -> _. apply andb_true_iff in Hu. destruct Hu as [Hu _].
    discriminate Hu.
  - injection E as <- E. apply andb_true_iff in Hu, Hv.
    destruct (IH v) as [-> ->]; tauto.
Qed.

(** A message names one step number. *)
Lemma step_says_same a b m :
  step_says a m -> step_says b m -> Step.number a = Step.number b.
Proof.
  intros (x & ->) (y & E). unfold prefix_of in E. rewrite <- !app_assoc in E.
  apply app_inv_head in E. apply colon_split in E.
  - apply str_of_int_inj. tauto.
  - apply str_of_int_chars.
  - apply str_of_int_chars.
Qed.

Lemma step_says_message step m : step_says step m -> step_message m.
Proof.
  intros (x & ->). unfold prefix_of, step_message. rewrite <- app_assoc.
  eexists. reflexivity.
Qed.

Lemma step_says_not_sequential step found expected :
  ~ step_says step (NOT_SEQUENTIAL found expected).
Proof.
  intros (x & E). unfold NOT_SEQUENTIAL, prefix_of in E.
  change (py "Step numbers are not sequential. Found: ")
    with (py "Step " ++ py "numbers are not sequential. Found: ") in E.
  rewrite <- !app_assoc in E. apply app_inv_head in E.
  destruct (str_of_int_chars (Step.number step)) as [N C].
  destruct (str_of_int (Step.number step)) as [|c t]; [congruence|].
  cbn [app forallb] in *. injection E as <- _. discriminate C.
Qed.

Lemma step_errors_say step : Forall (step_says step) (step_errors step).
Proof.
  unfold step_errors.
  destruct (truthy (Step.task step));
    destruct (existsb (str_eqb (Step.flexibility_level step))
                      VALID_FLEXIBILITY_LEVELS); cbn [app];
    repeat constructor;
    unfold MISSING_TASK, INVALID_LEVEL, step_says;
    eexists; reflexivity.
Qed.

Lemma step_warnings_say total step :
  Forall (step_says step) (step_warnings total step).
Proof.
  unfold step_warnings.
  repeat (apply Forall_app; split);
    repeat match goal with
           | |- Forall _ (if ?c then _ else _) => destruct c
           | |- Forall _ (match ?c with _ => _ end) => destruct c
           end;
    repeat constructor;
    unfold BRIEF_TASK, NO_SAVE_AS, NO_CRITERIA, RELATIVE_PATH, step_says;
    eexists; reflexivity.
Qed.

(** The messages of one step differ from one another. *)
Ltac distinct_messages :=
  repeat (constructor;
          [cbn [In]; intros H;
           repeat (destruct H as [H|H];
                   [apply app_inv_head in H; vm_compute in H; discriminate H|]);
           exact H|]);
  constructor.

Ltac distinct_constants :=
  repeat constructor; cbn [In]; intros X;
  repeat (destruct X as [X|X]; [vm_compute in X; discriminate X|]);
  exact X.

Ltac distinct_heads :=
  repeat constructor; cbn [In]; intros X;
  repeat (destruct X as [X|X];
          [apply (f_equal (@hd_error N)) in X; vm_compute in X;
           discriminate X|]);
  exact X.

Lemma NoDup_step_errors step : NoDup (step_errors step).
Proof.
  unfold step_errors, MISSING_TASK, INVALID_LEVEL.
  destruct (truthy (Step.task step));
    destruct (existsb (str_eqb (Step.flexibility_level step))
                      VALID_FLEXIBILITY_LEVELS); cbn [app];
    distinct_messages.
Qed.

Lemma NoDup_step_warnings total step : NoDup (step_warnings total step).
Proof.
  unfold step_warnings, BRIEF_TASK, NO_SAVE_AS, NO_CRITERIA, RELATIVE_PATH.
  destruct (truthy (Step.task step) && (len_of (Step.task step) <? 10));
    destruct (negb (truthy (Step.save_as step))
              && (Step.number step <? Z.of_nat total)%Z);
    destruct (Step.success_criteria step);
    (destruct (Step.save_as step) as [p|];
     [destruct (nonempty p && negb (startswith (py "/") p))|]);
    cbn [app]; distinct_messages.
Qed.

Lemma NoDup_flat_map_steps (f : Step.t -> list str) steps :
  (forall s, NoDup (f s)) -> (forall s, Forall (step_says s) (f s)) ->
  NoDup (map Step.number steps) -> NoDup (flat_map f steps).
Proof.
  intros D S. induction steps as [|a l IH]; intros H; cbn [flat_map map] in *.
  - constructor.
  - inversion H as [|? ? Ha Hl]; subst. apply NoDup_app; auto.
    intros x Hx Hx'. apply in_flat_map in Hx'. destruct Hx' as (s & Hs & Hx').
    apply Ha. apply in_map_iff. exists s. split; [|exact Hs].
    pose proof (S a) as Sa. pose proof (S s) as Ss.
    rewrite Forall_forall in Sa, Ss. symmetry.
    apply (step_says_same a s x); auto.
Qed.

Lemma In_flat_map_says (f : Step.t -> list str) steps x :
  (forall s, Forall (step_says s) (f s)) ->
  In x (flat_map f steps) -> exists s, step_says s x.
Proof.
  intros S H. apply in_flat_map in H. destruct H as (s & _ & H).
  exists s. pose proof (S s) as Ss. rewrite Forall_forall in Ss. auto.
Qed.

(** In a document whose steps declare different numbers no message is
    reported twice: every error and every warning of the result stands in
    its list once.  (With a number declared twice the messages of the two
    steps can coincide.) *)
Theorem no_message_twice (content : str) (v : self) (r : ValidationResult.t) :
  _parse_document (new content) = inr v ->
  validate (new content) = inr r ->
  NoDup (map Step.number (steps v)) ->
  NoDup (ValidationResult.errors r) /\ NoDup (ValidationResult.warnings r).
Proof.
  intros P H D. apply validate_new in H.
  destruct H as (v' & P' & E & W & _). rewrite P in P'. injection P' as <-.
  rewrite E, W. unfold all_errors, all_warnings. split.
  - rewrite (proj2 (flow_errors_nil _) D), app_nil_r.
    apply NoDup_app.
    + unfold structure_errors.
      destruct (truthy (title v)); destruct (steps v); cbn [app];
        distinct_constants.
    + apply NoDup_flat_map_steps; auto using NoDup_step_errors, step_errors_say.
    + intros x Hx Hx'.
      apply In_flat_map_says in Hx'; [|apply step_errors_say].
      destruct Hx' as (s & Hs). apply step_says_message in Hs.
      refine (step_message_neq _ x Hs _ eq_refl).
      unfold structure_errors in Hx. apply in_app_iff in Hx.
      destruct Hx as [Hx|Hx].
      * destruct (truthy (title v)); [contradiction|].
        destruct Hx as [<-|[]]. vm_compute. discriminate.
      * destruct (steps v); [|contradiction].
        destruct Hx as [<-|[]]. vm_compute. discriminate.
  - assert (F : forall x, In x (flow_warnings (map Step.number (steps v))) ->
                  (exists f e, x = NOT_SEQUENTIAL f e) \/ x = GAP).
    { intros x Hx. unfold flow_warnings in Hx.
      destruct (map Step.number (steps v)); [contradiction|].
      apply in_app_iff in Hx. destruct Hx as [Hx|Hx].
      - destruct (list_eqb _ _); [contradiction|]. destruct Hx as [<-|[]].
        left. eauto.
      - destruct (gap_found _); [|contradiction]. destruct Hx as [<-|[]].
        now right. }
    assert (G : forall s, ~ step_says s GAP).
    { intros s Hs. apply step_says_message in Hs.
      refine (step_message_neq _ GAP Hs _ eq_refl). vm_compute. discriminate. }
    apply NoDup_app; [| apply NoDup_app |].
    + unfold structure_warnings.
      destruct (meta v); destruct (truthy (finalization v)); cbn [app];
        distinct_constants.
    + apply NoDup_flat_map_steps;
        auto using NoDup_step_warnings, step_warnings_say.
    + unfold flow_warnings. destruct (map Step.number (steps v)); [constructor|].
      destruct (list_eqb _ _); destruct (gap_found _); cbn [app];
        distinct_heads.
    + intros x Hx Hx'.
      apply In_flat_map_says in Hx; [|apply step_warnings_say].
      destruct Hx as (s & Hs). apply F in Hx'.
      destruct Hx' as [(f & e & ->)| ->].
      * now apply step_says_not_sequential in Hs.
      * now apply G in Hs.
    + intros x Hx Hx'.
      assert (C : hd_error x = Some 67%N).
      { unfold structure_warnings in Hx. apply in_app_iff in Hx.
        destruct Hx as [Hx|Hx].
        - destruct (meta v); [|contradiction]. now destruct Hx as [<-|[]].
        - destruct (truthy (finalization v)); [contradiction|].
          now destruct Hx as [<-|[]]. }
      apply in_app_iff in Hx'. destruct Hx' as [Hx'|Hx'].
      * apply In_flat_map_says in Hx'; [|apply step_warnings_say].
        destruct Hx' as (s & (y & ->)). unfold prefix_of in C.
        rewrite <- app_assoc in C. vm_compute in C. discriminate C.
      * apply F in Hx'. destruct Hx' as [(f & e & ->)| ->];
          vm_compute in C; discriminate C.
Qed.

End Messages.

(** ** The bullets of Success criteria and Constraints *)

Lemma bullet_line_filter (line : str) :
  nonempty (strip line)
  && (startswith (py "-") (strip line) || startswith (py "*") (strip line))
  = bullet_line line.
Proof.
  unfold bullet_line. destruct (strip line); [reflexivity|]. reflexivity.
Qed.

Lemma rstrip_tail c (t : str) : rstrip (c :: t) = c :: t -> rstrip t = t.
Proof.
  unfold rstrip. cbn [rev]. rewrite dropwhile_app. intros H.
  destruct (dropwhile isspace (rev t)) as [|d u] eqn:E.
  - assert (L : length (rev (dropwhile isspace [c])) <= 1)
      by (simpl; destruct (isspace c); simpl; lia).
    rewrite H in L. destruct t; [reflexivity|simpl in L; lia].
  - cbn [rev] in H. rewrite rev_app_distr in H. cbn [rev app] in H.
    now injection H.
Qed.

Lemma rstrip_dropwhile f (s : str) :
  rstrip s = s -> rstrip (dropwhile f s) = dropwhile f s.
Proof.
  induction s as [|c t IH]; intros H; [exact H|]. simpl.
  destruct (f c); [|exact H]. apply IH. now apply rstrip_tail in H.
Qed.

Lemma dropwhile_head f (s : str) c t : dropwhile f s = c :: t -> f c = false.
Proof.
  induction s as [|x s IH]; simpl; [discriminate|].
  destruct (f x) eqn:E; [exact IH|]. intros H. now injection H as <- _.
Qed.

Lemma filter_nil_iff {A} (f : A -> bool) l :
  filter f l = [] <-> Forall (fun a => f a = false) l.
Proof.
  induction l as [|a l IH]; simpl; [split; auto|].
  destruct (f a) eqn:E; split; intros H.
  - discriminate H.
  - inversion H; congruence.
  - constructor; [exact E|]. now apply IH.
  - inversion H. now apply IH.
Qed.

(** The criteria and the constraints of a step are the bullet lines of
    their subsection: one entry for each line that, trimmed, starts with a
    hyphen or a star (a line with nothing after the bullet counts, with an
    empty entry), so the list is empty exactly when the subsection has no
    such line.  An entry is one line without white space at its end, and
    does not start with a star or a blank. *)
Theorem entries_are_bullet_lines (text : str) :
  length (bullets text) = length (filter bullet_line (split_on NL text))
  /\ (bullets text = []
      <-> Forall (fun line => bullet_line line = false) (split_on NL text))
  /\ Forall (fun entry =>
               ~ In NL entry /\ rstrip entry = entry
               /\ hd_error entry <> Some (ord "*")
               /\ hd_error entry <> Some 32%N)
            (bullets text).
Proof.
  unfold bullets.
  rewrite (filter_ext _ bullet_line) by (intros; apply bullet_line_filter).
  split; [apply length_map|]. split.
  - rewrite <- filter_nil_iff.
    destruct (filter bullet_line (split_on NL text)); split;
      (reflexivity || discriminate).
  - apply Forall_forall. intros entry H. apply in_map_iff in H.
    destruct H as (line & <- & H). apply filter_In in H. destruct H as [H _].
    split; [|split].
    + intros Hn. apply In_dropwhile, In_dropwhile, In_strip in Hn.
      revert Hn. eapply split_on_no_sep. exact H.
    + unfold lstrip_chars. apply rstrip_dropwhile, rstrip_dropwhile.
      unfold strip. apply rstrip_idem.
    + unfold lstrip_chars.
      destruct (dropwhile (member (py "* "))
                  (dropwhile (member (py "- ")) (strip line)))
        as [|c t] eqn:E; [split; discriminate|].
      apply dropwhile_head in E. cbn [hd_error].
      split; intros X; injection X as ->; discriminate E.
Qed.

(** * The further properties on the documents *)

Lemma valid_iff_deploy :
  ValidationResult.valid (outcome deploy_doc) = true
  <-> truthy (title (parsed deploy_doc)) = true
      /\ steps (parsed deploy_doc) <> []
      /\ Forall (fun step =>
                   truthy (Step.task step) = true
                   /\ In (Step.flexibility_level step) VALID_FLEXIBILITY_LEVELS)
                (steps (parsed deploy_doc))
      /\ NoDup (map Step.number (steps (parsed deploy_doc))).
Proof.
  apply (valid_iff (I := cpython) deploy_doc (parsed deploy_doc)
           (outcome deploy_doc)); vm_compute; reflexivity.
Defined.

Lemma summary_of_one_three_doc :
  (In MISSING_TITLE (ValidationResult.errors (outcome one_three_doc))
   <-> truthy (ValidationResult.title
                 (ValidationResult.info (outcome one_three_doc))) = false)
  /\ (In NO_STEPS (ValidationResult.errors (outcome one_three_doc))
      <-> ValidationResult.step_count
            (ValidationResult.info (outcome one_three_doc)) = 0)
  /\ (In NO_FINALIZATION (ValidationResult.warnings (outcome one_three_doc))
      <-> ValidationResult.has_finalization
            (ValidationResult.info (outcome one_three_doc)) = false).
Proof.
  apply (summary_agrees_with_messages (I := cpython) one_three_doc
           (outcome one_three_doc)).
  vm_compute. reflexivity.
Defined.

Lemma plain_notes_report :
  validate (I := cpython) (new (py "plain notes, no heading"))
  = inr {| ValidationResult.valid := false;
           ValidationResult.errors := [MISSING_TITLE; NO_STEPS];
           ValidationResult.warnings := [NO_META; NO_FINALIZATION];
           ValidationResult.info :=
             {| ValidationResult.title := None;
                ValidationResult.step_count := 0;
                ValidationResult.has_meta := false;
                ValidationResult.has_context := false;
                ValidationResult.has_finalization := false |} |}.
Proof.
  apply (text_without_headings (I := cpython) (py "plain notes, no heading")).
  vm_compute. reflexivity.
Defined.

Lemma version_assigned_twice :
  dict_get (lower (I := cpython) (strip (py "VERSION ")))
           (match _parse_meta (I := cpython) versions_meta with
            | inr d => d
            | inl _ => []
            end)
  = Some (strip (py " 2.0:beta")).
Proof.
  apply (meta_last_line_wins (I := cpython) versions_meta _
           [py "Version: 1.0"; py "author: me"] [py "note"]
           (py "VERSION ") (py " 2.0:beta")).
  - vm_compute. reflexivity.
  - vm_compute. reflexivity.
  - vm_compute. intuition discriminate.
  - intros line v [<-|[]]. vm_compute. discriminate.
Defined.

Lemma npm_entry_is_trimmed :
  py "npm ci" <> [] /\ strip (py "npm ci") = py "npm ci"
  /\ ~ In NL (py "npm ci").
Proof.
  apply (dependency_entries_are_trimmed_lines one_block_text (py "npm ci")).
  vm_compute. right. left. reflexivity.
Defined.

Lemma deploy_texts_are_trimmed :
  trimmed (title (parsed deploy_doc))
  /\ trimmed (context (parsed deploy_doc))
  /\ trimmed (finalization (parsed deploy_doc))
  /\ Forall (fun step =>
               strip (Step.title step) = Step.title step
               /\ trimmed (Step.task step)
               /\ trimmed (Step.flexibility step))
            (steps (parsed deploy_doc)).
Proof.
  apply (parsed_texts_are_trimmed (I := cpython) deploy_doc).
  vm_compute. reflexivity.
Defined.

Lemma twice_one_steps_follow_headings :
  length (steps (parsed twice_one_doc))
  = length (finditer (step_pattern (I := cpython)) twice_one_doc)
  /\ mapM (fun m => g <- group_str m 1 ;; int (I := cpython) g)
          (finditer (step_pattern (I := cpython)) twice_one_doc)
     = inr (map Step.number (steps (parsed twice_one_doc)))
  /\ Forall (fun step => (0 <= Step.number step)%Z)
            (steps (parsed twice_one_doc)).
Proof.
  apply (steps_follow_headings (I := cpython) twice_one_doc).
  vm_compute. reflexivity.
Defined.

Lemma quoted_path_is_clean :
  (forall c, In c (py "/tmp/out.json") ->
             c <> BACKTICK /\ c <> DQUOTE /\ c <> NL)
  /\ strip (py "/tmp/out.json") = py "/tmp/out.json".
Proof.
  apply (save_as_is_clean quoted_path_step (py "/tmp/out.json")).
  vm_compute. reflexivity.
Defined.

Lemma strict_tag_in_capitals :
  exists head sp1 name sp2 tag tail,
    strict_step = head ++ py "###" ++ sp1 ++ name ++ sp2
                       ++ py "[" ++ tag ++ py "]" ++ tail
    /\ forallb isspace sp1 = true /\ sp1 <> []
    /\ same_letters "Flexibility" name
    /\ forallb isspace sp2 = true
    /\ tag <> [] /\ forallb (isword (I := cpython)) tag = true
    /\ py "strict" = lower (I := cpython) tag.
Proof.
  apply (flexibility_level_is_default_or_tag (I := cpython) strict_step
           (py "strict") (Some (py "No changes"))).
  - vm_compute. reflexivity.
  - vm_compute. discriminate.
Defined.

Lemma one_three_report_size :
  length (ValidationResult.errors (outcome one_three_doc))
  <= 2 * ValidationResult.step_count
           (ValidationResult.info (outcome one_three_doc)) + 2
  /\ length (ValidationResult.warnings (outcome one_three_doc))
     <= 3 * ValidationResult.step_count
              (ValidationResult.info (outcome one_three_doc)) + 4.
Proof.
  apply (report_size (I := cpython) one_three_doc (outcome one_three_doc)).
  vm_compute. reflexivity.
Defined.

Lemma context_after_blank_line :
  extract_context
    (py "# Deploy" ++ [NL; NL] ++ py "## Context" ++ [NL] ++ NL ::
        (py "Runs nightly." ++ NL :: py "Owner: ops" ++ [NL])
        ++ NL :: py "## Step 1: Build")
  = inr (Some (strip (py "Runs nightly." ++ NL :: py "Owner: ops" ++ [NL])))
  /\ extract_meta (I := cpython)
       (py "# Deploy" ++ [NL; NL] ++ py "## Meta" ++ [NL] ++ NL ::
          (py "Runs nightly." ++ NL :: py "Owner: ops" ++ [NL])
          ++ NL :: py "## Step 1: Build")
     = (d <- _parse_meta (I := cpython)
               (py "Runs nightly." ++ NL :: py "Owner: ops" ++ [NL]) ;;
        ret (Some d)).
Proof.
  apply (section_runs_to_next_heading (I := cpython)
           (py "# Deploy" ++ [NL; NL]) [NL]
           (py "Runs nightly." ++ NL :: py "Owner: ops" ++ [NL])
           (NL :: py "## Step 1: Build")).
  - vm_compute. reflexivity.
  - vm_compute. reflexivity.
  - discriminate.
  - vm_compute. reflexivity.
  - vm_compute. reflexivity.
  - right. exists (py "##"), (py " Step 1: Build").
    split; [left|]; reflexivity.
Defined.

Lemma criteria_after_task_and_save_as :
  extract_success_criteria
    (step_text [] [("Task"%string, NL :: py "Build the image" ++ [NL]);
                   ("Save as"%string, NL :: py "`/tmp/out`" ++ [NL])]
               "Success criteria" []
               (py "- image exists" ++ NL :: py "- tag pushed")
               (NL :: py "### Constraints" ++ NL :: py "- none"))
  = inr (bullets (py "- image exists" ++ NL :: py "- tag pushed")).
Proof.
  apply (proj1 (proj2 (proj2
           (subsection_runs_to_next_heading []
              [("Task"%string, NL :: py "Build the image" ++ [NL]);
               ("Save as"%string, NL :: py "`/tmp/out`" ++ [NL])]
              []
              (py "- image exists" ++ NL :: py "- tag pushed")
              (NL :: py "### Constraints" ++ NL :: py "- none")
              eq_refl eq_refl
              ltac:(discriminate) eq_refl eq_refl
              (or_intror (ex_intro _ (py "###")
                 (ex_intro _ (py " Constraints" ++ NL :: py "- none")
                    (conj (or_introl eq_refl) eq_refl)))))))).
  constructor; [|constructor; [|constructor]].
  - split; [simpl; auto|]. split; [discriminate|reflexivity].
  - split; [simpl; auto|]. split; [discriminate|reflexivity].
Defined.


Lemma save_as_between_backticks :
  extract_save_as
    (step_text [] [("Task"%string, NL :: py "Build the image" ++ [NL])]
               "Save as" [] ([BACKTICK] ++ py "/tmp/out.json")
               (BACKTICK :: NL :: py "### Success criteria" ++ NL
                  :: py "- image exists"))
  = inr (Some (strip (py "/tmp/out.json"))).
Proof.
  apply (save_as_is_first_line []
           [("Task"%string, NL :: py "Build the image" ++ [NL])]
           [] [BACKTICK] (py "/tmp/out.json")
           (BACKTICK :: NL :: py "### Success criteria" ++ NL
              :: py "- image exists")).
  - reflexivity.
  - constructor; [|constructor].
    split; [simpl; auto|]. split; [discriminate|reflexivity].
  - reflexivity.
  - right. left. reflexivity.
  - discriminate.
  - vm_compute. reflexivity.
  - vm_compute. reflexivity.
  - vm_compute. reflexivity.
Defined.

Lemma flexibility_of_strict_tag :
  extract_flexibility (I := cpython)
    (step_text [] [("Task"%string, NL :: py "Build the image" ++ [NL])]
               "Flexibility"
               ([32%N] ++ py "[" ++ py "STRICT" ++ py "]" ++ [])
               (py "No changes") [])
  = inr (lower (I := cpython) (py "STRICT"), Some (strip (py "No changes")))
  /\ (hd_error (py "No changes") <> Some (ord "[") ->
      extract_flexibility (I := cpython)
        (step_text [] [("Task"%string, NL :: py "Build the image" ++ [NL])]
                   "Flexibility" [] (py "No changes") [])
      = inr (py "guided", Some (strip (py "No changes")))).
Proof.
  apply (flexibility_tag_and_text (I := cpython) []
           [("Task"%string, NL :: py "Build the image" ++ [NL])]
           [32%N] (py "STRICT") [] (py "No changes") []).
  - reflexivity.
  - constructor; [|constructor].
    split; [simpl; auto 10|]. split; [discriminate|reflexivity].
  - reflexivity.
  - discriminate.
  - vm_compute. reflexivity.
  - reflexivity.
  - discriminate.
  - vm_compute. reflexivity.
  - vm_compute. reflexivity.
  - left. reflexivity.
Defined.

Lemma one_three_no_message_twice :
  NoDup (ValidationResult.errors (outcome one_three_doc))
  /\ NoDup (ValidationResult.warnings (outcome one_three_doc)).
Proof.
  apply (no_message_twice (I := cpython) one_three_doc (parsed one_three_doc)
           (outcome one_three_doc)).
  - vm_compute. reflexivity.
  - vm_compute. reflexivity.
  - vm_compute. repeat constructor; simpl; intuition discriminate.
Defined.

(** * The numbering claims on the documents *)

Lemma twice_one_reported_once :
  count_occ str_dec (ValidationResult.errors (outcome twice_one_doc)) DUPLICATES
  = 1.
Proof.
  apply (proj1
           (duplicate_numbers_reported_once (I := cpython)
              (py "# Twice" ++ NL :: py "## Meta" ++ NL :: py "version: 1.0")
              [ {| numeral := py "1"; caption := py "Fetch the sources";
                   step_body := py "### Task
Fetch the sources from the mirror
### Save as
/tmp/src.tar
### Success criteria
- archive exists" |};
                {| numeral := py "1"; caption := py "Unpack the sources";
                   step_body := py "### Task
Unpack the archive into the tree
### Save as
/tmp/src
### Success criteria
- tree exists" |} ]
              (NL :: py "## Finalization" ++ NL :: py "Done" ++ [NL])
              (outcome twice_one_doc)
              eq_refl
              ltac:(repeat constructor; try discriminate; vm_compute; reflexivity)
              (or_intror (ex_intro _ (NL :: py "Done" ++ [NL]) eq_refl))
              eq_refl
              ltac:(vm_compute; reflexivity))).
  intros X. inversion X as [|a l Y Z]. apply Y. now left.
Defined.

Lemma one_three_gap :
  (exists v,
     _parse_document (I := cpython) (new one_three_doc) = inr v
     /\ ValidationResult.errors (outcome one_three_doc)
        = errors (_validate_steps (_validate_structure v))
     /\ ValidationResult.warnings (outcome one_three_doc)
        = warnings (_validate_steps (_validate_structure v))
          ++ [NOT_SEQUENTIAL [1; 3]%Z [1; 2]%Z; GAP])
  /\ In (NOT_SEQUENTIAL [1; 3]%Z [1; 2]%Z)
        (ValidationResult.warnings (outcome one_three_doc))
  /\ count_occ str_dec (ValidationResult.warnings (outcome one_three_doc)) GAP
     = 1
  /\ ~ In DUPLICATES (ValidationResult.errors (outcome one_three_doc))
  /\ (forall content r',
        validate (I := cpython) (new content) = inr r' ->
        count_occ str_dec (ValidationResult.warnings r') GAP <= 1).
Proof.
  apply (gap_in_numbering (I := cpython)
           (py "# Gap" ++ NL :: py "## Meta" ++ NL :: py "version: 1.0")
           {| numeral := py "1"; caption := py "Fetch the sources";
              step_body := py "### Task
Fetch the sources from the mirror
### Save as
/tmp/src.tar
### Success criteria
- archive exists" |}
           {| numeral := py "3"; caption := py "Unpack the sources";
              step_body := py "### Task
Unpack the archive into the tree
### Save as
/tmp/src
### Success criteria
- tree exists" |}
           (NL :: py "## Finalization" ++ NL :: py "Done" ++ [NL])
           (outcome one_three_doc)).
  - reflexivity.
  - repeat split; try discriminate; vm_compute; reflexivity.
  - repeat split; try discriminate; vm_compute; reflexivity.
  - right. exists (NL :: py "Done" ++ [NL]). reflexivity.
  - reflexivity.
  - left. reflexivity.
  - vm_compute. reflexivity.
Defined.
